(** * OpenClaw hybrid RAG service: a shallow embedding of [rag-service/main.py]

    The development follows the layout of the Python module: the builtins
    the service relies on ([str.split], [str.lower], slices, [hashlib.sha256]),
    the configuration tables, the pydantic models, [ChunkingStrategy],
    [DeduplicationStrategy], and the endpoints working on the module-level
    stores.

    Conventions.
    - A Python [str] is a [string]; a character is the code point it
      denotes, so the embedding covers texts whose code points are below 256.
    - A Python [int] is a [Z]; counters that only count are [nat].
    - A naive UTC [datetime] is the number of microseconds since the epoch,
      a [Z]; [timedelta(days=d)] is [d * 86400000000].
    - A [float] is an IEEE 754 binary64 value.  A finite one is held as
      the rational it denotes (a [Q]); a quotient of two [int]s is rounded
      to the nearest such value, ties to even, as [/] does.
    - [datetime.utcnow()] reads a clock; an endpoint receives the readings
      it makes as a function from the reading's position to the instant. *)

From Stdlib Require Import ZArith NArith List String Ascii Lia QArith Bool.
From Stdlib Require Import Sorting.Sorted Sorting.Permutation.
From Stdlib Require Import DecimalString.
Import ListNotations.

Open Scope string_scope.
Open Scope Z_scope.

(* ================================================================== *)
(** * Python builtins *)
(* ================================================================== *)

Module Py.

(** [str.isspace] on one character: the code points below 256 with
    bidirectional class WS, B or S, or category Zs. *)
Definition isspace (c : ascii) : bool :=
  let n := N_of_ascii c in
  ((9 <=? n) && (n <=? 13) || (28 <=? n) && (n <=? 32)
   || (n =? 133) || (n =? 160))%N.

(** [str.lower] on one character: A-Z, and the Latin-1 capitals
    U+00C0..U+00DE except the multiplication sign U+00D7. *)
Definition lower_char (c : ascii) : ascii :=
  let n := N_of_ascii c in
  if ((65 <=? n) && (n <=? 90)
      || (192 <=? n) && (n <=? 222) && negb (n =? 215))%N
  then ascii_of_N (n + 32) else c.

Fixpoint lower (s : string) : string :=
  match s with
  | EmptyString => EmptyString
  | String c s' => String (lower_char c) (lower s')
  end.

Definition emit (cur : string) (l : list string) : list string :=
  match cur with
  | EmptyString => l
  | _ => cur :: l
  end.

(** The scan of [str.split()] without arguments: [cur] is the run of
    non-whitespace characters read so far. *)
Fixpoint split_from (cur : string) (s : string) : list string :=
  match s with
  | EmptyString => emit cur []
  | String c rest =>
      if isspace c then emit cur (split_from EmptyString rest)
      else split_from (cur ++ String c EmptyString) rest
  end.

Definition split (s : string) : list string := split_from EmptyString s.

(** [sep.join(l)] *)
Definition join (sep : string) (l : list string) : string :=
  String.concat sep l.

(** [w in s] on strings: [w] occurs in [s] as a substring. *)
Fixpoint contains (s w : string) : bool :=
  prefix w s
  || match s with
     | EmptyString => false
     | String _ s' => contains s' w
     end.

Definition len {A} (l : list A) : Z := Z.of_nat (List.length l).

(** A slice bound, as [PySlice_AdjustIndices] clips it for step 1. *)
Definition clip (n i : Z) : Z :=
  if i <? 0 then Z.max 0 (i + n) else Z.min i n.

(** [l[lo:hi]] *)
Definition slice {A} (l : list A) (lo hi : Z) : list A :=
  let a := clip (len l) lo in
  let b := clip (len l) hi in
  firstn (Z.to_nat (b - a)) (skipn (Z.to_nat a) l).

(** [str(i)] for a non-negative [int] *)
Definition str_of_nat (i : nat) : string :=
  NilZero.string_of_uint (Nat.to_uint i).

(** ** [float] *)

(** A [float]: a finite binary64 value, held as the rational it denotes,
    or one of [inf], [-inf] and [nan]. *)
Inductive float : Set :=
| finite (value : Q)
| inf
| neg_inf
| nan.

(** [n / d] rounded to the nearest integer, ties to the even one
    ([0 <= n], [0 < d]). *)
Definition round_half_even (n d : Z) : Z :=
  let q := n / d in
  match 2 * (n mod d) ?= d with
  | Lt => q
  | Gt => q + 1
  | Eq => if Z.even q then q else q + 1
  end.

(** [x * 2 ** k] for [k >= 0], and [x] otherwise. *)
Definition shl (x k : Z) : Z := x * 2 ^ Z.max 0 k.

(** The [e] with [2 ** e <= a / b < 2 ** (e + 1)] ([0 < a], [0 < b]). *)
Definition floor_log2 (a b : Z) : Z :=
  let e := Z.log2 a - Z.log2 b in
  if shl a (- e) <? shl b e then e - 1 else e.

(** [a / b] on two [int]s with [0 <= a] and [0 < b]: the binary64 value
    nearest to the quotient, ties to even.  The value has 53 significant
    bits, or fewer at the least exponent [-1074], where small quotients
    round to subnormal values or to [0.0].  ([ZeroDivisionError] for
    [b = 0] and [OverflowError] for a quotient of [2 ** 1024] and more are
    not covered: the one division of the module is reached with
    [0 < a <= b].) *)
Definition truediv (a b : Z) : Q :=
  if a =? 0 then 0%Q
  else
    let e := Z.max (floor_log2 a b - 52) (-1074) in
    let m := round_half_even (shl a (- e)) (shl b e) in
    Qred (shl m e # Z.to_pos (shl 1 (- e))).

(** [score >= x] for a finite [score]: false when [x] is [nan]. *)
Definition float_ge (score : Q) (x : float) : bool :=
  match x with
  | finite value => Qle_bool value score
  | neg_inf => true
  | inf | nan => false
  end.

End Py.

Coercion Py.finite : Q >-> Py.float.

(* ================================================================== *)
(** * Configuration *)
(* ================================================================== *)

Inductive RetentionPolicy : Set :=
| INFINITE | DAYS_10 | DAYS_30 | MONTHS_3 | MONTHS_6 | YEAR_1.

Definition RetentionPolicy_eqb (p q : RetentionPolicy) : bool :=
match p, q with
| INFINITE, INFINITE | DAYS_10, DAYS_10 | DAYS_30, DAYS_30
| MONTHS_3, MONTHS_3 | MONTHS_6, MONTHS_6 | YEAR_1, YEAR_1 => true
| _, _ => false
end.

Definition RETENTION_DAYS (p : RetentionPolicy) : option Z :=
match p with
| INFINITE => None
| DAYS_10 => Some 10
| DAYS_30 => Some 30
| MONTHS_3 => Some 90
| MONTHS_6 => Some 180
| YEAR_1 => Some 365
end.

Module Config.
Definition CHUNK_SIZE : Z := 500.
Definition CHUNK_OVERLAP : Z := 50.
Definition DEFAULT_RETENTION : RetentionPolicy := INFINITE.
End Config.

(** [timedelta(days=d)] in microseconds. *)
Definition timedelta_days (d : Z) : Z := d * 86400000000.

(** The readings of [datetime.utcnow()] made while one endpoint runs. *)
Definition Clock := nat -> Z.

(* ================================================================== *)
(** * ChunkingStrategy.chunk_text *)
(* ================================================================== *)

(** The [while i < len(words)] loop; [None] when [fuel] iterations did not
    reach the exit. *)
Fixpoint chunk_loop (fuel : nat) (words : list string)
    (chunk_size overlap i : Z) (chunks : list string) : option (list string) :=
  match fuel with
  | O => None
  | S fuel' =>
      if i <? Py.len words then
        let chunk_words := Py.slice words i (i + chunk_size) in
        let chunk := Py.join " " chunk_words in
        chunk_loop fuel' words chunk_size overlap
                   (i + (chunk_size - overlap)) (chunks ++ [chunk])
      else Some chunks
  end.

Definition chunk_text (fuel : nat) (text : string)
    (chunk_size overlap : Z) : option (list string) :=
  chunk_loop fuel (Py.split text) chunk_size overlap 0 [].

(* ================================================================== *)
(** * hashlib.sha256 (FIPS 180-4) and ChunkingStrategy.compute_hash *)
(* ================================================================== *)

Module Sha256.

Local Open Scope N_scope.

(** 32-bit words are naturals below [2^32]. *)
Definition mask32 : N := 0xffffffff.
Definition add32 (a b : N) : N := N.land (a + b) mask32.
Definition rotr (n x : N) : N :=
  N.lor (N.shiftr x n) (N.land (N.shiftl x (32 - n)) mask32).
Definition not32 (x : N) : N := N.lxor x mask32.

Definition Ch (x y z : N) : N := N.lxor (N.land x y) (N.land (not32 x) z).
Definition Maj (x y z : N) : N :=
  N.lxor (N.lxor (N.land x y) (N.land x z)) (N.land y z).
Definition Sigma0 (x : N) : N := N.lxor (N.lxor (rotr 2 x) (rotr 13 x)) (rotr 22 x).
Definition Sigma1 (x : N) : N := N.lxor (N.lxor (rotr 6 x) (rotr 11 x)) (rotr 25 x).
Definition sigma0 (x : N) : N := N.lxor (N.lxor (rotr 7 x) (rotr 18 x)) (N.shiftr x 3).
Definition sigma1 (x : N) : N := N.lxor (N.lxor (rotr 17 x) (rotr 19 x)) (N.shiftr x 10).

(** The constants are fractional bits of roots of the first primes
    (FIPS 180-4, 4.2.2 and 5.3.3). *)
Definition is_prime (n : nat) : bool :=
  forallb (fun d => negb (n mod d =? 0)%nat) (seq 2 (n - 2)).

Definition primes : list N :=
  Eval vm_compute in map N.of_nat (filter is_prime (seq 2 310)).

(** The integer [k]-th root of [x] below [2^bits], found bit by bit. *)
Fixpoint iroot (k : N) (bits : nat) (x : N) (r : N) : N :=
  match bits with
  | O => r
  | S b =>
      let c := r + 2 ^ N.of_nat b in
      if c ^ k <=? x then iroot k b x c else iroot k b x r
  end.

(** The first 32 bits of the fractional part of the [k]-th root of [p]. *)
Definition root_bits (k : N) (p : N) : N :=
  N.land (iroot k 36 (p * 2 ^ (32 * k)) 0) mask32.

(** Cube roots of the first 64 primes. *)
Definition K : list N := Eval vm_compute in map (root_bits 3) primes.

(** The eight chaining words. *)
Record state : Set := State
  { ha : N; hb : N; hc : N; hd : N; he : N; hf : N; hg : N; hh : N }.

(** Square roots of the first 8 primes. *)
Definition H0 : state :=
  Eval vm_compute in
    State (root_bits 2 2) (root_bits 2 3) (root_bits 2 5) (root_bits 2 7)
          (root_bits 2 11) (root_bits 2 13) (root_bits 2 17) (root_bits 2 19).

(** [str.encode()]: UTF-8 of code points below 256. *)
Definition utf8_char (c : ascii) : list N :=
  let n := N_of_ascii c in
  if n <? 128 then [n] else [192 + n / 64; 128 + n mod 64].

Fixpoint encode (s : string) : list N :=
  match s with
  | EmptyString => []
  | String c s' => utf8_char c ++ encode s'
  end.

Definition be64 (n : N) : list N :=
  map (fun k => N.land (N.shiftr n (8 * k)) 255) [7; 6; 5; 4; 3; 2; 1; 0].

(** Padding: a one bit, zeros up to 56 modulo 64, the bit length. *)
Definition pad (msg : list N) : list N :=
  let l := List.length msg in
  msg ++ [128] ++ repeat 0 ((119 - l mod 64) mod 64)%nat
      ++ be64 (8 * N.of_nat l).

Fixpoint words_of (bs : list N) : list N :=
  match bs with
  | a :: b :: c :: d :: rest =>
      (N.shiftl a 24 + N.shiftl b 16 + N.shiftl c 8 + d) :: words_of rest
  | _ => []
  end.

Definition round (s : state) (k w : N) : state :=
  let t1 := add32 (add32 (add32 (add32 (hh s) (Sigma1 (he s)))
                                (Ch (he s) (hf s) (hg s))) k) w in
  let t2 := add32 (Sigma0 (ha s)) (Maj (ha s) (hb s) (hc s)) in
  State (add32 t1 t2) (ha s) (hb s) (hc s) (add32 (hd s) t1) (he s) (hf s) (hg s).

(** The 64 rounds; [win] holds the schedule words [W t .. W (t+15)]. *)
Fixpoint rounds (ks : list N) (win : list N) (s : state) : state :=
  match ks with
  | [] => s
  | k :: ks' =>
      let w := nth 0 win 0 in
      let next := add32 (add32 (add32 (sigma1 (nth 14 win 0)) (nth 9 win 0))
                               (sigma0 (nth 1 win 0))) w in
      rounds ks' (tl win ++ [next]) (round s k w)
  end.

Definition compress (h : state) (block : list N) : state :=
  let s := rounds K block h in
  State (add32 (ha h) (ha s)) (add32 (hb h) (hb s)) (add32 (hc h) (hc s))
        (add32 (hd h) (hd s)) (add32 (he h) (he s)) (add32 (hf h) (hf s))
        (add32 (hg h) (hg s)) (add32 (hh h) (hh s)).

Fixpoint blocks (n : nat) (ws : list N) (h : state) : state :=
  match n with
  | O => h
  | S n' => blocks n' (skipn 16 ws) (compress h (firstn 16 ws))
  end.

Definition digest (msg : list N) : state :=
  let ws := words_of (pad msg) in
  blocks (List.length ws / 16) ws H0.

Definition hexdigit (n : N) : ascii :=
  if n <? 10 then ascii_of_N (48 + n) else ascii_of_N (87 + n).

Definition hex8 (w : N) (tail : string) : string :=
  String (hexdigit (N.land (N.shiftr w 28) 15))
 (String (hexdigit (N.land (N.shiftr w 24) 15))
 (String (hexdigit (N.land (N.shiftr w 20) 15))
 (String (hexdigit (N.land (N.shiftr w 16) 15))
 (String (hexdigit (N.land (N.shiftr w 12) 15))
 (String (hexdigit (N.land (N.shiftr w 8) 15))
 (String (hexdigit (N.land (N.shiftr w 4) 15))
 (String (hexdigit (N.land w 15)) tail))))))).

Definition hexdigest (s : state) : string :=
  hex8 (ha s) (hex8 (hb s) (hex8 (hc s) (hex8 (hd s)
 (hex8 (he s) (hex8 (hf s) (hex8 (hg s) (hex8 (hh s) EmptyString))))))).

End Sha256.

(** [hashlib.sha256(content.encode()).hexdigest()[:16]] *)
Definition compute_hash (content : string) : string :=
  substring 0 16 (Sha256.hexdigest (Sha256.digest (Sha256.encode content))).

(* ================================================================== *)
(** * Models *)
(* ================================================================== *)

Module ChunkMetadata.
Record t : Set := mk
  { chunk_id : string;
    content_hash : string;
    agent_id : string;
    source_type : string;
    source_id : string;
    timestamp : Z;
    retention_policy : RetentionPolicy;
    expires_at : option Z }.
End ChunkMetadata.

Module DocumentChunk.
Record t : Set := mk
  { content : string;
    metadata : ChunkMetadata.t;
    embedding : option (list Q) }.
End DocumentChunk.

Module IndexRequest.
Record t : Set := mk
  { content : string;
    agent_id : string;
    source_type : string;
    source_id : string;
    extract_entities : bool;
    retention_policy : RetentionPolicy }.
End IndexRequest.

Module SearchRequest.
Record t : Set := mk
  { query : string;
    agent_id : string;
    include_shared : bool;
    search_type : string;
    limit : Z;
    min_score : Py.float }.
End SearchRequest.

Module SearchResult.
Record t : Set := mk
  { content : string;
    score : Q;
    source_type : string;
    source_id : string;
    agent_id : string;
    timestamp : Z;
    search_method : string }.
End SearchResult.

(* ================================================================== *)
(** * Insertion-ordered dictionaries *)
(* ================================================================== *)

(** A Python [dict] with [str] keys: the items in insertion order.  A
    well-formed dictionary holds each key once ([dict_wf]). *)
Definition Dict (V : Type) : Type := list (string * V).

Definition keys {V} (d : Dict V) : list string := map fst d.
Definition values {V} (d : Dict V) : list V := map snd d.
Definition dict_wf {V} (d : Dict V) : Prop := NoDup (keys d).

(** [d.get(k)] *)
Fixpoint dict_get {V} (k : string) (d : Dict V) : option V :=
  match d with
  | [] => None
  | (k', v) :: d' => if String.eqb k k' then Some v else dict_get k d'
  end.

(** [d[k] = v]: an existing key keeps its position. *)
Fixpoint dict_set {V} (k : string) (v : V) (d : Dict V) : Dict V :=
  match d with
  | [] => [(k, v)]
  | (k', v') :: d' =>
      if String.eqb k k' then (k, v) :: d' else (k', v') :: dict_set k v d'
  end.

(** [del d[k]]; [None] is the [KeyError]. *)
Fixpoint dict_del {V} (k : string) (d : Dict V) : option (Dict V) :=
  match d with
  | [] => None
  | (k', v) :: d' =>
      if String.eqb k k' then Some d'
      else match dict_del k d' with
           | Some d'' => Some ((k', v) :: d'')
           | None => None
           end
  end.

(* ================================================================== *)
(** * ChunkingStrategy.prepare_chunks *)
(* ================================================================== *)

(** [chunk_text(content)] with the default [chunk_size=500, overlap=50];
    the loop makes at most one iteration per word. *)
Definition chunk_text_default (text : string) : option (list string) :=
  chunk_text (S (List.length (Py.split text))) text 500 50.

(** [f"{agent_id}_{source_id}_{i}_{content_hash}"] *)
Definition make_chunk_id (agent_id source_id : string) (i : nat)
    (content_hash : string) : string :=
  agent_id ++ "_" ++ source_id ++ "_" ++ Py.str_of_nat i ++ "_" ++ content_hash.

(** The expiry computed from a policy and a clock reading.  Every policy but
    [INFINITE] has a day count, so the inner [None] (where
    [timedelta(days=None)] would raise) is never reached. *)
Definition expiry_of (policy : RetentionPolicy) (now : Z) : option Z :=
  if negb (RetentionPolicy_eqb policy INFINITE) then
    match RETENTION_DAYS policy with
    | Some days => Some (now + timedelta_days days)
    | None => None
    end
  else None.

(** How many times the body of a loop reads the clock for one chunk whose
    expiry is computed: once for a finite policy, never for [INFINITE]. *)
Definition expiry_reads (policy : RetentionPolicy) : nat :=
  if negb (RetentionPolicy_eqb policy INFINITE) then 1%nat else 0%nat.

(** The [for i, chunk_content in enumerate(chunks)] loop; [tick] counts the
    clock readings made so far. *)
Fixpoint prepare_loop (clock : Clock) (tick : nat) (i : nat)
    (chunks : list string) (agent_id source_type source_id : string)
    (retention_policy : RetentionPolicy) : list DocumentChunk.t :=
  match chunks with
  | [] => []
  | chunk_content :: rest =>
      let content_hash := compute_hash chunk_content in
      let chunk_id := make_chunk_id agent_id source_id i content_hash in
      let expires_at := expiry_of retention_policy (clock tick) in
      let tick := (tick + expiry_reads retention_policy)%nat in
      let metadata :=
        ChunkMetadata.mk chunk_id content_hash agent_id source_type source_id
                         (clock tick) retention_policy expires_at in
      DocumentChunk.mk chunk_content metadata None
        :: prepare_loop clock (S tick) (S i) rest
                        agent_id source_type source_id retention_policy
  end.

Definition prepare_chunks (clock : Clock)
    (content agent_id source_type source_id : string)
    (retention_policy : RetentionPolicy) : option (list DocumentChunk.t) :=
  match chunk_text_default content with
  | Some chunks =>
      Some (prepare_loop clock 0 0 chunks agent_id source_type source_id
                         retention_policy)
  | None => None
  end.

(* ================================================================== *)
(** * DeduplicationStrategy *)
(* ================================================================== *)

(** The class attribute [indexed_hashes], a [set] of [str]: a list that
    holds each member once. *)
Definition HashSet : Set := list string.

Definition is_duplicate (content_hash : string) (indexed_hashes : HashSet) : bool :=
  existsb (String.eqb content_hash) indexed_hashes.

Definition mark_indexed (content_hash : string) (indexed_hashes : HashSet) : HashSet :=
  if is_duplicate content_hash indexed_hashes then indexed_hashes
  else content_hash :: indexed_hashes.

Definition should_index_to_rag (content source_type : string) : bool :=
  if existsb (String.eqb source_type) ["document"; "conversation_complete"]
  then true
  else if String.eqb source_type "system" then false
  else if (100 <? String.length content)%nat then true
  else false.

(* ================================================================== *)
(** * The service state and its endpoints *)
(* ================================================================== *)

(** The module-level stores the endpoints below read and write, with the
    class-level set of [DeduplicationStrategy].  ([graph_nodes] and
    [graph_relations] are written by the background task only, which stores
    what [EntityExtractor.extract] returns: two empty lists.) *)
Record World : Type := mkWorld
  { indexed_chunks : Dict DocumentChunk.t;
    indexed_hashes : HashSet;
    retention_settings : Dict RetentionPolicy }.

Definition empty_world : World := mkWorld [] [] [].

(** The body returned by [POST /index]. *)
Inductive IndexResponse : Set :=
| Skipped (reason : string)
| Success (indexed skipped total_chunks : nat).

(** A call [background_tasks.add_task(extract_and_store_entities, content,
    agent_id, source_id)]. *)
Definition Task : Set := (string * string * string)%type.

(** The [for chunk in chunks] loop of [index_content]. *)
Fixpoint index_loop (chunks : list DocumentChunk.t)
    (store : Dict DocumentChunk.t) (hashes : HashSet)
    (indexed_count skipped_count : nat)
  : Dict DocumentChunk.t * HashSet * nat * nat :=
  match chunks with
  | [] => (store, hashes, indexed_count, skipped_count)
  | chunk :: rest =>
      let m := DocumentChunk.metadata chunk in
      if is_duplicate (ChunkMetadata.content_hash m) hashes then
        index_loop rest store hashes indexed_count (S skipped_count)
      else
        index_loop rest
                   (dict_set (ChunkMetadata.chunk_id m) chunk store)
                   (mark_indexed (ChunkMetadata.content_hash m) hashes)
                   (S indexed_count) skipped_count
  end.

(** [if request.extract_entities: background_tasks.add_task(...)] *)
Definition scheduled_tasks (request : IndexRequest.t) : list Task :=
  if IndexRequest.extract_entities request
  then [(IndexRequest.content request, IndexRequest.agent_id request,
         IndexRequest.source_id request)]
  else [].

(** [POST /index]; [None] only if chunking ran out of fuel. *)
Definition index_content (clock : Clock) (request : IndexRequest.t) (w : World)
  : option (World * IndexResponse * list Task) :=
  if negb (should_index_to_rag (IndexRequest.content request)
                               (IndexRequest.source_type request))
  then Some (w, Skipped "content_type_excluded", [])
  else
    match prepare_chunks clock
            (IndexRequest.content request) (IndexRequest.agent_id request)
            (IndexRequest.source_type request) (IndexRequest.source_id request)
            (IndexRequest.retention_policy request) with
    | None => None
    | Some chunks =>
        let '(store, hashes, indexed_count, skipped_count) :=
          index_loop chunks (indexed_chunks w) (indexed_hashes w) 0 0 in
        Some (mkWorld store hashes (retention_settings w),
              Success indexed_count skipped_count (List.length chunks),
              scheduled_tasks request)
    end.

(** ** POST /search *)

Definition agent_filter (request : SearchRequest.t) : list string :=
  SearchRequest.agent_id request
    :: (if SearchRequest.include_shared request then ["shared"] else []).

(** [sum(1 for word in query_words if word in content_lower)] *)
Definition count_matches (query_words : list string) (content_lower : string) : nat :=
  List.length (filter (Py.contains content_lower) query_words).

(** [matches / len(query_words)], a [float]; it is evaluated under
    [matches > 0] only, hence with [0 < matches <= len]. *)
Definition ratio (matches len : nat) : Q :=
  Py.truediv (Z.of_nat matches) (Z.of_nat len).

(** One pass of the loop body over an item of [indexed_chunks]: the result
    appended, if any. *)
Definition search_item (request : SearchRequest.t) (query_lower : string)
    (chunk : DocumentChunk.t) : option SearchResult.t :=
  let m := DocumentChunk.metadata chunk in
  if negb (existsb (String.eqb (ChunkMetadata.agent_id m)) (agent_filter request))
  then None
  else
    let content_lower := Py.lower (DocumentChunk.content chunk) in
    let query_words := Py.split query_lower in
    let matches := count_matches query_words content_lower in
    if (0 <? matches)%nat then
      let score := ratio matches (List.length query_words) in
      if Py.float_ge score (SearchRequest.min_score request) then
        Some (SearchResult.mk (DocumentChunk.content chunk) score
                (ChunkMetadata.source_type m) (ChunkMetadata.source_id m)
                (ChunkMetadata.agent_id m) (ChunkMetadata.timestamp m) "bm25")
      else None
    else None.

(** The [for chunk_id, chunk in indexed_chunks.items()] loop. *)
Fixpoint search_loop (request : SearchRequest.t) (query_lower : string)
    (items : Dict DocumentChunk.t) (results : list SearchResult.t)
  : list SearchResult.t :=
  match items with
  | [] => results
  | (_, chunk) :: rest =>
      match search_item request query_lower chunk with
      | Some r => search_loop request query_lower rest (results ++ [r])
      | None => search_loop request query_lower rest results
      end
  end.

(** [results.sort(key=lambda x: x.score, reverse=True)]: a stable sort,
    items of equal score keep their order. *)
Fixpoint insert_by_score (x : SearchResult.t) (l : list SearchResult.t)
  : list SearchResult.t :=
  match l with
  | [] => [x]
  | y :: l' =>
      if Qle_bool (SearchResult.score y) (SearchResult.score x)
      then x :: l
      else y :: insert_by_score x l'
  end.

Definition sort_by_score (l : list SearchResult.t) : list SearchResult.t :=
  fold_right insert_by_score [] l.

Definition hybrid_search (request : SearchRequest.t) (w : World)
  : list SearchResult.t :=
  let query_lower := Py.lower (SearchRequest.query request) in
  let results := search_loop request query_lower (indexed_chunks w) [] in
  Py.slice (sort_by_score results) 0 (SearchRequest.limit request).

(** ** PUT and GET /retention/{agent_id} *)

Definition set_chunk_policy (policy : RetentionPolicy) (now : Z)
    (chunk : DocumentChunk.t) : DocumentChunk.t :=
  let m := DocumentChunk.metadata chunk in
  DocumentChunk.mk (DocumentChunk.content chunk)
    (ChunkMetadata.mk (ChunkMetadata.chunk_id m) (ChunkMetadata.content_hash m)
       (ChunkMetadata.agent_id m) (ChunkMetadata.source_type m)
       (ChunkMetadata.source_id m) (ChunkMetadata.timestamp m)
       policy (expiry_of policy now))
    (DocumentChunk.embedding chunk).

(** The [for chunk in indexed_chunks.values()] loop: the chunks are updated
    in place, so the items keep their keys and their order. *)
Fixpoint retention_loop (clock : Clock) (tick : nat)
    (agent_id : string) (policy : RetentionPolicy)
    (items : Dict DocumentChunk.t) (updated : nat)
  : Dict DocumentChunk.t * nat :=
  match items with
  | [] => ([], updated)
  | (k, chunk) :: rest =>
      if String.eqb (ChunkMetadata.agent_id (DocumentChunk.metadata chunk)) agent_id
      then
        let chunk' := set_chunk_policy policy (clock tick) chunk in
        let '(rest', n) :=
          retention_loop clock (tick + expiry_reads policy) agent_id policy
                         rest (S updated) in
        ((k, chunk') :: rest', n)
      else
        let '(rest', n) :=
          retention_loop clock tick agent_id policy rest updated in
        ((k, chunk) :: rest', n)
  end.

(** Returns the new state and [updated_chunks]. *)
Definition set_retention_policy (clock : Clock) (agent_id : string)
    (policy : RetentionPolicy) (w : World) : World * nat :=
  let settings := dict_set agent_id policy (retention_settings w) in
  let '(store, updated) :=
    retention_loop clock 0 agent_id policy (indexed_chunks w) 0 in
  (mkWorld store (indexed_hashes w) settings, updated).

Definition get_retention_policy (agent_id : string) (w : World) : RetentionPolicy :=
  match dict_get agent_id (retention_settings w) with
  | Some policy => policy
  | None => Config.DEFAULT_RETENTION
  end.

(** ** POST /cleanup *)

(** [chunk.metadata.expires_at and chunk.metadata.expires_at < now]; a
    [datetime] is always truthy. *)
Definition is_expired (now : Z) (chunk : DocumentChunk.t) : bool :=
  match ChunkMetadata.expires_at (DocumentChunk.metadata chunk) with
  | Some e => e <? now
  | None => false
  end.

Fixpoint collect_expired (now : Z) (items : Dict DocumentChunk.t)
    (to_remove : list string) : list string :=
  match items with
  | [] => to_remove
  | (chunk_id, chunk) :: rest =>
      if is_expired now chunk
      then collect_expired now rest (to_remove ++ [chunk_id])
      else collect_expired now rest to_remove
  end.

Fixpoint remove_loop (to_remove : list string) (store : Dict DocumentChunk.t)
    (removed : nat) : option (Dict DocumentChunk.t * nat) :=
  match to_remove with
  | [] => Some (store, removed)
  | chunk_id :: rest =>
      match dict_del chunk_id store with
      | Some store' => remove_loop rest store' (S removed)
      | None => None
      end
  end.

(** [now] is the one reading of the clock; [None] is a [KeyError].
    Returns the new state and [removed]. *)
Definition cleanup_expired (now : Z) (w : World) : option (World * nat) :=
  let to_remove := collect_expired now (indexed_chunks w) [] in
  match remove_loop to_remove (indexed_chunks w) 0 with
  | Some (store, removed) =>
      Some (mkWorld store (indexed_hashes w) (retention_settings w), removed)
  | None => None
  end.

(* ================================================================== *)
(** * Vocabulary of the statements *)
(* ================================================================== *)

(** ** Tokens and windows *)

Fixpoint all_chars (p : ascii -> bool) (s : string) : bool :=
  match s with
  | EmptyString => true
  | String c s' => p c && all_chars p s'
  end.

Definition all_space (s : string) : Prop := all_chars Py.isspace s = true.

(** A token: a non-empty run of non-whitespace characters. *)
Definition token (s : string) : Prop :=
  s <> EmptyString /\ all_chars (fun c => negb (Py.isspace c)) s = true.

(** What may follow a token for the token to be maximal. *)
Definition run_ends (rest : string) : Prop :=
  rest = EmptyString
  \/ exists c r, rest = String c r /\ Py.isspace c = true.

(** [Runs toks s]: [toks] are the maximal runs of non-whitespace characters
    of [s], from left to right. *)
Inductive Runs : list string -> string -> Prop :=
| Runs_end sp : all_space sp -> Runs [] sp
| Runs_token sp t rest toks :
    all_space sp -> token t -> run_ends rest -> Runs toks rest ->
    Runs (t :: toks) (sp ++ t ++ rest).

(** The number of window starts [0, step, 2*step, ...] below [n]. *)
Definition window_count (n step : nat) : nat := ((n + step - 1) / step)%nat.

(** The tokens of the window that starts at position [start]. *)
Definition window (words : list string) (size start : nat) : list string :=
  firstn size (skipn start words).

(** ** The lexical candidates of a search *)

(** The results the loop of [hybrid_search] collects, in the order of the
    store. *)
Definition lexical_candidates (request : SearchRequest.t) (w : World)
  : list SearchResult.t :=
  flat_map (fun kc =>
              match search_item request (Py.lower (SearchRequest.query request))
                                (snd kc) with
              | Some r => [r]
              | None => []
              end)
           (indexed_chunks w).

(** The chunk is visible to the request, at least one query word occurs in
    its lowered content, and the fraction of such words reaches
    [min_score]. *)
Definition qualifies (request : SearchRequest.t) (chunk : DocumentChunk.t) : bool :=
  let words := Py.split (Py.lower (SearchRequest.query request)) in
  let matches := count_matches words (Py.lower (DocumentChunk.content chunk)) in
  existsb (String.eqb (ChunkMetadata.agent_id (DocumentChunk.metadata chunk)))
          (agent_filter request)
  && (0 <? matches)%nat
  && Py.float_ge (ratio matches (List.length words))
                 (SearchRequest.min_score request).

(** The result built for a chunk: its score is the fraction of the query's
    words that occur in its lowered content. *)
Definition result_of (request : SearchRequest.t) (chunk : DocumentChunk.t)
  : SearchResult.t :=
  let words := Py.split (Py.lower (SearchRequest.query request)) in
  let m := DocumentChunk.metadata chunk in
  SearchResult.mk (DocumentChunk.content chunk)
    (ratio (count_matches words (Py.lower (DocumentChunk.content chunk)))
           (List.length words))
    (ChunkMetadata.source_type m) (ChunkMetadata.source_id m)
    (ChunkMetadata.agent_id m) (ChunkMetadata.timestamp m) "bm25".

Definition with_search_type (mode : string) (request : SearchRequest.t)
  : SearchRequest.t :=
  SearchRequest.mk (SearchRequest.query request) (SearchRequest.agent_id request)
    (SearchRequest.include_shared request) mode
    (SearchRequest.limit request) (SearchRequest.min_score request).

(** Descending order of scores. *)
Definition score_ge (a b : SearchResult.t) : Prop :=
  (SearchResult.score b <= SearchResult.score a)%Q.

Definition score_is (q : Q) (r : SearchResult.t) : bool :=
  Qeq_bool (SearchResult.score r) q.

(** ** Expiry *)

Definition set_expires_at (e : option Z) (chunk : DocumentChunk.t) : DocumentChunk.t :=
  let m := DocumentChunk.metadata chunk in
  DocumentChunk.mk (DocumentChunk.content chunk)
    (ChunkMetadata.mk (ChunkMetadata.chunk_id m) (ChunkMetadata.content_hash m)
       (ChunkMetadata.agent_id m) (ChunkMetadata.source_type m)
       (ChunkMetadata.source_id m) (ChunkMetadata.timestamp m)
       (ChunkMetadata.retention_policy m) e)
    (DocumentChunk.embedding chunk).

Definition expired_item (now : Z) (kc : string * DocumentChunk.t) : bool :=
  is_expired now (snd kc).

Definition hash_of (chunk : DocumentChunk.t) : string :=
  ChunkMetadata.content_hash (DocumentChunk.metadata chunk).

Definition owned_by (agent_id : string) (chunk : DocumentChunk.t) : bool :=
  String.eqb (ChunkMetadata.agent_id (DocumentChunk.metadata chunk)) agent_id.

Definition owned_items (agent_id : string) (items : Dict DocumentChunk.t)
  : Dict DocumentChunk.t :=
  filter (fun kc => owned_by agent_id (snd kc)) items.

(** What the loop does to one item, given the readings it may use: the
    readings number [lo] to [hi - 1]. *)
Definition retargeted (clock : Clock) (agent_id : string)
    (policy : RetentionPolicy) (lo hi : nat)
    (old new : string * DocumentChunk.t) : Prop :=
  fst new = fst old
  /\ if owned_by agent_id (snd old)
     then exists t, (lo <= t < hi)%nat
                    /\ snd new = set_chunk_policy policy (clock t) (snd old)
     else snd new = snd old.

(** ** Reciprocal Rank Fusion, in the words of the specification *)

Module FusionRankerSpec.

(** The 1-based rank of a candidate in one backend's result list. *)
Fixpoint rank_in (c : string) (l : list string) : option Z :=
  match l with
  | [] => None
  | x :: l' =>
      if String.eqb c x then Some 1
      else match rank_in c l' with
           | Some r => Some (r + 1)
           | None => None
           end
  end.

(** A candidate at rank [r] contributes [1 / (k + r)]; an absent one 0. *)
Definition contribution (k : Z) (l : list string) (c : string) : Q :=
  match rank_in c l with
  | Some r => 1 # Z.to_pos (k + r)
  | None => 0
  end.

Definition rrf_score (k : Z) (lists : list (list string)) (c : string) : Q :=
  fold_right (fun l acc => contribution k l c + acc)%Q 0%Q lists.

End FusionRankerSpec.

(* ================================================================== *)
(** * Concrete scenarios *)
(* ================================================================== *)

(** A clock that starts at instant 1000 and advances by one microsecond
    per reading. *)
Definition demo_clock : Clock := fun n => 1000 + Z.of_nat n.

Definition world_after (r : option (World * IndexResponse * list Task)) : World :=
  match r with
  | Some (w, _, _) => w
  | None => empty_world
  end.

(** One short document of agent [a], kept for ten days, indexed into the
    empty service at instant 1000: its only chunk expires at
    [1000 + 10 days]. *)
Definition hello_request : IndexRequest.t :=
  IndexRequest.mk "hello world" "a" "document" "b_c" true DAYS_10.

Definition hello_world : World :=
  world_after (index_content demo_clock hello_request empty_world).

Definition hello_expiry : Z := 1000 + timedelta_days 10.

(** The same text sent by agent [a_b] for source [c]. *)
Definition hello_request_other : IndexRequest.t :=
  IndexRequest.mk "hello world" "a_b" "document" "c" true DAYS_10.

(** A hybrid search of agent [a] for the word [Hello]. *)
Definition hello_search : SearchRequest.t :=
  SearchRequest.mk "Hello" "a" true "hybrid" 10 (1 # 2).

(** Two documents of agent [u] that both contain the one query word; the
    one indexed first has the greater identity. *)
Definition tie_first : IndexRequest.t :=
  IndexRequest.mk "alpha beta" "u" "document" "z" false INFINITE.

Definition tie_second : IndexRequest.t :=
  IndexRequest.mk "alpha gamma" "u" "document" "a" false INFINITE.

Definition tie_world : World :=
  world_after (index_content demo_clock tie_second
                 (world_after (index_content demo_clock tie_first empty_world))).

Definition tie_search : SearchRequest.t :=
  SearchRequest.mk "alpha" "u" false "hybrid" 10 (1 # 2).

From Stdlib Require DecimalNat DecimalFacts.

(* ================================================================== *)
(** * Vocabulary of the further properties *)
(* ================================================================== *)

(** One of the characters [0-9a-f]. *)
Definition is_lower_hex (c : ascii) : bool :=
  let n := N_of_ascii c in
  ((48 <=? n) && (n <=? 57) || (97 <=? n) && (n <=? 102))%N.

(** ** Runs of the service *)

(** One call of an endpoint that can change the state ([hybrid_search] and
    [get_retention_policy] only read it). *)
Inductive Step : World -> World -> Prop :=
| Step_index clock request w w' response tasks :
    index_content clock request w = Some (w', response, tasks) -> Step w w'
| Step_retention clock agent_id policy w :
    Step w (fst (set_retention_policy clock agent_id policy w))
| Step_cleanup now w w' removed :
    cleanup_expired now w = Some (w', removed) -> Step w w'.

(** The states the service can be in, starting with empty stores. *)
Inductive Reachable : World -> Prop :=
| Reachable_start : Reachable empty_world
| Reachable_step w w' : Reachable w -> Step w w' -> Reachable w'.

(** What holds of every chunk as [prepare_chunks] builds it and as
    [set_retention_policy] leaves it. *)
Definition well_formed_chunk (chunk : DocumentChunk.t) : Prop :=
  let m := DocumentChunk.metadata chunk in
  let text := DocumentChunk.content chunk in
  (exists i, ChunkMetadata.chunk_id m
             = make_chunk_id (ChunkMetadata.agent_id m)
                             (ChunkMetadata.source_id m) i
                             (ChunkMetadata.content_hash m))
  /\ ChunkMetadata.content_hash m = compute_hash text
  /\ (exists now, ChunkMetadata.expires_at m
                  = expiry_of (ChunkMetadata.retention_policy m) now)
  /\ Py.join " " (Py.split text) = text
  /\ (1 <= List.length (Py.split text) <= 500)%nat
  /\ DocumentChunk.embedding chunk = None.

(** An item of the store: filed under its own identity, well formed, its
    fingerprint marked. *)
Definition stored_item (hashes : HashSet) (kc : string * DocumentChunk.t) : Prop :=
  fst kc = ChunkMetadata.chunk_id (DocumentChunk.metadata (snd kc))
  /\ well_formed_chunk (snd kc)
  /\ In (hash_of (snd kc)) hashes.

Definition consistent (w : World) : Prop :=
  dict_wf (indexed_chunks w)
  /\ NoDup (indexed_hashes w)
  /\ Forall (stored_item (indexed_hashes w)) (indexed_chunks w)
  /\ NoDup (map hash_of (values (indexed_chunks w))).

(** The request with another query. *)
Definition with_query (query : string) (request : SearchRequest.t)
  : SearchRequest.t :=
  SearchRequest.mk query (SearchRequest.agent_id request)
    (SearchRequest.include_shared request) (SearchRequest.search_type request)
    (SearchRequest.limit request) (SearchRequest.min_score request).

(** The chunk that [hello_world] holds. *)
Definition hello_chunk : DocumentChunk.t :=
  DocumentChunk.mk "hello world"
    (ChunkMetadata.mk "a_b_c_0_b94d27b9934d3e08" "b94d27b9934d3e08" "a"
       "document" "b_c" 1001 DAYS_10 (Some hello_expiry))
    None.

(** The [float] written [0.2]: the binary64 value nearest to one fifth,
    which lies above it. *)
Definition float_0_2 : Q := 3602879701896397 # 18014398509481984.

(** A search of agent [a] for five words, of which the chunk of
    [hello_world] holds one, with [min_score = 0.2]. *)
Definition fifth_search : SearchRequest.t :=
  SearchRequest.mk "hello q1 q2 q3 q4" "a" true "hybrid" 10 float_0_2.

(* ================================================================== *)
(** * Statistics endpoints and the entity graph *)
(* ================================================================== *)

(** [k in d] *)
Definition dict_mem {V} (k : string) (d : Dict V) : bool :=
  existsb (String.eqb k) (keys d).

(** Sequencing of steps that can raise: [None] is the exception. *)
Definition bind {A B} (o : option A) (k : A -> option B) : option B :=
  match o with
  | Some a => k a
  | None => None
  end.

Notation "'let?' x ':=' e 'in' k" := (bind e (fun x => k))
  (at level 10, x name, e at level 100, k at level 200).

(** ** GET /stats/weaviate *)

Module RAGStats.
Record t : Set := mk
  { collection_name : string;
    object_count : nat;
    last_indexed : option Z;
    size_mb : Q;
    retention_policy : RetentionPolicy }.
End RAGStats.

(** The body of the loop of [get_weaviate_stats]; every
    [stats_by_agent[collection]] is a lookup, and an assignment to an
    attribute of the object found updates the object in place. *)
Definition weaviate_step (stats_by_agent : Dict RAGStats.t)
    (chunk : DocumentChunk.t) : option (Dict RAGStats.t) :=
  let m := DocumentChunk.metadata chunk in
  let agent := ChunkMetadata.agent_id m in
  let collection := "OpenClaw_Agent_" ++ agent in
  let stats_by_agent :=
    if negb (dict_mem collection stats_by_agent)
    then dict_set collection
           (RAGStats.mk collection 0 None 0 (ChunkMetadata.retention_policy m))
           stats_by_agent
    else stats_by_agent in
  let? s := dict_get collection stats_by_agent in
  let stats_by_agent :=
    dict_set collection
      (RAGStats.mk (RAGStats.collection_name s) (RAGStats.object_count s + 1)
         (RAGStats.last_indexed s) (RAGStats.size_mb s)
         (RAGStats.retention_policy s))
      stats_by_agent in
  let? s := dict_get collection stats_by_agent in
  let stats_by_agent :=
    dict_set collection
      (RAGStats.mk (RAGStats.collection_name s) (RAGStats.object_count s)
         (RAGStats.last_indexed s)
         (RAGStats.size_mb s
          + inject_Z (Z.of_nat (String.length (DocumentChunk.content chunk)))
            / 1024 / 1024)%Q
         (RAGStats.retention_policy s))
      stats_by_agent in
  let? s := dict_get collection stats_by_agent in
  if match RAGStats.last_indexed s with
     | None => true
     | Some last => last <? ChunkMetadata.timestamp m
     end
  then
    let? s := dict_get collection stats_by_agent in
    Some (dict_set collection
            (RAGStats.mk (RAGStats.collection_name s) (RAGStats.object_count s)
               (Some (ChunkMetadata.timestamp m)) (RAGStats.size_mb s)
               (RAGStats.retention_policy s))
            stats_by_agent)
  else Some stats_by_agent.

Fixpoint weaviate_loop (chunks : list DocumentChunk.t)
    (stats_by_agent : Dict RAGStats.t) : option (Dict RAGStats.t) :=
  match chunks with
  | [] => Some stats_by_agent
  | chunk :: rest =>
      let? stats_by_agent := weaviate_step stats_by_agent chunk in
      weaviate_loop rest stats_by_agent
  end.

(** [None] would be a [KeyError]. *)
Definition get_weaviate_stats (w : World) : option (list RAGStats.t) :=
  let? stats_by_agent := weaviate_loop (values (indexed_chunks w)) [] in
  Some (values stats_by_agent).

(** ** GET /collections *)

(** [str(i)] for [i >= 0], padded with zeros on the left to [width]
    characters: the [%0<width>d] of [isoformat]. *)
Definition zero_padded (width : nat) (i : Z) : string :=
  let digits := NilZero.string_of_uint (N.to_uint (Z.to_N i)) in
  String.concat "" (repeat "0" (width - String.length digits)) ++ digits.

(** The civil date of a day number counted from 1970-01-01 (proleptic
    Gregorian calendar, as [datetime] uses it). *)
Definition civil_from_days (days : Z) : Z * Z * Z :=
  let z := days + 719468 in
  let era := z / 146097 in
  let doe := z - era * 146097 in
  let yoe := (doe - doe / 1460 + doe / 36524 - doe / 146096) / 365 in
  let doy := doe - (365 * yoe + yoe / 4 - yoe / 100) in
  let mp := (5 * doy + 2) / 153 in
  let d := doy - (153 * mp + 2) / 5 + 1 in
  let m := if mp <? 10 then mp + 3 else mp - 9 in
  let y := yoe + era * 400 + (if m <=? 2 then 1 else 0) in
  (y, m, d).

(** [datetime.isoformat()] of the instant [t] microseconds after the epoch
    (years 1 to 9999): [YYYY-MM-DDTHH:MM:SS], followed by [.ffffff] when
    the microsecond is not zero. *)
Definition isoformat (t : Z) : string :=
  let day := 86400000000 in
  let '(y, m, d) := civil_from_days (t / day) in
  let us := t mod day in
  let micro := us mod 1000000 in
  let s := us / 1000000 in
  zero_padded 4 y ++ "-" ++ zero_padded 2 m ++ "-" ++ zero_padded 2 d
  ++ "T" ++ zero_padded 2 (s / 3600) ++ ":" ++ zero_padded 2 (s / 60 mod 60)
  ++ ":" ++ zero_padded 2 (s mod 60)
  ++ (if micro =? 0 then "" else "." ++ zero_padded 6 micro).

(** The dictionary built for one agent by [list_collections]. *)
Module Collection.
Record t : Set := mk
  { name : string;
    chunks : nat;
    last_indexed : option string;
    retention : RetentionPolicy }.
End Collection.

Definition collections_step (collections : Dict Collection.t)
    (chunk : DocumentChunk.t) : option (Dict Collection.t) :=
  let m := DocumentChunk.metadata chunk in
  let agent := ChunkMetadata.agent_id m in
  let collections :=
    if negb (dict_mem agent collections)
    then dict_set agent
           (Collection.mk ("OpenClaw_Agent_" ++ agent) 0 None
                          (ChunkMetadata.retention_policy m))
           collections
    else collections in
  let? c := dict_get agent collections in
  let collections :=
    dict_set agent
      (Collection.mk (Collection.name c) (Collection.chunks c + 1)
                     (Collection.last_indexed c) (Collection.retention c))
      collections in
  let ts := isoformat (ChunkMetadata.timestamp m) in
  let? c := dict_get agent collections in
  if match Collection.last_indexed c with
     | None => true
     | Some last => String.ltb last ts
     end
  then
    let? c := dict_get agent collections in
    Some (dict_set agent
            (Collection.mk (Collection.name c) (Collection.chunks c) (Some ts)
                           (Collection.retention c))
            collections)
  else Some collections.

Fixpoint collections_loop (chunks : list DocumentChunk.t)
    (collections : Dict Collection.t) : option (Dict Collection.t) :=
  match chunks with
  | [] => Some collections
  | chunk :: rest =>
      let? collections := collections_step collections chunk in
      collections_loop rest collections
  end.

Definition list_collections (w : World) : option (list Collection.t) :=
  let? collections := collections_loop (values (indexed_chunks w)) [] in
  Some (values collections).

(** ** The entity graph *)

(** [properties] is a [Dict[str, Any]]; [Any] is left open. *)
Module GraphNode.
Record t (Any : Type) : Type := mk
  { node_id : string;
    label : string;
    name : string;
    properties : Dict Any;
    agent_id : string;
    timestamp : Z }.
Arguments mk {Any}.
Arguments node_id {Any}.
Arguments label {Any}.
Arguments name {Any}.
Arguments properties {Any}.
Arguments agent_id {Any}.
Arguments timestamp {Any}.
End GraphNode.

Module GraphRelation.
Record t (Any : Type) : Type := mk
  { source_id : string;
    target_id : string;
    relation_type : string;
    properties : Dict Any;
    timestamp : Z }.
Arguments mk {Any}.
End GraphRelation.

(** The module-level [graph_nodes] and [graph_relations]. *)
Record Graph (Any : Type) : Type := mkGraph
  { graph_nodes : Dict (GraphNode.t Any);
    graph_relations : list (GraphRelation.t Any) }.
Arguments mkGraph {Any}.
Arguments graph_nodes {Any}.
Arguments graph_relations {Any}.

Definition empty_graph {Any} : Graph Any := mkGraph [] [].

(** [EntityExtractor.extract]: the placeholder returns two empty lists. *)
Definition extract {Any} (text agent_id : string)
  : list (GraphNode.t Any) * list (GraphRelation.t Any) :=
  ([], []).

(** The background task scheduled by [index_content]. *)
Definition extract_and_store_entities {Any} (task : Task) (g : Graph Any)
  : Graph Any :=
  let '(content, agent_id, source_id) := task in
  let '(nodes, relations) := extract content agent_id in
  mkGraph
    (fold_left (fun d node => dict_set (GraphNode.node_id node) node d)
               nodes (graph_nodes g))
    (graph_relations g ++ relations).

Module GraphStats.
Record t : Type := mk
  { total_nodes : nat;
    total_relationships : nat;
    nodes_by_label : Dict nat;
    last_updated : option Z }.
End GraphStats.

(** [nodes_by_label[label] = nodes_by_label.get(label, 0) + 1] *)
Definition count_label {Any} (nodes_by_label : Dict nat) (node : GraphNode.t Any)
  : Dict nat :=
  let label := GraphNode.label node in
  dict_set label
    (match dict_get label nodes_by_label with
     | Some n => n
     | None => 0
     end + 1)%nat
    nodes_by_label.

(** [max(...)] of a non-empty sequence of instants; [None] is the
    [ValueError] raised on an empty one. *)
Definition py_max (l : list Z) : option Z :=
  match l with
  | [] => None
  | x :: rest => Some (fold_left (fun best y => if best <? y then y else best) rest x)
  end.

(** [GET /stats/neo4j]; the outer [None] would be the [ValueError]. *)
Definition get_neo4j_stats {Any} (g : Graph Any) : option GraphStats.t :=
  let nodes := values (graph_nodes g) in
  let nodes_by_label := fold_left count_label nodes [] in
  let? last_updated :=
    match graph_nodes g with
    | [] => Some None
    | _ => let? t := py_max (map GraphNode.timestamp nodes) in Some (Some t)
    end in
  Some (GraphStats.mk (List.length (graph_nodes g))
                      (List.length (graph_relations g))
                      nodes_by_label last_updated).

(** ** Grouping *)

(** What the three loops above do: one entry per key, created at the first
    item of the key from [init] and updated with [bump] at every item. *)
Definition group_step {V S} (key : V -> string) (init : V -> S)
    (bump : S -> V -> S) (acc : Dict S) (x : V) : Dict S :=
  dict_set (key x)
    (bump (match dict_get (key x) acc with
           | Some s => s
           | None => init x
           end) x)
    acc.

(** How the entry under [k] evolves along the items. *)
Definition track {V S} (key : V -> string) (init : V -> S)
    (bump : S -> V -> S) (k : string) (o : option S) (x : V) : option S :=
  if String.eqb (key x) k
  then Some (bump (match o with Some s => s | None => init x end) x)
  else o.

(** [if last is None or x > last: last = x] *)
Definition keep_max {T} (ltb : T -> T -> bool) (last : option T) (x : T)
  : option T :=
  match last with
  | None => Some x
  | Some b => if ltb b x then Some x else Some b
  end.

(** The entry of a group, from its items in order. *)
Definition group_state {V S} (init : V -> S) (bump : S -> V -> S)
    (items : list V) : option S :=
  match items with
  | [] => None
  | x :: rest => Some (fold_left bump rest (bump (init x) x))
  end.

(** The distinct elements of a list, in the order of their first
    occurrences. *)
Fixpoint first_occurrences (l : list string) : list string :=
  match l with
  | [] => []
  | x :: rest =>
      x :: filter (fun y => negb (String.eqb x y)) (first_occurrences rest)
  end.

(** The chunks of an agent, in the order of the store. *)
Definition chunks_of (agent_id : string) (w : World) : list DocumentChunk.t :=
  filter (owned_by agent_id) (values (indexed_chunks w)).

Definition agents_of (w : World) : list string :=
  first_occurrences
    (map (fun c => ChunkMetadata.agent_id (DocumentChunk.metadata c))
         (values (indexed_chunks w))).

(** ** The loops above as groupings *)

Definition collection_of (chunk : DocumentChunk.t) : string :=
  "OpenClaw_Agent_" ++ ChunkMetadata.agent_id (DocumentChunk.metadata chunk).

Definition chunk_size_mb (chunk : DocumentChunk.t) : Q :=
  (inject_Z (Z.of_nat (String.length (DocumentChunk.content chunk)))
   / 1024 / 1024)%Q.

Definition weaviate_init (chunk : DocumentChunk.t) : RAGStats.t :=
  RAGStats.mk (collection_of chunk) 0 None 0
    (ChunkMetadata.retention_policy (DocumentChunk.metadata chunk)).

Definition weaviate_bump (s : RAGStats.t) (chunk : DocumentChunk.t) : RAGStats.t :=
  RAGStats.mk (RAGStats.collection_name s) (RAGStats.object_count s + 1)
    (keep_max Z.ltb (RAGStats.last_indexed s)
              (ChunkMetadata.timestamp (DocumentChunk.metadata chunk)))
    (RAGStats.size_mb s + chunk_size_mb chunk)%Q
    (RAGStats.retention_policy s).

Definition collection_init (chunk : DocumentChunk.t) : Collection.t :=
  Collection.mk (collection_of chunk) 0 None
    (ChunkMetadata.retention_policy (DocumentChunk.metadata chunk)).

Definition collection_bump (c : Collection.t) (chunk : DocumentChunk.t)
  : Collection.t :=
  Collection.mk (Collection.name c) (Collection.chunks c + 1)
    (keep_max String.ltb (Collection.last_indexed c)
              (isoformat (ChunkMetadata.timestamp (DocumentChunk.metadata chunk))))
    (Collection.retention c).

Definition agent_of (chunk : DocumentChunk.t) : string :=
  ChunkMetadata.agent_id (DocumentChunk.metadata chunk).

Definition timestamp_of (chunk : DocumentChunk.t) : Z :=
  ChunkMetadata.timestamp (DocumentChunk.metadata chunk).

Definition policy_of (chunk : DocumentChunk.t) : RetentionPolicy :=
  ChunkMetadata.retention_policy (DocumentChunk.metadata chunk).

(* ================================================================== *)
(** * Lists *)
(* ================================================================== *)

Lemma firstn_incl {A} (n : nat) (l : list A) : incl (firstn n l) l.
Proof.
  intros x Hx. rewrite <- (firstn_skipn n l). apply in_or_app. now left.
Qed.

Lemma skipn_incl {A} (n : nat) (l : list A) : incl (skipn n l) l.
Proof.
  intros x Hx. rewrite <- (firstn_skipn n l). apply in_or_app. now right.
Qed.

(* ================================================================== *)
(** * Strings and tokens *)
(* ================================================================== *)

Lemma append_empty_r (s : string) : s ++ EmptyString = s.
Proof. induction s as [|c s IH]; simpl; congruence. Qed.

Lemma append_assoc (a b c : string) : (a ++ b) ++ c = a ++ (b ++ c).
Proof. induction a as [|x a IH]; simpl; congruence. Qed.

Lemma split_from_token (t : string) :
  all_chars (fun c => negb (Py.isspace c)) t = true ->
  forall cur s, Py.split_from cur (t ++ s) = Py.split_from (cur ++ t) s.
Proof.
  induction t as [|c t IH]; simpl; intros Ht cur s.
  - now rewrite append_empty_r.
  - apply andb_prop in Ht as [Hc Ht].
    apply negb_true_iff in Hc. rewrite Hc, (IH Ht), append_assoc.
    reflexivity.
Qed.

Lemma split_from_spaces (sp : string) :
  all_space sp -> forall s, Py.split_from EmptyString (sp ++ s) = Py.split s.
Proof.
  unfold all_space.
  induction sp as [|c sp IH]; simpl; intros Hsp s; [reflexivity|].
  apply andb_prop in Hsp as [Hc Hsp]. rewrite Hc. simpl. now apply IH.
Qed.

Lemma split_from_end (cur rest : string) :
  cur <> EmptyString -> run_ends rest ->
  Py.split_from cur rest = cur :: Py.split rest.
Proof.
  intros Hcur [->|(c & r & -> & Hc)]; unfold Py.split; simpl.
  - destruct cur; [congruence | reflexivity].
  - rewrite Hc. destruct cur; [congruence | reflexivity].
Qed.

(** [str.split()] returns the maximal runs, whatever the layout. *)
Lemma Runs_split (toks : list string) (s : string) :
  Runs toks s -> Py.split s = toks.
Proof.
  induction 1 as [sp Hsp | sp t rest toks Hsp Ht Hrest _ IH].
  - rewrite <- (append_empty_r sp). unfold Py.split at 1.
    now rewrite split_from_spaces.
  - unfold Py.split at 1. rewrite split_from_spaces by assumption.
    unfold Py.split at 1. destruct Ht as [Hne Hns].
    rewrite split_from_token by assumption. simpl.
    rewrite split_from_end by assumption. now rewrite IH.
Qed.

Lemma Runs_space_cons (c : ascii) (toks : list string) (s : string) :
  Py.isspace c = true -> Runs toks s -> Runs toks (String c s).
Proof.
  intros Hc [sp Hsp | sp t rest toks' Hsp Ht Hrest Hr].
  - apply Runs_end. unfold all_space in *. simpl. now rewrite Hc.
  - change (String c (sp ++ t ++ rest)) with (String c sp ++ t ++ rest).
    apply Runs_token; try assumption.
    unfold all_space in *. simpl. now rewrite Hc.
Qed.

Lemma all_space_run_ends (sp : string) : all_space sp -> run_ends sp.
Proof.
  unfold all_space. destruct sp as [|c sp]; simpl; intros H.
  - now left.
  - right. exists c, sp. apply andb_prop in H. tauto.
Qed.

Lemma Runs_char_cons (c : ascii) (toks : list string) (s : string) :
  Py.isspace c = false -> Runs toks s -> exists toks', Runs toks' (String c s).
Proof.
  intros Hc [sp Hsp | sp t rest toks' Hsp Ht Hrest Hr].
  - exists [String c EmptyString].
    change (String c sp) with (EmptyString ++ String c EmptyString ++ sp).
    apply Runs_token.
    + reflexivity.
    + split; [discriminate | simpl; now rewrite Hc].
    + now apply all_space_run_ends.
    + now apply Runs_end.
  - destruct sp as [|c0 sp].
    + exists (String c t :: toks').
      change (String c (EmptyString ++ t ++ rest))
        with (EmptyString ++ String c t ++ rest).
      apply Runs_token; try assumption.
      destruct Ht as [_ Ht]. split; [discriminate | simpl; now rewrite Hc, Ht].
    + exists (String c EmptyString :: t :: toks').
      change (String c (String c0 sp ++ t ++ rest))
        with (EmptyString ++ String c EmptyString ++ (String c0 sp ++ t ++ rest)).
      apply Runs_token.
      * reflexivity.
      * split; [discriminate | simpl; now rewrite Hc].
      * right. exists c0, (sp ++ t ++ rest). split; [reflexivity|].
        unfold all_space in Hsp. simpl in Hsp. apply andb_prop in Hsp. tauto.
      * now apply Runs_token.
Qed.

Lemma Runs_exists (s : string) : exists toks, Runs toks s.
Proof.
  induction s as [|c s [toks IH]].
  - exists []. now apply Runs_end.
  - destruct (Py.isspace c) eqn:Hc.
    + exists toks. now apply Runs_space_cons.
    + now apply (Runs_char_cons c toks).
Qed.

(** The words [chunk_text] works on are the maximal runs of non-whitespace
    characters of the text. *)
Lemma split_Runs (s : string) : Runs (Py.split s) s.
Proof.
  destruct (Runs_exists s) as [toks H].
  now rewrite (Runs_split _ _ H).
Qed.

Lemma Runs_tokens (toks : list string) (s : string) :
  Runs toks s -> Forall token toks.
Proof. induction 1; constructor; assumption. Qed.

(** Tokens joined by single spaces split back into the same tokens. *)
Lemma join_Runs (toks : list string) :
  Forall token toks -> Runs toks (Py.join " " toks).
Proof.
  induction 1 as [|t toks Ht Htoks IH]; [now apply Runs_end|].
  unfold Py.join in *. destruct toks as [|t' toks].
  - simpl. rewrite <- (append_empty_r t) at 2.
    apply (Runs_token EmptyString t EmptyString []);
      [reflexivity | assumption | now left | now apply Runs_end].
  - change (String.concat " " (t :: t' :: toks))
      with (EmptyString ++ t ++ String " " (String.concat " " (t' :: toks))).
    apply Runs_token; [reflexivity | assumption | | ].
    + right. now exists " "%char, (String.concat " " (t' :: toks)).
    + now apply Runs_space_cons.
Qed.

Lemma split_join (toks : list string) :
  Forall token toks -> Py.split (Py.join " " toks) = toks.
Proof. intros H. now apply Runs_split, join_Runs. Qed.

Lemma window_tokens (words : list string) (size start : nat) :
  Forall token words -> Forall token (window words size start).
Proof.
  rewrite !Forall_forall. intros H x Hx. apply H.
  unfold window in Hx. now apply firstn_incl, skipn_incl in Hx.
Qed.

(* ================================================================== *)
(** * chunk_text *)
(* ================================================================== *)

Section ChunkLoop.

Variable words : list string.
Variables chunk_size overlap : Z.

(** With [overlap >= chunk_size] the start index never grows: on a
    non-empty word list the loop has no exit. *)
Lemma chunk_loop_stuck (fuel : nat) :
  chunk_size <= overlap -> words <> [] ->
  forall i chunks, i <= 0 ->
    chunk_loop fuel words chunk_size overlap i chunks = None.
Proof.
  intros Hov Hw. induction fuel as [|fuel IH]; intros i chunks Hi; simpl.
  - reflexivity.
  - assert (Hlt : (i <? Py.len words) = true).
    { apply Z.ltb_lt. unfold Py.len. destruct words; [congruence|].
      simpl List.length. lia. }
    rewrite Hlt. apply IH. lia.
Qed.

Lemma window_count_lt (n step j : nat) :
  (0 < step)%nat -> ((j < window_count n step)%nat <-> (j * step < n)%nat).
Proof.
  intros Hs. unfold window_count. split; intros H.
  - destruct (Nat.lt_ge_cases (j * step) n) as [|Hge]; [assumption|].
    exfalso. apply (Nat.lt_irrefl j). eapply Nat.lt_le_trans; [exact H|].
    apply Nat.lt_succ_r. apply Nat.Div0.div_lt_upper_bound. nia.
  - apply (Nat.lt_le_trans _ (S j)); [lia|].
    apply Nat.div_le_lower_bound; [lia | nia].
Qed.

Lemma slice_window (i : nat) (size : nat) :
  (i < List.length words)%nat ->
  Py.slice words (Z.of_nat i) (Z.of_nat i + Z.of_nat size) = window words size i.
Proof.
  intros Hi. unfold Py.slice, Py.clip, Py.len, window.
  destruct (Z.ltb_spec (Z.of_nat i) 0) as [|_]; [lia|].
  destruct (Z.ltb_spec (Z.of_nat i + Z.of_nat size) 0) as [|_]; [lia|].
  rewrite (Z.min_l (Z.of_nat i)) by lia. rewrite Nat2Z.id.
  destruct (Z.le_ge_cases (Z.of_nat i + Z.of_nat size)
                          (Z.of_nat (List.length words))) as [Hle|Hge].
  - rewrite Z.min_l by lia. f_equal. lia.
  - rewrite Z.min_r by lia.
    rewrite !firstn_all2; [reflexivity | |]; rewrite length_skipn; lia.
Qed.

(** The window size and the step as naturals. *)
Variables size step : nat.
Hypothesis Hsize : chunk_size = Z.of_nat size.
Hypothesis Hstep : chunk_size - overlap = Z.of_nat step.
Hypothesis Hadvance : (0 < step)%nat.

(** From the [j]-th start on, the loop appends the remaining [d] windows
    and stops. *)
Lemma chunk_loop_windows (d : nat) :
  forall j fuel chunks,
    (j + d = window_count (List.length words) step)%nat -> (d < fuel)%nat ->
    chunk_loop fuel words chunk_size overlap (Z.of_nat (j * step)) chunks
    = Some (chunks ++ map (fun k => Py.join " " (window words size (k * step)))
                          (seq j d))%list.
Proof.
  induction d as [|d IH]; intros j fuel chunks Hj Hfuel;
    (destruct fuel as [|fuel]; [lia|]); simpl.
  - assert (Hge : ~ (j * step < List.length words)%nat).
    { rewrite <- window_count_lt by assumption. lia. }
    destruct (Z.ltb_spec (Z.of_nat (j * step)) (Py.len words)) as [Hlt|_].
    + unfold Py.len in Hlt. lia.
    + now rewrite app_nil_r.
  - assert (Hlt : (j * step < List.length words)%nat).
    { rewrite <- window_count_lt by assumption. lia. }
    destruct (Z.ltb_spec (Z.of_nat (j * step)) (Py.len words)) as [_|Hge].
    2:{ unfold Py.len in Hge. lia. }
    replace (Z.of_nat (j * step) + (chunk_size - overlap))
      with (Z.of_nat (S j * step)) by lia.
    replace (Z.of_nat (j * step) + chunk_size)
      with (Z.of_nat (j * step) + Z.of_nat size) by lia.
    rewrite slice_window by assumption.
    rewrite IH by lia. now rewrite <- app_assoc.
Qed.

End ChunkLoop.

(** More fuel does not change a result. *)
Lemma chunk_loop_fuel_mono (fuel : nat) :
  forall words chunk_size overlap i chunks result extra,
    chunk_loop fuel words chunk_size overlap i chunks = Some result ->
    chunk_loop (fuel + extra) words chunk_size overlap i chunks = Some result.
Proof.
  induction fuel as [|fuel IH]; intros words cs ov i chunks result extra H;
    simpl in *; [discriminate|].
  destruct (i <? Py.len words); [now apply IH | assumption].
Qed.

(** The tokens a window keeps after its first [step] are the first tokens
    of the next window. *)
Lemma window_shared (words : list string) (size step p : nat) :
  (step <= size)%nat ->
  skipn step (window words size p)
  = firstn (size - step) (window words size (p + step)).
Proof.
  intros Hle. unfold window.
  rewrite skipn_firstn_comm, skipn_skipn, firstn_firstn.
  f_equal; [lia | f_equal; lia].
Qed.

(** With more fuel than words the loop reaches its exit. *)
Lemma chunk_text_enough_fuel (text : string) (chunk_size overlap : Z) (fuel : nat) :
  0 <= overlap < chunk_size ->
  (List.length (Py.split text) < fuel)%nat ->
  chunk_text fuel text chunk_size overlap
  = Some (map (fun k => Py.join " "
                 (window (Py.split text) (Z.to_nat chunk_size)
                         (k * (Z.to_nat chunk_size - Z.to_nat overlap))))
              (seq 0 (window_count (List.length (Py.split text))
                        (Z.to_nat chunk_size - Z.to_nat overlap)))).
Proof.
  intros Hp Hfuel. unfold chunk_text.
  set (words := Py.split text) in *.
  set (size := Z.to_nat chunk_size).
  set (step := (Z.to_nat chunk_size - Z.to_nat overlap)%nat).
  set (count := window_count (List.length words) step).
  assert (Hstep : (0 < step)%nat) by (unfold step; lia).
  pose proof (chunk_loop_windows words chunk_size overlap size step
                ltac:(unfold size; lia) ltac:(unfold step; lia) Hstep
                count 0 fuel []) as H.
  simpl in H. apply H; [reflexivity|].
  apply Nat.le_lt_trans with (List.length words); [|assumption].
  destruct count as [|c] eqn:Hc; [lia|].
  assert (Hlt : (c < window_count (List.length words) step)%nat)
    by (fold count; lia).
  apply window_count_lt in Hlt; [nia | assumption].
Qed.

Lemma chunk_text_default_total (text : string) :
  exists chunks, chunk_text_default text = Some chunks.
Proof.
  unfold chunk_text_default. eexists.
  apply chunk_text_enough_fuel; lia.
Qed.

(** C4 (amended).  [chunk_text] validates nothing and raises nothing.  With
    [overlap >= chunk_size], a text without words is chunked into the empty
    list after the first test of the loop, and on a text with at least one
    word the loop has no exit: no amount of fuel produces a result. *)
Theorem chunk_text_no_validation (text : string) (chunk_size overlap : Z) :
  chunk_size <= overlap ->
  (Py.split text = [] ->
   forall fuel, chunk_text (S fuel) text chunk_size overlap = Some [])
  /\ (Py.split text <> [] ->
      forall fuel, chunk_text fuel text chunk_size overlap = None).
Proof.
  intros Hov. unfold chunk_text. split.
  - intros -> fuel. reflexivity.
  - intros Hw fuel. apply chunk_loop_stuck; [assumption | assumption | lia].
Qed.

Lemma chunk_text_no_validation_witness :
  chunk_text 1 "  " 5 5 = Some [] /\ chunk_text 1000 "a b" 5 7 = None.
Proof.
  split.
  - exact (proj1 (chunk_text_no_validation "  " 5 5 ltac:(lia)) eq_refl 0%nat).
  - exact (proj2 (chunk_text_no_validation "a b" 5 7 ltac:(lia))
                 ltac:(discriminate) 1000%nat).
Defined.

(** C4 as stated fails: with [overlap = chunk_size] the call on a text
    without words returns a result, the empty list, and no error. *)
Lemma chunk_text_equal_overlap_returns :
  chunk_text 1 "" 50 50 = Some [] /\ chunk_text 1 "   " 500 600 = Some [].
Proof. split; reflexivity. Qed.

(** C9 (amended).  For [0 <= overlap < chunk_size] and enough fuel,
    [chunk_text] returns, for the maximal non-whitespace runs [words] of the
    text, one window per start [0, step, 2*step, ...] below [len(words)],
    [step = chunk_size - overlap]; the window starting at [p] is the tokens
    [p .. min (p + chunk_size, n) - 1] joined by single spaces.  Every token
    lies in some window; a window is shorter than [chunk_size] exactly when
    fewer than [chunk_size] tokens remain from its start, which can hold for
    several trailing windows; the tokens a window keeps beyond its first
    [step] are the first tokens of the next window, [overlap] of them
    unless the text ends first.  Each returned string splits back into
    the tokens of its window. *)
Theorem chunk_text_windows (text : string) (chunk_size overlap : Z) (fuel : nat) :
  0 <= overlap < chunk_size ->
  (List.length (Py.split text) < fuel)%nat ->
  let words := Py.split text in
  let n := List.length words in
  let size := Z.to_nat chunk_size in
  let shared := Z.to_nat overlap in
  let step := (size - shared)%nat in
  let count := window_count n step in
  Runs words text
  /\ chunk_text fuel text chunk_size overlap
     = Some (map (fun k => Py.join " " (window words size (k * step)))
                 (seq 0 count))
  /\ (forall p, (p < n)%nat ->
        exists k, (k < count)%nat /\ (k * step <= p < k * step + size)%nat)
  /\ (forall k, (k < count)%nat ->
        (k * step < n)%nat
        /\ List.length (window words size (k * step))
           = Nat.min size (n - k * step))
  /\ (forall k, (S k < count)%nat ->
        skipn step (window words size (k * step))
        = firstn shared (window words size (S k * step))
        /\ List.length (skipn step (window words size (k * step)))
           = Nat.min shared (n - S k * step))
  /\ (forall k, Py.split (Py.join " " (window words size (k * step)))
                = window words size (k * step)).
Proof.
  intros Hp Hfuel words n size shared step count.
  assert (Hstep : (0 < step)%nat) by (unfold step, size, shared; lia).
  split; [apply split_Runs|]. split; [|split; [|split; [|split]]].
  5:{ intros k. apply split_join, window_tokens.
      apply (Runs_tokens _ text), split_Runs. }
  - now apply chunk_text_enough_fuel.
  - intros p Hpn. exists (p / step)%nat.
    pose proof (Nat.Div0.mul_div_le p step).
    pose proof (Nat.mul_succ_div_gt p step ltac:(lia)).
    split.
    + apply window_count_lt; [assumption | nia].
    + unfold step in *. nia.
  - intros k Hk. split.
    + now apply window_count_lt in Hk.
    + unfold window. now rewrite length_firstn, length_skipn.
  - intros k Hk.
    pose proof (window_shared words size step (k * step)%nat
                  ltac:(unfold step; lia)) as Hs.
    replace (size - step)%nat with shared in Hs
      by (unfold step, size, shared; lia).
    replace (k * step + step)%nat with (S k * step)%nat in Hs by lia.
    split; [exact Hs|].
    rewrite Hs. unfold window. rewrite !length_firstn, length_skipn. fold n.
    apply window_count_lt in Hk; [|assumption].
    unfold size, shared. lia.
Qed.

Lemma chunk_text_windows_witness :
  chunk_text 10 "a b  c d e f" 4 3
  = Some ["a b c d"; "b c d e"; "c d e f"; "d e f"; "e f"; "f"].
Proof.
  exact (proj1 (proj2 (chunk_text_windows "a b  c d e f" 4 3 10
                         ltac:(lia) ltac:(vm_compute; lia)))).
Defined.

(** C9 as stated fails.  With window 4 and overlap 3 on six tokens the
    fourth and fifth windows are short without being final, and they share
    two tokens, not three; with overlap -1 (below the window size 2) the
    adjacent windows share nothing and the token [c] is in no window. *)
Lemma chunk_text_trailing_windows :
  chunk_text 10 "a b c d e f" 4 3
  = Some ["a b c d"; "b c d e"; "c d e f"; "d e f"; "e f"; "f"]
  /\ map (fun c => List.length (Py.split c))
         ["a b c d"; "b c d e"; "c d e f"; "d e f"; "e f"; "f"]
     = [4; 4; 4; 3; 2; 1]%nat
  /\ chunk_text 10 "a b c d e" 2 (-1) = Some ["a b"; "d e"].
Proof. repeat split; reflexivity. Qed.

(* ================================================================== *)
(** * Dictionaries *)
(* ================================================================== *)

Section Dicts.

Context {V : Type}.

Lemma dict_set_keys (k : string) (v : V) (d : Dict V) :
  keys (dict_set k v d)
  = if existsb (String.eqb k) (keys d) then keys d else (keys d ++ [k])%list.
Proof.
  induction d as [|[k' v'] d IH]; simpl; [reflexivity|].
  destruct (String.eqb_spec k k') as [->|Hne]; simpl; [reflexivity|].
  unfold keys in *. rewrite IH.
  now destruct (existsb (String.eqb k) (map fst d)).
Qed.

Lemma existsb_eqb_In (k : string) (l : list string) :
  existsb (String.eqb k) l = true <-> In k l.
Proof.
  rewrite existsb_exists. split.
  - intros (x & Hx & He). apply String.eqb_eq in He. now subst.
  - intros H. exists k. split; [assumption | apply String.eqb_refl].
Qed.

Lemma dict_set_wf (k : string) (v : V) (d : Dict V) :
  dict_wf d -> dict_wf (dict_set k v d).
Proof.
  unfold dict_wf. rewrite dict_set_keys. intros Hwf.
  destruct (existsb (String.eqb k) (keys d)) eqn:E; [assumption|].
  apply NoDup_app; [assumption | repeat constructor; intros [] | ].
  intros x Hx [<-|[]]. apply existsb_eqb_In in Hx. congruence.
Qed.

Lemma dict_del_head (k : string) (v : V) (d : Dict V) :
  dict_del k ((k, v) :: d) = Some d.
Proof. simpl. now rewrite String.eqb_refl. Qed.

Lemma dict_del_other (k k' : string) (v : V) (d : Dict V) :
  k <> k' ->
  dict_del k ((k', v) :: d)
  = option_map (cons (k', v)) (dict_del k d).
Proof.
  intros Hne. simpl. destruct (String.eqb_spec k k'); [congruence|].
  now destruct (dict_del k d).
Qed.

End Dicts.

(* ================================================================== *)
(** * Deduplication and index_content *)
(* ================================================================== *)

Lemma is_duplicate_In (h : string) (hashes : HashSet) :
  is_duplicate h hashes = true <-> In h hashes.
Proof. apply existsb_eqb_In. Qed.

Lemma mark_indexed_In (h x : string) (hashes : HashSet) :
  In x (mark_indexed h hashes) <-> x = h \/ In x hashes.
Proof.
  unfold mark_indexed. destruct (is_duplicate h hashes) eqn:E; simpl.
  - apply is_duplicate_In in E. split; [tauto | intros [->|]; assumption].
  - split; intros [|]; auto.
Qed.

(** Chunks whose hashes are all marked are all skipped: nothing is stored,
    nothing is marked. *)
Lemma index_loop_all_duplicates (chunks : list DocumentChunk.t) :
  forall store hashes indexed skipped,
    Forall (fun c => In (hash_of c) hashes) chunks ->
    index_loop chunks store hashes indexed skipped
    = (store, hashes, indexed, (skipped + List.length chunks)%nat).
Proof.
  induction chunks as [|c chunks IH]; intros store hashes indexed skipped H;
    simpl.
  - now rewrite Nat.add_0_r.
  - inversion H as [|? ? Hc Hrest]; subst.
    apply is_duplicate_In in Hc. unfold hash_of in Hc. rewrite Hc.
    rewrite IH by assumption. f_equal. lia.
Qed.

(** After the loop every hash of the request is marked, the marks made
    before are kept, the two counters add up to the number of chunks, and a
    well-formed store stays well-formed. *)
Lemma index_loop_marks (chunks : list DocumentChunk.t) :
  forall store hashes indexed skipped store' hashes' indexed' skipped',
    index_loop chunks store hashes indexed skipped
    = (store', hashes', indexed', skipped') ->
    Forall (fun c => In (hash_of c) hashes') chunks
    /\ incl hashes hashes'
    /\ (indexed' + skipped' = indexed + skipped + List.length chunks)%nat
    /\ (dict_wf store -> dict_wf store').
Proof.
  induction chunks as [|c chunks IH];
    intros store hashes indexed skipped store' hashes' indexed' skipped' H;
    simpl in H.
  - inversion H; subst. repeat split; auto using incl_refl; simpl; lia.
  - destruct (is_duplicate _ hashes) eqn:E.
    + apply IH in H as (Hall & Hincl & Hsum & Hwf).
      repeat split; auto; [|simpl; lia].
      constructor; [|assumption]. apply Hincl. now apply is_duplicate_In.
    + apply IH in H as (Hall & Hincl & Hsum & Hwf).
      repeat split.
      * constructor; [|assumption]. apply Hincl, mark_indexed_In. now left.
      * intros x Hx. apply Hincl, mark_indexed_In. now right.
      * simpl. lia.
      * intros Hs. now apply Hwf, dict_set_wf.
Qed.

Lemma prepare_loop_hashes (clock : Clock) (chunks : list string) :
  forall tick i agent_id source_type source_id policy,
    map hash_of (prepare_loop clock tick i chunks agent_id source_type
                              source_id policy)
    = map compute_hash chunks.
Proof.
  induction chunks as [|c chunks IH]; intros; simpl; [reflexivity|].
  now rewrite IH.
Qed.

Lemma Forall_hash_of (P : string -> Prop) (chunks : list DocumentChunk.t) :
  Forall (fun c => P (hash_of c)) chunks <-> Forall P (map hash_of chunks).
Proof. now rewrite Forall_map. Qed.

(** A request that passes the gate is chunked, and all its hashes are
    marked when [index_content] returns. *)
Lemma index_content_marks (clock : Clock) (request : IndexRequest.t) (w : World) :
  should_index_to_rag (IndexRequest.content request)
                      (IndexRequest.source_type request) = true ->
  exists chunks w1 indexed skipped,
    chunk_text_default (IndexRequest.content request) = Some chunks
    /\ index_content clock request w
       = Some (w1, Success indexed skipped (List.length chunks),
               scheduled_tasks request)
    /\ Forall (fun c => In (compute_hash c) (indexed_hashes w1)) chunks
    /\ incl (indexed_hashes w) (indexed_hashes w1)
    /\ (indexed + skipped = List.length chunks)%nat
    /\ (dict_wf (indexed_chunks w) -> dict_wf (indexed_chunks w1)).
Proof.
  intros Hgate.
  destruct (chunk_text_default_total (IndexRequest.content request))
    as [chunks Hchunks].
  unfold index_content, prepare_chunks. rewrite Hgate, Hchunks. simpl.
  set (prepared := prepare_loop _ _ _ _ _ _ _ _).
  destruct (index_loop prepared (indexed_chunks w) (indexed_hashes w) 0 0)
    as [[[store hashes] indexed] skipped] eqn:Hloop.
  apply index_loop_marks in Hloop as (Hall & Hincl & Hsum & Hwf).
  assert (Hlen : List.length prepared = List.length chunks).
  { rewrite <- (length_map hash_of), <- (length_map compute_hash chunks).
    unfold prepared. now rewrite prepare_loop_hashes. }
  exists chunks, (mkWorld store hashes (retention_settings w)), indexed, skipped.
  rewrite Hlen. repeat split; try assumption; simpl; [|lia].
  apply (Forall_hash_of (fun h => In h hashes)) in Hall.
  unfold prepared in Hall.
  rewrite prepare_loop_hashes in Hall. now apply Forall_map in Hall.
Qed.

(** A request whose hashes are all marked already changes nothing: every
    chunk is skipped. *)
Lemma index_content_all_duplicates (clock : Clock) (request : IndexRequest.t)
    (w : World) (chunks : list string) :
  should_index_to_rag (IndexRequest.content request)
                      (IndexRequest.source_type request) = true ->
  chunk_text_default (IndexRequest.content request) = Some chunks ->
  Forall (fun c => In (compute_hash c) (indexed_hashes w)) chunks ->
  index_content clock request w
  = Some (w, Success 0 (List.length chunks) (List.length chunks),
          scheduled_tasks request).
Proof.
  intros Hgate Hchunks Hall.
  unfold index_content, prepare_chunks. rewrite Hgate, Hchunks. simpl.
  set (prepared := prepare_loop _ _ _ _ _ _ _ _).
  assert (Hlen : List.length prepared = List.length chunks).
  { rewrite <- (length_map hash_of), <- (length_map compute_hash chunks).
    unfold prepared. now rewrite prepare_loop_hashes. }
  rewrite index_loop_all_duplicates.
  - rewrite Hlen. simpl. now destruct w.
  - apply (Forall_hash_of (fun h => In h (indexed_hashes w))).
    unfold prepared. rewrite prepare_loop_hashes.
    now apply Forall_map.
Qed.

(* ================================================================== *)
(** * cleanup_expired *)
(* ================================================================== *)

Lemma collect_expired_spec (now : Z) (items : Dict DocumentChunk.t) :
  forall to_remove,
    collect_expired now items to_remove
    = (to_remove ++ keys (filter (expired_item now) items))%list.
Proof.
  induction items as [|[k c] items IH]; intros acc; simpl.
  - now rewrite app_nil_r.
  - unfold expired_item at 1. simpl. destruct (is_expired now c); rewrite IH.
    + now rewrite <- app_assoc.
    + reflexivity.
Qed.

Lemma remove_loop_cons (k : string) (c : DocumentChunk.t) (ks : list string) :
  ~ In k ks ->
  forall store removed,
    remove_loop ks ((k, c) :: store) removed
    = option_map (fun r => ((k, c) :: fst r, snd r))
                 (remove_loop ks store removed).
Proof.
  induction ks as [|k' ks IH]; intros Hk store removed.
  - reflexivity.
  - cbn [remove_loop]. rewrite dict_del_other by (intros ->; apply Hk; now left).
    destruct (dict_del k' store) as [store'|]; simpl; [|reflexivity].
    apply IH. intros H. apply Hk. now right.
Qed.

Lemma In_keys_filter {V} (f : string * V -> bool) (k : string) (d : Dict V) :
  In k (keys (filter f d)) -> In k (keys d).
Proof.
  unfold keys. rewrite !in_map_iff. intros (x & Hx & Hin).
  apply filter_In in Hin. exists x. tauto.
Qed.

Lemma remove_loop_spec (now : Z) (store : Dict DocumentChunk.t) :
  dict_wf store ->
  forall removed,
    remove_loop (keys (filter (expired_item now) store)) store removed
    = Some (filter (fun kc => negb (expired_item now kc)) store,
            (removed + List.length (filter (expired_item now) store))%nat).
Proof.
  unfold dict_wf.
  induction store as [|[k c] store IH]; intros Hwf removed; simpl.
  - now rewrite Nat.add_0_r.
  - inversion Hwf as [|? ? Hk Hrest]; subst.
    destruct (expired_item now (k, c)) eqn:E; simpl.
    + rewrite String.eqb_refl, IH by assumption. do 2 f_equal. lia.
    + rewrite remove_loop_cons.
      * now rewrite IH.
      * intros Hin. apply Hk. eapply In_keys_filter, Hin.
Qed.

(** On a well-formed store the sweep keeps, in order, the items that are
    not expired at [now], and counts the others. *)
Lemma cleanup_expired_filter (now : Z) (w : World) :
  dict_wf (indexed_chunks w) ->
  cleanup_expired now w
  = Some (mkWorld (filter (fun kc => negb (expired_item now kc)) (indexed_chunks w))
                  (indexed_hashes w) (retention_settings w),
          List.length (filter (expired_item now) (indexed_chunks w))).
Proof.
  intros Hwf. unfold cleanup_expired.
  rewrite collect_expired_spec. simpl.
  now rewrite remove_loop_spec.
Qed.

Lemma is_expired_iff (now : Z) (c : DocumentChunk.t) :
  is_expired now c = true
  <-> exists e, ChunkMetadata.expires_at (DocumentChunk.metadata c) = Some e
                /\ e < now.
Proof.
  unfold is_expired.
  destruct (ChunkMetadata.expires_at (DocumentChunk.metadata c)) as [e|].
  - rewrite Z.ltb_lt. split.
    + intros H. now exists e.
    + intros (e' & [= <-] & H). exact H.
  - split; [discriminate | intros (e & [=] & _)].
Qed.

(** C3 (amended).  On a well-formed store, [cleanup_expired] at [now]
    removes exactly the chunks whose [expires_at] is non-null and strictly
    less than [now], keeps every other chunk in place (a chunk expiring at
    [now] exactly stays), leaves the rest of the state alone and returns
    the number of chunks removed. *)
Theorem cleanup_expired_removes_strictly_expired (now : Z) (w : World) :
  dict_wf (indexed_chunks w) ->
  exists w',
    cleanup_expired now w
    = Some (w', List.length
                  (filter (fun kc => is_expired now (snd kc)) (indexed_chunks w)))
    /\ indexed_chunks w'
       = filter (fun kc => negb (is_expired now (snd kc))) (indexed_chunks w)
    /\ indexed_hashes w' = indexed_hashes w
    /\ retention_settings w' = retention_settings w
    /\ (forall c, is_expired now c = true
                  <-> exists e,
                      ChunkMetadata.expires_at (DocumentChunk.metadata c) = Some e
                      /\ e < now).
Proof.
  intros Hwf. eexists. split; [now apply cleanup_expired_filter|].
  repeat split; try reflexivity; apply is_expired_iff.
Qed.

Lemma cleanup_expired_removes_strictly_expired_witness :
  exists w',
    cleanup_expired (hello_expiry + 1) hello_world = Some (w', 1%nat)
    /\ indexed_chunks w' = [].
Proof.
  destruct (cleanup_expired_removes_strictly_expired (hello_expiry + 1)
              hello_world)
    as (w' & Hrun & Hstore & _).
  - vm_compute. repeat constructor. intros [].
  - exists w'. split; [exact Hrun | exact Hstore].
Defined.

(** C3 as stated fails at the boundary: the chunk of [hello_world] expires
    at [hello_expiry], and the sweep at [now = hello_expiry] removes
    nothing. *)
Lemma cleanup_keeps_chunk_expiring_now :
  map (fun kc => ChunkMetadata.expires_at (DocumentChunk.metadata (snd kc)))
      (indexed_chunks hello_world) = [Some hello_expiry]
  /\ cleanup_expired hello_expiry hello_world = Some (hello_world, 0%nat).
Proof. split; vm_compute; reflexivity. Qed.

(* ================================================================== *)
(** * The inclusion gate and re-ingestion *)
(* ================================================================== *)

Lemma should_index_to_rag_iff (content source_type : string) :
  should_index_to_rag content source_type = true
  <-> source_type = "document" \/ source_type = "conversation_complete"
      \/ (source_type <> "system" /\ (100 < String.length content)%nat).
Proof.
  unfold should_index_to_rag. simpl.
  destruct (String.eqb_spec source_type "document") as [->|Hd]; simpl.
  { split; auto. }
  destruct (String.eqb_spec source_type "conversation_complete") as [->|Hc];
    simpl.
  { split; auto. }
  destruct (String.eqb_spec source_type "system") as [->|Hs].
  { split; [discriminate | intros [|[|[]]]; congruence]. }
  destruct (Nat.ltb_spec 100 (String.length content)) as [Hl|Hl].
  - split; auto.
  - split; [discriminate | intros [|[|[]]]; try congruence; lia].
Qed.

(** C7.  The gate accepts exactly the documents, the completed
    conversations and, for any source type but [system], the contents
    longer than 100 characters.  A rejected request is answered
    [{status: skipped, reason: content_type_excluded}], changes no store and
    schedules nothing; an accepted one is answered with the three counts. *)
Theorem inclusion_gate (clock : Clock) (request : IndexRequest.t) (w : World) :
  let content := IndexRequest.content request in
  let source_type := IndexRequest.source_type request in
  (should_index_to_rag content source_type = true
   <-> source_type = "document" \/ source_type = "conversation_complete"
       \/ (source_type <> "system" /\ (100 < String.length content)%nat))
  /\ (forall text, should_index_to_rag text "system" = false)
  /\ (should_index_to_rag content source_type = false ->
      index_content clock request w
      = Some (w, Skipped "content_type_excluded", []))
  /\ (should_index_to_rag content source_type = true ->
      exists w' indexed skipped total,
        index_content clock request w
        = Some (w', Success indexed skipped total, scheduled_tasks request)).
Proof.
  intros content source_type. split; [apply should_index_to_rag_iff|].
  split; [reflexivity|]. split.
  - intros H. unfold index_content. fold content source_type.
    now rewrite H.
  - intros H.
    destruct (index_content_marks clock request w H)
      as (chunks & w1 & i & s & _ & Hrun & _).
    now exists w1, i, s, (List.length chunks).
Qed.

(** C8.  A request that passes the gate, sent twice in a row, is answered
    the second time with [indexed = 0] and [skipped = total_chunks], and
    the second call leaves the state as the first one left it. *)
Theorem reingest_is_all_skipped (clock1 clock2 : Clock)
    (request : IndexRequest.t) (w : World) :
  should_index_to_rag (IndexRequest.content request)
                      (IndexRequest.source_type request) = true ->
  exists w1 indexed skipped total,
    index_content clock1 request w
    = Some (w1, Success indexed skipped total, scheduled_tasks request)
    /\ index_content clock2 request w1
       = Some (w1, Success 0 total total, scheduled_tasks request).
Proof.
  intros Hgate.
  destruct (index_content_marks clock1 request w Hgate)
    as (chunks & w1 & i & s & Hchunks & Hrun & Hall & _).
  exists w1, i, s, (List.length chunks). split; [exact Hrun|].
  now apply index_content_all_duplicates.
Qed.

Lemma reingest_is_all_skipped_witness :
  exists w1 indexed skipped total,
    index_content demo_clock hello_request empty_world
    = Some (w1, Success indexed skipped total, scheduled_tasks hello_request)
    /\ index_content (fun _ => 5000) hello_request w1
       = Some (w1, Success 0 total total, scheduled_tasks hello_request).
Proof.
  exact (reingest_is_all_skipped demo_clock (fun _ => 5000) hello_request
           empty_world eq_refl).
Defined.

(** The sweep leaves the marks of the chunks it removes: content that was
    ingested, then swept at any instant, and is ingested again is reported
    as duplicates only ([indexed = 0], [skipped = total_chunks]), and the
    chunks the sweep removed are not stored again. *)
Theorem reingest_after_cleanup_is_skipped (clock1 clock2 : Clock) (now : Z)
    (request : IndexRequest.t) (w : World) :
  dict_wf (indexed_chunks w) ->
  should_index_to_rag (IndexRequest.content request)
                      (IndexRequest.source_type request) = true ->
  exists w1 indexed skipped total w2 removed,
    index_content clock1 request w
    = Some (w1, Success indexed skipped total, scheduled_tasks request)
    /\ cleanup_expired now w1 = Some (w2, removed)
    /\ indexed_chunks w2
       = filter (fun kc => negb (is_expired now (snd kc))) (indexed_chunks w1)
    /\ index_content clock2 request w2
       = Some (w2, Success 0 total total, scheduled_tasks request).
Proof.
  intros Hwf Hgate.
  destruct (index_content_marks clock1 request w Hgate)
    as (chunks & w1 & i & s & Hchunks & Hrun & Hall & _ & _ & Hwf1).
  pose proof (cleanup_expired_filter now w1 (Hwf1 Hwf)) as Hsweep.
  eexists w1, i, s, (List.length chunks), _, _.
  split; [exact Hrun|]. split; [exact Hsweep|]. split; [reflexivity|].
  now apply index_content_all_duplicates.
Qed.

Lemma reingest_after_cleanup_is_skipped_witness :
  exists w1 indexed skipped total w2 removed,
    index_content demo_clock hello_request empty_world
    = Some (w1, Success indexed skipped total, scheduled_tasks hello_request)
    /\ cleanup_expired (hello_expiry + 1) w1 = Some (w2, removed)
    /\ indexed_chunks w2
       = filter (fun kc => negb (is_expired (hello_expiry + 1) (snd kc)))
                (indexed_chunks w1)
    /\ index_content demo_clock hello_request w2
       = Some (w2, Success 0 total total, scheduled_tasks hello_request).
Proof.
  exact (reingest_after_cleanup_is_skipped demo_clock demo_clock
           (hello_expiry + 1) hello_request empty_world
           (NoDup_nil string) eq_refl).
Defined.

(** C5.  [is_duplicate] is to tell whether content is already indexed, but
    after a sweep it also answers yes for content that is stored nowhere:
    the one chunk of [hello_request] is indexed, the sweep one microsecond
    after its expiry removes it and empties the store, and the same
    request sent again is skipped as a duplicate; the store stays empty. *)
Lemma reingest_after_expiry_is_duplicate :
  index_content demo_clock hello_request empty_world
  = Some (hello_world, Success 1 0 1, scheduled_tasks hello_request)
  /\ cleanup_expired (hello_expiry + 1) hello_world
     = Some (mkWorld [] (indexed_hashes hello_world) [], 1%nat)
  /\ index_content demo_clock hello_request
                   (mkWorld [] (indexed_hashes hello_world) [])
     = Some (mkWorld [] (indexed_hashes hello_world) [],
             Success 0 1 1, scheduled_tasks hello_request).
Proof. repeat split; vm_compute; reflexivity. Qed.

(** The underscore-joined identity does not separate its parts. *)
Lemma make_chunk_id_not_injective (a b c : string) (i : nat) (h : string) :
  make_chunk_id (a ++ "_" ++ b) c i h = make_chunk_id a (b ++ "_" ++ c) i h.
Proof. unfold make_chunk_id. now rewrite !append_assoc. Qed.

(** C10 (amended).  [make_chunk_id] joins its parts with underscores and is
    not injective: agent [a] with source [b_c] and agent [a_b] with source
    [c] get the same identity for the same ordinal and hash.  Indexing the
    second after the first overwrites nothing, though: with identical text
    the content hashes are marked already, so every chunk of the second
    request is skipped and the state stays as the first request left it. *)
Theorem chunk_id_collision_is_deduplicated (clock1 clock2 : Clock)
    (request1 request2 : IndexRequest.t) (w : World) :
  IndexRequest.content request1 = IndexRequest.content request2 ->
  should_index_to_rag (IndexRequest.content request1)
                      (IndexRequest.source_type request1) = true ->
  should_index_to_rag (IndexRequest.content request2)
                      (IndexRequest.source_type request2) = true ->
  (forall i h, make_chunk_id "a" "b_c" i h = make_chunk_id "a_b" "c" i h)
  /\ exists w1 indexed skipped total,
      index_content clock1 request1 w
      = Some (w1, Success indexed skipped total, scheduled_tasks request1)
      /\ index_content clock2 request2 w1
         = Some (w1, Success 0 total total, scheduled_tasks request2).
Proof.
  intros Hsame Hgate1 Hgate2. split.
  - intros i h. exact (make_chunk_id_not_injective "a" "b" "c" i h).
  - destruct (index_content_marks clock1 request1 w Hgate1)
      as (chunks & w1 & i & s & Hchunks & Hrun & Hall & _).
    exists w1, i, s, (List.length chunks). split; [exact Hrun|].
    apply index_content_all_duplicates; try assumption.
    now rewrite <- Hsame.
Qed.

Lemma chunk_id_collision_is_deduplicated_witness :
  (forall i h, make_chunk_id "a" "b_c" i h = make_chunk_id "a_b" "c" i h)
  /\ exists w1 indexed skipped total,
      index_content demo_clock hello_request empty_world
      = Some (w1, Success indexed skipped total, scheduled_tasks hello_request)
      /\ index_content demo_clock hello_request_other w1
         = Some (w1, Success 0 total total, scheduled_tasks hello_request_other).
Proof.
  exact (chunk_id_collision_is_deduplicated demo_clock demo_clock
           hello_request hello_request_other empty_world
           eq_refl eq_refl eq_refl).
Defined.

(** C10 as stated fails in its consequence: the two requests collide on
    the identity [a_b_c_0_b94d27b9934d3e08], yet the second one is skipped
    and the stored chunk is still the one of agent [a]. *)
Lemma chunk_id_collision_does_not_overwrite :
  make_chunk_id "a" "b_c" 0 (compute_hash "hello world")
  = "a_b_c_0_b94d27b9934d3e08"
  /\ make_chunk_id "a_b" "c" 0 (compute_hash "hello world")
     = "a_b_c_0_b94d27b9934d3e08"
  /\ map (fun kc => (fst kc,
                     ChunkMetadata.agent_id (DocumentChunk.metadata (snd kc)),
                     ChunkMetadata.source_id (DocumentChunk.metadata (snd kc))))
         (indexed_chunks hello_world)
     = [("a_b_c_0_b94d27b9934d3e08", "a", "b_c")]
  /\ index_content demo_clock hello_request_other hello_world
     = Some (hello_world, Success 0 1 1, scheduled_tasks hello_request_other).
Proof. repeat split; vm_compute; reflexivity. Qed.

(* ================================================================== *)
(** * set_retention_policy *)
(* ================================================================== *)

Lemma retargeted_widen clock agent_id policy (lo hi lo' hi' : nat) old new :
  (lo' <= lo)%nat -> (hi <= hi')%nat ->
  retargeted clock agent_id policy lo hi old new ->
  retargeted clock agent_id policy lo' hi' old new.
Proof.
  intros Hlo Hhi [Hk Hc]. split; [assumption|].
  destruct (owned_by agent_id (snd old)); [|assumption].
  destruct Hc as (t & Ht & Hc). exists t. split; [lia | assumption].
Qed.

Lemma expiry_reads_le (policy : RetentionPolicy) : (expiry_reads policy <= 1)%nat.
Proof. destruct policy; unfold expiry_reads; simpl; lia. Qed.

Lemma retention_loop_spec (clock : Clock) (agent_id : string)
    (policy : RetentionPolicy) (items : Dict DocumentChunk.t) :
  forall tick updated,
    snd (retention_loop clock tick agent_id policy items updated)
    = (updated + List.length (owned_items agent_id items))%nat
    /\ Forall2 (retargeted clock agent_id policy tick
                  (tick + List.length (owned_items agent_id items)))
               items
               (fst (retention_loop clock tick agent_id policy items updated)).
Proof.
  induction items as [|[k c] items IH]; intros tick updated.
  - simpl. split; [lia | constructor].
  - cbn [retention_loop].
    change (String.eqb (ChunkMetadata.agent_id (DocumentChunk.metadata c))
                       agent_id) with (owned_by agent_id c).
    assert (Hlen : List.length (owned_items agent_id ((k, c) :: items))
                   = ((if owned_by agent_id c then 1 else 0)
                      + List.length (owned_items agent_id items))%nat).
    { unfold owned_items. simpl. now destruct (owned_by agent_id c). }
    rewrite Hlen. clear Hlen.
    pose proof (expiry_reads_le policy) as Hreads.
    destruct (owned_by agent_id c) eqn:Ho.
    + specialize (IH (tick + expiry_reads policy)%nat (S updated)).
      destruct (retention_loop clock (tick + expiry_reads policy) agent_id
                               policy items (S updated)) as [rest n].
      cbn [fst snd] in *. destruct IH as [Hn Hrest]. split; [lia|].
      constructor.
      * split; [reflexivity|]. cbn [snd]. rewrite Ho.
        exists tick. split; [lia | reflexivity].
      * eapply Forall2_impl; [|exact Hrest].
        intros old new. apply retargeted_widen; lia.
    + specialize (IH tick updated).
      destruct (retention_loop clock tick agent_id policy items updated)
        as [rest n].
      cbn [fst snd] in *. destruct IH as [Hn Hrest]. split; [lia|].
      constructor.
      * split; [reflexivity|]. cbn [snd]. now rewrite Ho.
      * exact Hrest.
Qed.

Lemma dict_get_set {V} (k : string) (v : V) (d : Dict V) :
  dict_get k (dict_set k v d) = Some v.
Proof.
  induction d as [|[k' v'] d IH]; simpl.
  - now rewrite String.eqb_refl.
  - destruct (String.eqb k k') eqn:E; simpl.
    + now rewrite String.eqb_refl.
    + now rewrite E.
Qed.

Lemma expiry_of_days (policy : RetentionPolicy) (now : Z) :
  expiry_of policy now
  = match RETENTION_DAYS policy with
    | Some days => Some (now + timedelta_days days)
    | None => None
    end.
Proof. now destruct policy. Qed.

(** C6.  [set_retention_policy] records the policy for the agent and walks
    the store once.  Each chunk owned by the agent gets the policy and an
    [expires_at] recomputed from a reading [clock t] of [utcnow()] made
    during the call: the reading plus the policy's day count, or null for
    [INFINITE]; every other field of the chunk, every chunk of another
    agent, the keys and their order stay as they were.  The count returned
    is the number of chunks owned by the agent. *)
Theorem set_retention_policy_updates (clock : Clock) (agent_id : string)
    (policy : RetentionPolicy) (w : World) :
  let w' := fst (set_retention_policy clock agent_id policy w) in
  let updated := snd (set_retention_policy clock agent_id policy w) in
  updated = List.length (owned_items agent_id (indexed_chunks w))
  /\ Forall2 (fun old new =>
                fst new = fst old
                /\ if owned_by agent_id (snd old)
                   then exists t,
                       (t < updated)%nat
                       /\ snd new = set_chunk_policy policy (clock t) (snd old)
                   else snd new = snd old)
             (indexed_chunks w) (indexed_chunks w')
  /\ (forall now c,
        let m := DocumentChunk.metadata c in
        let m' := DocumentChunk.metadata (set_chunk_policy policy now c) in
        ChunkMetadata.retention_policy m' = policy
        /\ ChunkMetadata.expires_at m'
           = match RETENTION_DAYS policy with
             | Some days => Some (now + timedelta_days days)
             | None => None
             end
        /\ RETENTION_DAYS INFINITE = None
        /\ DocumentChunk.content (set_chunk_policy policy now c)
           = DocumentChunk.content c
        /\ ChunkMetadata.chunk_id m' = ChunkMetadata.chunk_id m
        /\ ChunkMetadata.content_hash m' = ChunkMetadata.content_hash m
        /\ ChunkMetadata.agent_id m' = ChunkMetadata.agent_id m
        /\ ChunkMetadata.source_type m' = ChunkMetadata.source_type m
        /\ ChunkMetadata.source_id m' = ChunkMetadata.source_id m
        /\ ChunkMetadata.timestamp m' = ChunkMetadata.timestamp m)
  /\ get_retention_policy agent_id w' = policy
  /\ indexed_hashes w' = indexed_hashes w.
Proof.
  unfold set_retention_policy.
  pose proof (retention_loop_spec clock agent_id policy (indexed_chunks w) 0 0)
    as [Hn Hall].
  destruct (retention_loop clock 0 agent_id policy (indexed_chunks w) 0)
    as [store n].
  simpl in *. subst n. split; [reflexivity|]. split; [|split; [|split]].
  - eapply Forall2_impl; [|exact Hall].
    intros old new [Hk Hc]. split; [assumption|].
    destruct (owned_by agent_id (snd old)); [|assumption].
    destruct Hc as (t & Ht & Hc). exists t. split; [lia | assumption].
  - intros now c. simpl. rewrite expiry_of_days. repeat split.
  - unfold get_retention_policy. simpl. now rewrite dict_get_set.
  - reflexivity.
Qed.

(* ================================================================== *)
(** * hybrid_search *)
(* ================================================================== *)

Lemma search_item_qualifies (request : SearchRequest.t) (chunk : DocumentChunk.t) :
  search_item request (Py.lower (SearchRequest.query request)) chunk
  = if qualifies request chunk then Some (result_of request chunk) else None.
Proof.
  unfold search_item, qualifies, result_of.
  destruct (existsb _ (agent_filter request)); simpl; [|reflexivity].
  destruct (0 <? _)%nat; simpl; [|reflexivity].
  now destruct (Py.float_ge _ _).
Qed.

Lemma search_loop_spec (request : SearchRequest.t) (q : string)
    (items : Dict DocumentChunk.t) :
  forall results,
    search_loop request q items results
    = (results
       ++ flat_map (fun kc => match search_item request q (snd kc) with
                              | Some r => [r]
                              | None => []
                              end) items)%list.
Proof.
  induction items as [|[k c] items IH]; intros results; simpl.
  - now rewrite app_nil_r.
  - destruct (search_item request q c); rewrite IH; simpl.
    + now rewrite <- app_assoc.
    + reflexivity.
Qed.

Lemma lexical_candidates_qualifying (request : SearchRequest.t) (w : World) :
  lexical_candidates request w
  = map (result_of request)
        (filter (qualifies request) (values (indexed_chunks w))).
Proof.
  unfold lexical_candidates, values.
  induction (indexed_chunks w) as [|[k c] items IH]; simpl; [reflexivity|].
  rewrite search_item_qualifies, IH.
  now destruct (qualifies request c).
Qed.

Lemma hybrid_search_sorted_candidates (request : SearchRequest.t) (w : World) :
  hybrid_search request w
  = Py.slice (sort_by_score (lexical_candidates request w)) 0
             (SearchRequest.limit request).
Proof.
  unfold hybrid_search. now rewrite search_loop_spec.
Qed.

(** ** The stable sort *)

Lemma insert_by_score_perm (x : SearchResult.t) (l : list SearchResult.t) :
  Permutation (insert_by_score x l) (x :: l).
Proof.
  induction l as [|y l IH]; simpl; [reflexivity|].
  destruct (Qle_bool _ _); [reflexivity|].
  rewrite IH. apply perm_swap.
Qed.

Lemma sort_by_score_perm (l : list SearchResult.t) :
  Permutation (sort_by_score l) l.
Proof.
  induction l as [|x l IH]; simpl; [reflexivity|].
  now rewrite insert_by_score_perm, IH.
Qed.

Lemma insert_by_score_sorted (x : SearchResult.t) (l : list SearchResult.t) :
  StronglySorted score_ge l -> StronglySorted score_ge (insert_by_score x l).
Proof.
  induction 1 as [|y l Hl IH Hy]; simpl.
  - repeat constructor.
  - destruct (Qle_bool (SearchResult.score y) (SearchResult.score x)) eqn:E.
    + apply Qle_bool_iff in E. constructor; [now constructor|].
      constructor; [exact E|].
      eapply Forall_impl; [|exact Hy].
      intros z Hz. unfold score_ge in *. now apply Qle_trans with (SearchResult.score y).
    + constructor; [exact IH|].
      rewrite (Forall_forall (score_ge y)). intros z Hz.
      apply (Permutation_in _ (insert_by_score_perm x l)) in Hz.
      destruct Hz as [<-|Hz].
      * unfold score_ge. apply Qlt_le_weak, Qnot_le_lt.
        intros Hle. apply Qle_bool_iff in Hle. congruence.
      * rewrite Forall_forall in Hy. now apply Hy.
Qed.

Lemma sort_by_score_sorted (l : list SearchResult.t) :
  StronglySorted score_ge (sort_by_score l).
Proof.
  induction l as [|x l IH]; simpl; [constructor|].
  now apply insert_by_score_sorted.
Qed.

Lemma insert_by_score_stable (q : Q) (x : SearchResult.t) (l : list SearchResult.t) :
  filter (score_is q) (insert_by_score x l) = filter (score_is q) (x :: l).
Proof.
  induction l as [|y l IH]; [reflexivity|].
  cbn [insert_by_score].
  destruct (Qle_bool (SearchResult.score y) (SearchResult.score x)) eqn:E;
    [reflexivity|].
  cbn [filter] in *. rewrite IH.
  destruct (score_is q x) eqn:Hx; [|reflexivity].
  destruct (score_is q y) eqn:Hy; [|reflexivity].
  exfalso. unfold score_is in *.
  apply Qeq_bool_iff in Hx, Hy.
  assert (Hle : (SearchResult.score y <= SearchResult.score x)%Q)
    by (rewrite Hx, Hy; apply Qle_refl).
  apply Qle_bool_iff in Hle. congruence.
Qed.

Lemma sort_by_score_stable (q : Q) (l : list SearchResult.t) :
  filter (score_is q) (sort_by_score l) = filter (score_is q) l.
Proof.
  induction l as [|x l IH]; [reflexivity|].
  cbn [sort_by_score fold_right]. fold (sort_by_score l).
  rewrite insert_by_score_stable. cbn [filter]. now rewrite IH.
Qed.

Lemma slice_incl {A} (l : list A) (lo hi : Z) : incl (Py.slice l lo hi) l.
Proof.
  unfold Py.slice. intros x Hx.
  now apply firstn_incl, skipn_incl in Hx.
Qed.

Lemma search_loop_mode (mode : string) (request : SearchRequest.t) (q : string)
    (items : Dict DocumentChunk.t) :
  forall results,
    search_loop (with_search_type mode request) q items results
    = search_loop request q items results.
Proof.
  induction items as [|[k c] items IH]; intros results; simpl; [reflexivity|].
  change (search_item (with_search_type mode request) q c)
    with (search_item request q c).
  destruct (search_item request q c); apply IH.
Qed.

(** X22.  The ranking of [hybrid_search].  Its results are the first
    [limit] items (as the slice [[:limit]] takes them) of a list that
    holds, for every stored chunk that is visible to the request, contains
    at least one word of the lowered query in its lowered content, and
    whose score reaches [min_score], the result labelled [bm25] whose score
    is the [float] quotient of the number of query words occurring in the
    chunk by the number of query words.  That list is in descending order
    of score, and results of equal score keep the order of the store.  The
    field [search_type] is never read: the results are the same for every
    mode. *)
Theorem hybrid_search_lexical_scores (request : SearchRequest.t) (w : World) :
  let candidates :=
    map (result_of request)
        (filter (qualifies request) (values (indexed_chunks w))) in
  exists sorted,
    hybrid_search request w = Py.slice sorted 0 (SearchRequest.limit request)
    /\ Permutation sorted candidates
    /\ StronglySorted score_ge sorted
    /\ (forall q, filter (score_is q) sorted = filter (score_is q) candidates)
    /\ (forall mode,
          hybrid_search (with_search_type mode request) w
          = hybrid_search request w)
    /\ (forall chunk,
          SearchResult.score (result_of request chunk)
          = ratio (count_matches
                     (Py.split (Py.lower (SearchRequest.query request)))
                     (Py.lower (DocumentChunk.content chunk)))
                  (List.length
                     (Py.split (Py.lower (SearchRequest.query request))))
          /\ SearchResult.search_method (result_of request chunk) = "bm25").
Proof.
  intros candidates.
  exists (sort_by_score (lexical_candidates request w)).
  split; [apply hybrid_search_sorted_candidates|].
  unfold candidates. rewrite <- lexical_candidates_qualifying.
  split; [apply sort_by_score_perm|].
  split; [apply sort_by_score_sorted|].
  split; [intros q; apply sort_by_score_stable|].
  split; [|intros chunk; split; reflexivity].
  intros mode. unfold hybrid_search. simpl. now rewrite search_loop_mode.
Qed.

(** C1.  The docstring of [hybrid_search] announces reciprocal rank fusion
    for the [hybrid] mode; the code fuses nothing.  The one chunk of
    [hello_world] is first in any backend list that holds it, so its fused
    score for [k = 60] would be 1/61, 2/61 or 3/61 with one, two or three
    backends; [hybrid_search] in [hybrid] mode gives it the score 1 and
    the label [bm25].  And on a tie ([tie_world], both scores 1, one
    contributing pass each) the chunk stored first comes first although its
    identity is the greater one. *)
Lemma hybrid_search_score_is_not_rrf :
  keys (indexed_chunks hello_world) = ["a_b_c_0_b94d27b9934d3e08"]
  /\ map (fun r => (SearchResult.content r, SearchResult.score r,
                    SearchResult.search_method r))
         (hybrid_search hello_search hello_world)
     = [("hello world", 1 # 1, "bm25")]
  /\ map (fun n => FusionRankerSpec.rrf_score 60
                     (repeat ["a_b_c_0_b94d27b9934d3e08"] n)
                     "a_b_c_0_b94d27b9934d3e08")
         [1; 2; 3]%nat
     = [1 # 61; (1 # 61) + (1 # 61); (1 # 61) + ((1 # 61) + (1 # 61))]%Q
  /\ map (fun n => Qeq_bool (1 # 1)
                     (FusionRankerSpec.rrf_score 60
                        (repeat ["a_b_c_0_b94d27b9934d3e08"] n)
                        "a_b_c_0_b94d27b9934d3e08"))
         [1; 2; 3]%nat
     = [false; false; false]
  /\ keys (indexed_chunks tie_world)
     = ["u_z_0_1a989ea86150171c"; "u_a_0_84fabc827988d786"]
  /\ String.ltb "u_a_0_84fabc827988d786" "u_z_0_1a989ea86150171c" = true
  /\ map (fun r => (SearchResult.content r, SearchResult.score r))
         (hybrid_search tie_search tie_world)
     = [("alpha beta", 1 # 1); ("alpha gamma", 1 # 1)].
Proof. repeat split; vm_compute; reflexivity. Qed.

(** ** Search and expiry *)

Lemma qualifies_set_expires_at (request : SearchRequest.t) (e : option Z)
    (chunk : DocumentChunk.t) :
  qualifies request (set_expires_at e chunk) = qualifies request chunk
  /\ result_of request (set_expires_at e chunk) = result_of request chunk.
Proof. split; reflexivity. Qed.

Lemma lexical_candidates_ignore_expiry (request : SearchRequest.t)
    (f : string * DocumentChunk.t -> option Z) (w : World) :
  lexical_candidates request
    (mkWorld (map (fun kc => (fst kc, set_expires_at (f kc) (snd kc)))
                  (indexed_chunks w))
             (indexed_hashes w) (retention_settings w))
  = lexical_candidates request w.
Proof.
  rewrite !lexical_candidates_qualifying. unfold values. simpl.
  induction (indexed_chunks w) as [|[k c] items IH]; simpl; [reflexivity|].
  change (qualifies request (set_expires_at (f (k, c)) c))
    with (qualifies request c).
  destruct (qualifies request c); simpl; now rewrite IH.
Qed.

(** Every result comes from a stored chunk that qualifies. *)
Lemma hybrid_search_from_store (request : SearchRequest.t) (w : World)
    (r : SearchResult.t) :
  In r (hybrid_search request w) ->
  exists k c, In (k, c) (indexed_chunks w)
              /\ qualifies request c = true /\ r = result_of request c.
Proof.
  rewrite hybrid_search_sorted_candidates. intros Hr.
  apply slice_incl in Hr.
  apply (Permutation_in _ (sort_by_score_perm _)) in Hr.
  rewrite lexical_candidates_qualifying in Hr.
  apply in_map_iff in Hr as (c & <- & Hc).
  apply filter_In in Hc as [Hc Hq].
  unfold values in Hc. apply in_map_iff in Hc as ([k c'] & Heq & Hin).
  simpl in Heq. subst c'. now exists k, c.
Qed.

(** C2 (amended).  [hybrid_search] does not look at [expires_at]: whatever
    expiry the stored chunks carry, the results are the same, so a chunk
    whose expiry has passed is returned like any other as long as it is in
    the store.  Expired chunks leave the results only through the sweep:
    after [cleanup_expired] at [now], every result comes from a chunk that
    was stored and not expired at [now]. *)
Theorem hybrid_search_ignores_expiry (request : SearchRequest.t) (w : World)
    (f : string * DocumentChunk.t -> option Z) (now : Z) :
  dict_wf (indexed_chunks w) ->
  hybrid_search request
    (mkWorld (map (fun kc => (fst kc, set_expires_at (f kc) (snd kc)))
                  (indexed_chunks w))
             (indexed_hashes w) (retention_settings w))
  = hybrid_search request w
  /\ exists w' removed,
      cleanup_expired now w = Some (w', removed)
      /\ Forall (fun r => exists k c,
                     In (k, c) (indexed_chunks w)
                     /\ is_expired now c = false
                     /\ qualifies request c = true
                     /\ r = result_of request c)
                (hybrid_search request w').
Proof.
  intros Hwf. split.
  - rewrite !hybrid_search_sorted_candidates.
    now rewrite lexical_candidates_ignore_expiry.
  - eexists _, _. split; [now apply cleanup_expired_filter|].
    apply Forall_forall. intros r Hr.
    apply hybrid_search_from_store in Hr as (k & c & Hin & Hq & ->).
    simpl in Hin. apply filter_In in Hin as [Hin He].
    exists k, c. repeat split; try assumption.
    unfold expired_item in He. simpl in He. now apply negb_true_iff in He.
Qed.

Lemma hybrid_search_ignores_expiry_witness :
  hybrid_search hello_search
    (mkWorld (map (fun kc => (fst kc, set_expires_at None (snd kc)))
                  (indexed_chunks hello_world))
             (indexed_hashes hello_world) (retention_settings hello_world))
  = hybrid_search hello_search hello_world.
Proof.
  exact (proj1 (hybrid_search_ignores_expiry hello_search hello_world
                  (fun _ => None) (hello_expiry + 1)
                  ltac:(vm_compute; repeat constructor; intros []))).
Defined.

(** C2 as stated fails: one microsecond after the expiry of the chunk of
    [hello_world], with no sweep run, the chunk is expired and the search
    still returns it. *)
Lemma hybrid_search_returns_expired_chunk :
  map (fun c => (DocumentChunk.content c,
                 ChunkMetadata.expires_at (DocumentChunk.metadata c),
                 is_expired (hello_expiry + 1) c))
      (values (indexed_chunks hello_world))
  = [("hello world", Some hello_expiry, true)]
  /\ map SearchResult.content (hybrid_search hello_search hello_world)
     = ["hello world"].
Proof. split; vm_compute; reflexivity. Qed.

(* ================================================================== *)
(** * The store stays a dictionary *)
(* ================================================================== *)

Lemma index_content_wf (clock : Clock) (request : IndexRequest.t)
    (w w' : World) (response : IndexResponse) (tasks : list Task) :
  index_content clock request w = Some (w', response, tasks) ->
  dict_wf (indexed_chunks w) -> dict_wf (indexed_chunks w').
Proof.
  unfold index_content.
  destruct (should_index_to_rag _ _); simpl.
  - destruct (prepare_chunks _ _ _ _ _ _) as [chunks|]; [|discriminate].
    destruct (index_loop chunks (indexed_chunks w) (indexed_hashes w) 0 0)
      as [[[store hashes] indexed] skipped] eqn:Hloop.
    intros [= <- _ _]. simpl.
    now apply index_loop_marks in Hloop.
  - now intros [= <- _ _].
Qed.

Lemma set_retention_policy_wf (clock : Clock) (agent_id : string)
    (policy : RetentionPolicy) (w : World) :
  dict_wf (indexed_chunks w) ->
  dict_wf (indexed_chunks (fst (set_retention_policy clock agent_id policy w))).
Proof.
  unfold set_retention_policy, dict_wf.
  pose proof (retention_loop_spec clock agent_id policy (indexed_chunks w) 0 0)
    as [_ Hall].
  destruct (retention_loop clock 0 agent_id policy (indexed_chunks w) 0)
    as [store n].
  simpl in *. intros Hwf.
  replace (keys store) with (keys (indexed_chunks w)); [assumption|].
  clear Hwf. unfold keys.
  induction Hall as [|old new olds news [Hk _] _ IH]; simpl; congruence.
Qed.

Lemma cleanup_expired_wf (now : Z) (w w' : World) (removed : nat) :
  cleanup_expired now w = Some (w', removed) ->
  dict_wf (indexed_chunks w) -> dict_wf (indexed_chunks w').
Proof.
  intros Hrun Hwf. rewrite cleanup_expired_filter in Hrun by assumption.
  injection Hrun as <- _. simpl. unfold dict_wf, keys in *.
  induction (indexed_chunks w) as [|[k c] items IH]; simpl; [constructor|].
  inversion Hwf as [|? ? Hk Hrest]; subst.
  destruct (expired_item now (k, c)); simpl; [now apply IH|].
  constructor; [|now apply IH].
  intros Hin. apply Hk. apply in_map_iff in Hin as (x & Hx & Hin).
  apply filter_In in Hin as [Hin _]. apply in_map_iff. now exists x.
Qed.

(* ================================================================== *)
(** * Further properties of hybrid_search *)
(* ================================================================== *)

Lemma count_matches_le (query_words : list string) (content_lower : string) :
  (count_matches query_words content_lower <= List.length query_words)%nat.
Proof. unfold count_matches. apply filter_length_le. Qed.

(** ** The quotient of two [int]s as a [float] *)

Lemma round_half_even_bounds (n d : Z) :
  0 < d -> n / d <= Py.round_half_even n d <= n / d + 1.
Proof.
  intros Hd. unfold Py.round_half_even.
  destruct (2 * (n mod d) ?= d); [destruct (Z.even (n / d))| |]; lia.
Qed.

Lemma round_half_even_le (n d N : Z) :
  0 < d -> n <= N * d -> Py.round_half_even n d <= N.
Proof.
  intros Hd Hn. unfold Py.round_half_even.
  assert (Hq : n / d <= N) by (apply Z.div_le_upper_bound; lia).
  pose proof (Z.mod_pos_bound n d Hd) as Hr.
  pose proof (Z.div_mod n d ltac:(lia)) as Hdm.
  destruct (Z.eq_dec (n / d) N) as [HN|HN].
  - assert (Hr0 : n mod d = 0) by nia.
    rewrite Hr0. simpl (2 * 0).
    destruct (Z.compare_spec 0 d); lia.
  - destruct (2 * (n mod d) ?= d); [destruct (Z.even (n / d))| |]; lia.
Qed.

Lemma round_half_even_pos (n d : Z) :
  0 < d -> d <= n -> 1 <= Py.round_half_even n d.
Proof.
  intros Hd Hn. pose proof (round_half_even_bounds n d Hd) as [H _].
  assert (1 <= n / d) by (apply Z.div_le_lower_bound; lia). lia.
Qed.

Lemma shl_neg (x k : Z) : k <= 0 -> Py.shl x k = x.
Proof. intros H. unfold Py.shl. rewrite Z.max_l by lia. simpl. lia. Qed.

Lemma shl_pos (x k : Z) : 0 <= k -> Py.shl x k = x * 2 ^ k.
Proof. intros H. unfold Py.shl. now rewrite Z.max_r by lia. Qed.

(** For [0 < a <= b], the exponent of the quotient is not positive and
    [2 ** e <= a / b]. *)
Lemma floor_log2_le (a b : Z) :
  0 < a <= b ->
  Z.log2 a - Z.log2 b - 1 <= Py.floor_log2 a b <= 0
  /\ b <= a * 2 ^ (- Py.floor_log2 a b).
Proof.
  intros [Ha Hab]. unfold Py.floor_log2.
  pose proof (Z.log2_le_mono a b Hab) as Hmono.
  pose proof (Z.log2_nonneg a) as Hla.
  destruct (Z.log2_spec a Ha) as [Ha1 Ha2].
  destruct (Z.log2_spec b ltac:(lia)) as [Hb1 Hb2].
  set (e := Z.log2 a - Z.log2 b) in *.
  rewrite (shl_neg b e) by lia. rewrite (shl_pos a (- e)) by lia.
  destruct (a * 2 ^ (- e) <? b) eqn:E;
    [apply Z.ltb_lt in E | apply Z.ltb_ge in E].
  - split; [lia|].
    replace (- (e - 1)) with (Z.succ (Z.log2 b) - Z.log2 a) by lia.
    assert (H2 : 2 ^ Z.succ (Z.log2 b)
                 = 2 ^ Z.log2 a * 2 ^ (Z.succ (Z.log2 b) - Z.log2 a)).
    { rewrite <- Z.pow_add_r by lia. f_equal. lia. }
    assert (0 < 2 ^ (Z.succ (Z.log2 b) - Z.log2 a))
      by (apply Z.pow_pos_nonneg; lia).
    nia.
  - split; [lia|exact E].
Qed.

Lemma truediv_value (a b : Z) :
  0 < a <= b ->
  exists k m,
    0 < k /\ 0 <= m <= 2 ^ k
    /\ (Py.truediv a b == m # Z.to_pos (2 ^ k))%Q
    /\ (b < 2 ^ 1074 -> 0 < m).
Proof.
  intros Hab. unfold Py.truediv.
  destruct (Z.eqb_spec a 0) as [H0|_]; [lia|].
  destruct (floor_log2_le a b Hab) as [[HE1 HE2] Hlow].
  set (E := Py.floor_log2 a b) in *.
  set (e := Z.max (E - 52) (-1074)).
  assert (He : e < 0) by lia.
  exists (- e), (Py.round_half_even (Py.shl a (- e)) (Py.shl b e)).
  rewrite (shl_neg b e), (shl_pos a (- e)), (shl_pos 1 (- e)), shl_neg by lia.
  rewrite Z.mul_1_l.
  assert (Hp : 0 < 2 ^ (- e)) by (apply Z.pow_pos_nonneg; lia).
  split; [lia|]. split; [split|split].
  - pose proof (round_half_even_bounds (a * 2 ^ (- e)) b ltac:(lia)) as [H _].
    assert (0 <= a * 2 ^ (- e) / b) by (apply Z.div_pos; nia). lia.
  - apply round_half_even_le; [lia|]. nia.
  - apply Qred_correct.
  - intros Hb.
    assert (HE : -1074 <= E).
    { assert (Z.log2 b < 1074) by (apply Z.log2_lt_pow2; lia).
      pose proof (Z.log2_nonneg a). lia. }
    assert (Hle : 2 ^ (- E) <= 2 ^ (- e)) by (apply Z.pow_le_mono_r; lia).
    pose proof (round_half_even_pos (a * 2 ^ (- e)) b ltac:(lia) ltac:(nia)).
    lia.
Qed.

Lemma truediv_bounds (a b : Z) :
  0 < a <= b ->
  (0 <= Py.truediv a b <= 1)%Q /\ (b < 2 ^ 1074 -> (0 < Py.truediv a b)%Q).
Proof.
  intros Hab. destruct (truediv_value a b Hab) as (k & m & Hk & Hm & -> & Hpos).
  assert (Hp : 0 < 2 ^ k) by (apply Z.pow_pos_nonneg; lia).
  unfold Qle, Qlt. simpl. rewrite !Z2Pos.id by lia.
  split; [split; lia|]. intros Hb. specialize (Hpos Hb). lia.
Qed.

(** The rounded quotient is a nearest integer. *)
Lemma round_half_even_nearest (n d : Z) :
  0 < d -> 2 * Z.abs (n - Py.round_half_even n d * d) <= d.
Proof.
  intros Hd. unfold Py.round_half_even.
  pose proof (Z.mod_pos_bound n d Hd) as Hr.
  pose proof (Z.div_mod n d ltac:(lia)) as Hdm.
  destruct (Z.compare_spec (2 * (n mod d)) d) as [H|H|H];
    [destruct (Z.even (n / d))| |]; nia.
Qed.

Lemma round_half_even_tie (n d : Z) :
  0 < d -> 2 * Z.abs (n - Py.round_half_even n d * d) = d ->
  Z.even (Py.round_half_even n d) = true.
Proof.
  intros Hd. unfold Py.round_half_even.
  pose proof (Z.mod_pos_bound n d Hd) as Hr.
  pose proof (Z.div_mod n d ltac:(lia)) as Hdm.
  destruct (Z.compare_spec (2 * (n mod d)) d) as [H|H|H].
  - destruct (Z.even (n / d)) eqn:E; [easy|]. intros _.
    replace (n / d + 1) with (Z.succ (n / d)) by lia.
    now rewrite Z.even_succ, <- Z.negb_even, E.
  - intros Habs. nia.
  - intros Habs. nia.
Qed.

Lemma floor_log2_lt (a b : Z) :
  0 < a <= b -> a * 2 ^ (- Py.floor_log2 a b) < 2 * b.
Proof.
  intros [Ha Hab]. unfold Py.floor_log2.
  pose proof (Z.log2_le_mono a b Hab) as Hmono.
  pose proof (Z.log2_nonneg a) as Hla.
  destruct (Z.log2_spec a Ha) as [Ha1 Ha2].
  destruct (Z.log2_spec b ltac:(lia)) as [Hb1 Hb2].
  set (e := Z.log2 a - Z.log2 b) in *.
  rewrite (shl_neg b e) by lia. rewrite (shl_pos a (- e)) by lia.
  destruct (a * 2 ^ (- e) <? b) eqn:E;
    [apply Z.ltb_lt in E | apply Z.ltb_ge in E].
  - replace (- (e - 1)) with (Z.succ (- e)) by lia.
    rewrite Z.pow_succ_r by lia. lia.
  - assert (H2 : 2 ^ Z.succ (Z.log2 a) * 2 ^ (- e) = 2 * 2 ^ Z.log2 b).
    { rewrite <- Z.pow_add_r by lia.
      replace (Z.succ (Z.log2 a) + - e) with (Z.succ (Z.log2 b)) by lia.
      apply Z.pow_succ_r. lia. }
    assert (0 < 2 ^ (- e)) by (apply Z.pow_pos_nonneg; lia).
    nia.
Qed.

(** [a / b] for [0 < a <= b] is the binary64 value nearest to the quotient:
    a multiple [m * 2 ** (- k)] of a power of two down to [2 ** (-1074)],
    with [m] of 53 bits (of fewer at [k = 1074], or [2 ** 53]), that
    differs from the quotient by at most half of [2 ** (- k)], and with
    [m] even when it differs by just that half. *)
Lemma truediv_nearest (a b : Z) :
  0 < a <= b ->
  exists k m,
    52 <= k <= 1074 /\ 0 <= m <= 2 ^ 53 /\ (k = 1074 \/ 2 ^ 52 <= m)
    /\ (Py.truediv a b == m # Z.to_pos (2 ^ k))%Q
    /\ 2 * Z.abs (a * 2 ^ k - m * b) <= b
    /\ (2 * Z.abs (a * 2 ^ k - m * b) = b -> Z.even m = true).
Proof.
  intros Hab. unfold Py.truediv.
  destruct (Z.eqb_spec a 0) as [H0|_]; [lia|].
  destruct (floor_log2_le a b Hab) as [[HE1 HE2] Hlow].
  pose proof (floor_log2_lt a b Hab) as Hhigh.
  set (E := Py.floor_log2 a b) in *.
  set (e := Z.max (E - 52) (-1074)).
  assert (He : e < 0) by lia.
  exists (- e), (Py.round_half_even (Py.shl a (- e)) (Py.shl b e)).
  rewrite (shl_neg b e), (shl_pos a (- e)), (shl_pos 1 (- e)), shl_neg by lia.
  rewrite Z.mul_1_l.
  assert (Hp : 0 < 2 ^ (- e)) by (apply Z.pow_pos_nonneg; lia).
  pose proof (round_half_even_bounds (a * 2 ^ (- e)) b ltac:(lia)) as [Hfloor _].
  split; [lia|]. split; [split|split; [|split; [|split]]].
  - assert (0 <= a * 2 ^ (- e) / b) by (apply Z.div_pos; nia). lia.
  - apply round_half_even_le; [lia|].
    assert (Hle : 2 ^ (- e) <= 2 ^ (52 - E)) by (apply Z.pow_le_mono_r; lia).
    assert (Hsplit : 2 ^ (52 - E) = 2 ^ 52 * 2 ^ (- E)).
    { rewrite <- Z.pow_add_r by lia. f_equal; lia. }
    change (2 ^ 53) with (2 * 2 ^ 52).
    assert (0 < 2 ^ 52) by reflexivity.
    assert (0 < 2 ^ (- E)) by (apply Z.pow_pos_nonneg; lia).
    nia.
  - destruct (Z.eq_dec (- e) 1074) as [Hk|Hk]; [now left | right].
    assert (Hk' : - e = 52 - E) by lia.
    assert (Hsplit : 2 ^ (- e) = 2 ^ 52 * 2 ^ (- E)).
    { rewrite Hk', <- Z.pow_add_r by lia. f_equal; lia. }
    assert (2 ^ 52 <= a * 2 ^ (- e) / b); [|lia].
    apply Z.div_le_lower_bound; [lia|].
    assert (0 < 2 ^ 52) by reflexivity. nia.
  - apply Qred_correct.
  - apply round_half_even_nearest. lia.
  - apply round_half_even_tie. lia.
Qed.

(** Some quotients: one fifth and one tenth round to the [float]s written
    [0.2] and [0.1], which lie above them; a quotient of [2 ** (-1075)]
    rounds to [0.0], three times half of that to [2 ** (-1074)]. *)
Lemma truediv_values :
  Py.truediv 1 5 = float_0_2
  /\ Py.truediv 1 10 = 3602879701896397 # 36028797018963968
  /\ Py.truediv 1 3 = 6004799503160661 # 18014398509481984
  /\ Py.truediv 2 3 = 6004799503160661 # 9007199254740992
  /\ Py.truediv 1 2 = 1 # 2
  /\ Py.truediv 1 1 = 1%Q
  /\ Py.truediv 1 (2 ^ 1075) = 0%Q
  /\ (Py.truediv 3 (2 ^ 1076) == 1 # Z.to_pos (2 ^ 1074))%Q.
Proof. repeat split; vm_compute; reflexivity. Qed.

Lemma ratio_bounds (matches len : nat) :
  (0 < matches)%nat -> (matches <= len)%nat ->
  (0 <= ratio matches len <= 1)%Q
  /\ (Z.of_nat len < 2 ^ 1074 -> (0 < ratio matches len)%Q).
Proof.
  intros Hpos Hle. unfold ratio. apply truediv_bounds. lia.
Qed.

Lemma qualifies_true (request : SearchRequest.t) (chunk : DocumentChunk.t) :
  qualifies request chunk = true ->
  let words := Py.split (Py.lower (SearchRequest.query request)) in
  let matches := count_matches words (Py.lower (DocumentChunk.content chunk)) in
  In (ChunkMetadata.agent_id (DocumentChunk.metadata chunk)) (agent_filter request)
  /\ (0 < matches)%nat
  /\ Py.float_ge (ratio matches (List.length words))
                 (SearchRequest.min_score request) = true.
Proof.
  unfold qualifies. intros H. apply andb_prop in H as [H Hmin].
  apply andb_prop in H as [Hvis Hpos]. split; [|split].
  - now apply existsb_eqb_In.
  - now apply Nat.ltb_lt.
  - exact Hmin.
Qed.

(** X1.  A search returns chunks of the requesting agent only, plus, when
    [include_shared] is set, chunks of the agent named [shared]; without
    [include_shared] no chunk of another agent is ever returned, whatever
    its score. *)
Theorem hybrid_search_visibility (request : SearchRequest.t) (w : World) :
  Forall (fun r =>
            SearchResult.agent_id r = SearchRequest.agent_id request
            \/ (SearchRequest.include_shared request = true
                /\ SearchResult.agent_id r = "shared"))
         (hybrid_search request w).
Proof.
  apply Forall_forall. intros r Hr.
  apply hybrid_search_from_store in Hr as (k & c & _ & Hq & ->).
  apply qualifies_true in Hq as [Hvis _]. simpl.
  unfold agent_filter in Hvis. destruct Hvis as [<-|Hvis]; [now left|].
  destruct (SearchRequest.include_shared request); [|destruct Hvis].
  destruct Hvis as [<-|[]]. now right.
Qed.

(** Every result is the result of a chunk whose score lies between 0 and 1
    and reaches [min_score]. *)
Lemma hybrid_search_scores (request : SearchRequest.t) (w : World)
    (r : SearchResult.t) :
  In r (hybrid_search request w) ->
  (0 <= SearchResult.score r <= 1)%Q
  /\ Py.float_ge (SearchResult.score r) (SearchRequest.min_score request) = true
  /\ (Z.of_nat (List.length (Py.split (Py.lower (SearchRequest.query request))))
      < 2 ^ 1074 -> (0 < SearchResult.score r)%Q).
Proof.
  intros Hr. apply hybrid_search_from_store in Hr as (k & c & _ & Hq & ->).
  apply qualifies_true in Hq as (_ & Hpos & Hmin).
  destruct (ratio_bounds _ _ Hpos (count_matches_le _ _)) as [H01 H0].
  split; [exact H01|]. split; [exact Hmin | exact H0].
Qed.

(** X2.  Every returned score is a [float] between 0 and 1 that reaches
    [min_score]; it is positive when the query has fewer than [2 ** 1074]
    words (the quotient of a longer query can round to [0.0]).  A request
    whose [min_score] is above 1, or is [inf] or [nan], returns nothing. *)
Theorem hybrid_search_score_bounds (request : SearchRequest.t) (w : World) :
  Forall (fun r => (0 <= SearchResult.score r <= 1)%Q
                   /\ Py.float_ge (SearchResult.score r)
                                  (SearchRequest.min_score request) = true)
         (hybrid_search request w)
  /\ (Z.of_nat (List.length (Py.split (Py.lower (SearchRequest.query request))))
      < 2 ^ 1074 ->
      Forall (fun r => (0 < SearchResult.score r)%Q) (hybrid_search request w))
  /\ (forall q, SearchRequest.min_score request = Py.finite q -> (1 < q)%Q ->
                hybrid_search request w = [])
  /\ (SearchRequest.min_score request = Py.inf
      \/ SearchRequest.min_score request = Py.nan ->
      hybrid_search request w = []).
Proof.
  pose proof (hybrid_search_scores request w) as Hall.
  split; [|split; [|split]].
  - apply Forall_forall. intros r Hr.
    destruct (Hall r Hr) as (H01 & Hmin & _). now split.
  - intros Hlen. apply Forall_forall. intros r Hr.
    destruct (Hall r Hr) as (_ & _ & H0). exact (H0 Hlen).
  - intros q Hq Hlt.
    destruct (hybrid_search request w) as [|r rest]; [reflexivity|].
    destruct (Hall r (or_introl eq_refl)) as ([_ H1] & Hmin & _).
    rewrite Hq in Hmin. simpl in Hmin. apply Qle_bool_iff in Hmin.
    exfalso. apply (Qlt_irrefl 1).
    eapply Qlt_le_trans; [exact Hlt|]. now apply Qle_trans with (SearchResult.score r).
  - intros Hq.
    destruct (hybrid_search request w) as [|r rest]; [reflexivity|].
    destruct (Hall r (or_introl eq_refl)) as (_ & Hmin & _).
    destruct Hq as [Hq|Hq]; rewrite Hq in Hmin; discriminate.
Qed.

(** X23.  A returned score is the [float] nearest to the fraction of
    query words that occur in the returned content: with [matched] of the
    [total] query words occurring, the score is [m / 2 ** k] for a [k]
    from 52 to 1074 and an [m] of at most 53 bits (or [2 ** 53]), of
    exactly 53 bits unless [k = 1074]; it differs from [matched / total]
    by at most half of [2 ** (- k)], and [m] is even when it differs by
    just that half. *)
Theorem hybrid_search_score_nearest (request : SearchRequest.t) (w : World) :
  let words := Py.split (Py.lower (SearchRequest.query request)) in
  let total := Z.of_nat (List.length words) in
  Forall (fun r =>
            let matched :=
              Z.of_nat (count_matches words (Py.lower (SearchResult.content r))) in
            1 <= matched <= total
            /\ exists k m,
                52 <= k <= 1074 /\ 0 <= m <= 2 ^ 53
                /\ (k = 1074 \/ 2 ^ 52 <= m)
                /\ (SearchResult.score r == m # Z.to_pos (2 ^ k))%Q
                /\ 2 * Z.abs (matched * 2 ^ k - m * total) <= total
                /\ (2 * Z.abs (matched * 2 ^ k - m * total) = total ->
                    Z.even m = true))
         (hybrid_search request w).
Proof.
  intros words total. apply Forall_forall. intros r Hr.
  apply hybrid_search_from_store in Hr as (k & c & _ & Hq & ->).
  apply qualifies_true in Hq as (_ & Hpos & _). cbv zeta in Hpos.
  fold words in Hpos.
  unfold result_of. cbn [SearchResult.content SearchResult.score]. fold words.
  pose proof (count_matches_le words (Py.lower (DocumentChunk.content c)))
    as Hle.
  set (n := count_matches words _) in *.
  assert (Hm : 1 <= Z.of_nat n <= total) by (subst total; lia).
  split; [exact Hm|]. unfold ratio. fold total.
  apply truediv_nearest. lia.
Qed.

Lemma slice_from_start_length {A} (l : list A) (hi : Z) :
  Z.of_nat (List.length (Py.slice l 0 hi))
  = if hi <? 0 then Z.max 0 (Py.len l + hi) else Z.min hi (Py.len l).
Proof.
  unfold Py.slice, Py.clip, Py.len. simpl (0 <? 0).
  rewrite (Z.min_l 0) by lia. simpl skipn. rewrite Z.sub_0_r, length_firstn.
  destruct (hi <? 0) eqn:E; [apply Z.ltb_lt in E | apply Z.ltb_ge in E]; lia.
Qed.

(** X3.  The number of results is fixed by [limit] as the slice [[:limit]]
    fixes it: with [n] qualifying chunks, a non-negative [limit] gives
    [min limit n] results, and a negative [limit] drops the last [-limit]
    results of the ranking instead of being rejected. *)
Theorem hybrid_search_length (request : SearchRequest.t) (w : World) :
  let n := Py.len (filter (qualifies request) (values (indexed_chunks w))) in
  let limit := SearchRequest.limit request in
  Z.of_nat (List.length (hybrid_search request w))
  = if limit <? 0 then Z.max 0 (n + limit) else Z.min limit n.
Proof.
  intros n limit. rewrite hybrid_search_sorted_candidates.
  rewrite slice_from_start_length. fold limit.
  replace (Py.len (sort_by_score (lexical_candidates request w))) with n;
    [reflexivity|].
  unfold n, Py.len. f_equal.
  rewrite (Permutation_length (sort_by_score_perm _)).
  now rewrite lexical_candidates_qualifying, length_map.
Qed.

Lemma lower_char_space (c : ascii) :
  Py.isspace c = true -> Py.lower_char c = c.
Proof.
  destruct c as [[] [] [] [] [] [] [] []]; vm_compute; congruence.
Qed.

Lemma lower_all_space (s : string) : all_space s -> all_space (Py.lower s).
Proof.
  unfold all_space. induction s as [|c s IH]; simpl; [reflexivity|].
  intros H. apply andb_prop in H as [Hc Hs].
  now rewrite (lower_char_space c Hc), Hc, IH.
Qed.

(** X4.  A query without any word (empty, or whitespace only) matches
    nothing: the search returns the empty list for every store, and the
    division by the number of query words is never reached. *)
Theorem hybrid_search_blank_query (request : SearchRequest.t) (w : World) :
  all_space (SearchRequest.query request) ->
  hybrid_search request w = [].
Proof.
  intros Hq. rewrite hybrid_search_sorted_candidates.
  rewrite lexical_candidates_qualifying.
  assert (Hwords : Py.split (Py.lower (SearchRequest.query request)) = []).
  { apply Runs_split, Runs_end. now apply lower_all_space. }
  replace (filter (qualifies request) (values (indexed_chunks w))) with
    (@nil DocumentChunk.t); [unfold Py.slice; simpl; apply firstn_nil|].
  induction (values (indexed_chunks w)) as [|c cs IH]; [reflexivity|].
  simpl. unfold qualifies at 1. rewrite Hwords. simpl.
  now rewrite andb_false_r.
Qed.

Lemma hybrid_search_blank_query_witness :
  hybrid_search (SearchRequest.mk "  " "a" true "hybrid" 10 (1 # 2)) hello_world
  = [].
Proof.
  exact (hybrid_search_blank_query
           (SearchRequest.mk "  " "a" true "hybrid" 10 (1 # 2)) hello_world
           eq_refl).
Defined.

(* ================================================================== *)
(** * Further properties of the retention endpoints *)
(* ================================================================== *)

Lemma filter_filter_absorb {A} (f g : A -> bool) (l : list A) :
  (forall x, g x = true -> f x = true) ->
  filter g (filter (fun x => negb (f x)) l) = []
  /\ filter (fun x => negb (g x)) (filter (fun x => negb (f x)) l)
     = filter (fun x => negb (f x)) l.
Proof.
  intros Himp. induction l as [|x l [IH1 IH2]]; simpl; [now split|].
  destruct (f x) eqn:Ef; simpl; [now split|].
  destruct (g x) eqn:Eg; simpl.
  - apply Himp in Eg. congruence.
  - split; [assumption | now rewrite IH2].
Qed.

Lemma is_expired_mono (now now' : Z) (c : DocumentChunk.t) :
  now' <= now -> is_expired now' c = true -> is_expired now c = true.
Proof.
  unfold is_expired.
  destruct (ChunkMetadata.expires_at (DocumentChunk.metadata c)); [|easy].
  rewrite !Z.ltb_lt. lia.
Qed.

(** X5.  The sweep is idempotent: right after a sweep at [now], a second
    sweep at [now] or at any earlier instant removes nothing and leaves the
    state as it is. *)
Theorem cleanup_expired_idempotent (now now' : Z) (w : World) :
  dict_wf (indexed_chunks w) -> now' <= now ->
  exists w1 removed,
    cleanup_expired now w = Some (w1, removed)
    /\ cleanup_expired now' w1 = Some (w1, 0%nat).
Proof.
  intros Hwf Hle. eexists _, _. split; [now apply cleanup_expired_filter|].
  rewrite cleanup_expired_filter.
  - simpl.
    destruct (filter_filter_absorb (expired_item now) (expired_item now')
                (indexed_chunks w)) as [H1 H2].
    { intros [k c]. unfold expired_item. simpl. now apply is_expired_mono. }
    now rewrite H1, H2.
  - eapply cleanup_expired_wf; [|exact Hwf]. now apply cleanup_expired_filter.
Qed.

Lemma cleanup_expired_idempotent_witness :
  exists w1 removed,
    cleanup_expired (hello_expiry + 1) hello_world = Some (w1, removed)
    /\ cleanup_expired hello_expiry w1 = Some (w1, 0%nat).
Proof.
  exact (cleanup_expired_idempotent (hello_expiry + 1) hello_expiry hello_world
           ltac:(vm_compute; repeat constructor; intros [])
           ltac:(vm_compute; discriminate)).
Defined.

Lemma dict_get_set_other {V} (k k' : string) (v : V) (d : Dict V) :
  k <> k' -> dict_get k' (dict_set k v d) = dict_get k' d.
Proof.
  intros Hne. induction d as [|[k0 v0] d IH]; simpl.
  - destruct (String.eqb_spec k' k); [congruence | reflexivity].
  - destruct (String.eqb_spec k k0) as [->|Hk]; simpl.
    + destruct (String.eqb_spec k' k0); [congruence | reflexivity].
    + now rewrite IH.
Qed.

(** X6.  [get_retention_policy] reports for an agent the policy last set
    for that agent and is not affected by a policy set for another one; an
    agent whose policy was never set gets the default [INFINITE]; indexing
    and the sweep do not change what is reported. *)
Theorem retention_policy_lookup (clock : Clock) (a b : string)
    (policy : RetentionPolicy) (request : IndexRequest.t) (now : Z) (w : World) :
  get_retention_policy b (fst (set_retention_policy clock a policy w))
  = (if String.eqb a b then policy else get_retention_policy b w)
  /\ get_retention_policy b empty_world = INFINITE
  /\ match index_content clock request w with
     | Some (w', _, _) => get_retention_policy b w' = get_retention_policy b w
     | None => True
     end
  /\ match cleanup_expired now w with
     | Some (w', _) => get_retention_policy b w' = get_retention_policy b w
     | None => True
     end.
Proof.
  repeat split.
  - unfold set_retention_policy, get_retention_policy.
    destruct (retention_loop clock 0 a policy (indexed_chunks w) 0). simpl.
    destruct (String.eqb_spec a b) as [->|Hne].
    + now rewrite dict_get_set.
    + now rewrite dict_get_set_other.
  - unfold index_content.
    destruct (should_index_to_rag _ _); simpl; [|reflexivity].
    destruct (prepare_chunks _ _ _ _ _ _); [|exact I].
    now destruct (index_loop _ _ _ _ _) as [[[? ?] ?] ?].
  - unfold cleanup_expired.
    now destruct (remove_loop _ _ _) as [[? ?]|].
Qed.

(** The chunks of the agent after [set_retention_policy]: each carries the
    expiry of the policy at some reading of the clock. *)
Lemma set_retention_policy_owned_expiry (clock : Clock) (agent_id : string)
    (policy : RetentionPolicy) (w : World) :
  Forall (fun kc =>
            exists t, ChunkMetadata.expires_at (DocumentChunk.metadata (snd kc))
                      = expiry_of policy (clock t))
         (owned_items agent_id
            (indexed_chunks (fst (set_retention_policy clock agent_id policy w)))).
Proof.
  unfold set_retention_policy.
  pose proof (retention_loop_spec clock agent_id policy (indexed_chunks w) 0 0)
    as [_ Hall].
  destruct (retention_loop clock 0 agent_id policy (indexed_chunks w) 0)
    as [store n].
  simpl in *. clear n.
  induction Hall as [|old new olds news [Hk Hc] _ IH]; simpl; [constructor|].
  destruct (owned_by agent_id (snd old)) eqn:Ho.
  - destruct Hc as (t & _ & Hc). rewrite Hc.
    unfold owned_by in *. simpl. rewrite Ho.
    constructor; [|exact IH]. exists t. now rewrite Hc.
  - rewrite Hc, Ho. exact IH.
Qed.

Lemma owned_items_filter (agent_id : string) (f : string * DocumentChunk.t -> bool)
    (items : Dict DocumentChunk.t) :
  owned_items agent_id (filter f items) = filter f (owned_items agent_id items).
Proof.
  unfold owned_items. induction items as [|x items IH]; simpl; [reflexivity|].
  destruct (f x) eqn:Ef, (owned_by agent_id (snd x)) eqn:Eo; simpl;
    rewrite ?Ef, ?Eo, IH; reflexivity.
Qed.

Lemma filter_all {A} (f : A -> bool) (l : list A) :
  Forall (fun x => f x = true) l -> filter f l = l.
Proof. induction 1 as [|x l Hx _ IH]; simpl; [|rewrite Hx, IH]; reflexivity. Qed.

Lemma filter_none {A} (f : A -> bool) (l : list A) :
  Forall (fun x => f x = false) l -> filter f l = [].
Proof. induction 1 as [|x l Hx _ IH]; simpl; [|rewrite Hx, IH]; reflexivity. Qed.

(** X7.  How a policy change and the sweep compose.  After
    [set_retention_policy] for an agent, a sweep at [now] removes none of
    the agent's chunks if the policy is [INFINITE] or if the policy's day
    count has not elapsed at [now] since any reading of the clock, and it
    removes all of them if the day count has elapsed since every reading. *)
Theorem retention_then_cleanup (clock : Clock) (agent_id : string)
    (policy : RetentionPolicy) (now : Z) (w : World) :
  dict_wf (indexed_chunks w) ->
  let w1 := fst (set_retention_policy clock agent_id policy w) in
  exists w2 removed,
    cleanup_expired now w1 = Some (w2, removed)
    /\ (policy = INFINITE ->
        owned_items agent_id (indexed_chunks w2)
        = owned_items agent_id (indexed_chunks w1))
    /\ (forall days, RETENTION_DAYS policy = Some days ->
        (forall t, now <= clock t + timedelta_days days) ->
        owned_items agent_id (indexed_chunks w2)
        = owned_items agent_id (indexed_chunks w1))
    /\ (forall days, RETENTION_DAYS policy = Some days ->
        (forall t, clock t + timedelta_days days < now) ->
        owned_items agent_id (indexed_chunks w2) = []).
Proof.
  intros Hwf w1.
  assert (Hwf1 : dict_wf (indexed_chunks w1))
    by now apply set_retention_policy_wf.
  pose proof (set_retention_policy_owned_expiry clock agent_id policy w) as Hexp.
  fold w1 in Hexp.
  eexists _, _. split; [now apply cleanup_expired_filter|]. simpl.
  rewrite owned_items_filter. repeat split.
  - intros ->. apply filter_all.
    eapply Forall_impl; [|exact Hexp]. intros [k c] [t Ht].
    unfold expired_item, is_expired. simpl in *. now rewrite Ht.
  - intros days Hdays Hnow. apply filter_all.
    eapply Forall_impl; [|exact Hexp]. intros [k c] [t Ht].
    unfold expired_item, is_expired. simpl in *.
    rewrite Ht, expiry_of_days, Hdays. apply negb_true_iff, Z.ltb_ge, Hnow.
  - intros days Hdays Hnow. apply filter_none.
    eapply Forall_impl; [|exact Hexp]. intros [k c] [t Ht].
    unfold expired_item, is_expired. simpl in *.
    rewrite Ht, expiry_of_days, Hdays. apply negb_false_iff, Z.ltb_lt, Hnow.
Qed.

Lemma retention_then_cleanup_witness :
  exists w2 removed,
    cleanup_expired (hello_expiry + 1)
      (fst (set_retention_policy demo_clock "a" INFINITE hello_world))
    = Some (w2, removed)
    /\ owned_items "a" (indexed_chunks w2)
       = owned_items "a"
           (indexed_chunks
              (fst (set_retention_policy demo_clock "a" INFINITE hello_world))).
Proof.
  destruct (retention_then_cleanup demo_clock "a" INFINITE (hello_expiry + 1)
              hello_world ltac:(vm_compute; repeat constructor; intros []))
    as (w2 & removed & Hrun & Hkeep & _).
  exists w2, removed. split; [exact Hrun | exact (Hkeep eq_refl)].
Defined.

(* ================================================================== *)
(** * Fingerprints and prepared chunks *)
(* ================================================================== *)

Lemma hexdigit_lower_hex (x : N) :
  is_lower_hex (Sha256.hexdigit (N.land x 15)) = true.
Proof.
  assert (Hlt : (N.land x 15 < 16)%N).
  { change 15%N with (N.ones 4). rewrite N.land_ones.
    now apply N.mod_lt. }
  assert (Hall : forallb (fun n => is_lower_hex (Sha256.hexdigit n))
                         (map N.of_nat (seq 0 16)) = true) by reflexivity.
  rewrite forallb_forall in Hall. apply Hall.
  apply in_map_iff. exists (N.to_nat (N.land x 15)).
  split; [apply N2Nat.id|]. apply in_seq. lia.
Qed.

Lemma compute_hash_digits (content : string) :
  exists a b : N,
    compute_hash content = Sha256.hex8 a (Sha256.hex8 b EmptyString).
Proof.
  unfold compute_hash.
  destruct (Sha256.digest (Sha256.encode content)) as [a b c d e f g h].
  now exists a, b.
Qed.

Lemma compute_hash_length (content : string) :
  String.length (compute_hash content) = 16%nat.
Proof. now destruct (compute_hash_digits content) as (a & b & ->). Qed.

(** X8.  A fingerprint is always 16 characters long and made of the
    characters [0-9a-f] only; in particular it contains no underscore. *)
Theorem compute_hash_shape (content : string) :
  String.length (compute_hash content) = 16%nat
  /\ all_chars is_lower_hex (compute_hash content) = true.
Proof.
  split; [apply compute_hash_length|].
  destruct (compute_hash_digits content) as (a & b & ->).
  unfold Sha256.hex8. cbn [all_chars].
  now rewrite !hexdigit_lower_hex.
Qed.

Lemma prepare_loop_nth (clock : Clock) (agent_id source_type source_id : string)
    (policy : RetentionPolicy) (texts : list string) :
  forall tick i j text,
    nth_error texts j = Some text ->
    nth_error (prepare_loop clock tick i texts agent_id source_type source_id
                            policy) j
    = Some (DocumentChunk.mk text
              (ChunkMetadata.mk
                 (make_chunk_id agent_id source_id (i + j) (compute_hash text))
                 (compute_hash text) agent_id source_type source_id
                 (clock (tick + j * S (expiry_reads policy)
                         + expiry_reads policy)%nat)
                 policy
                 (expiry_of policy
                    (clock (tick + j * S (expiry_reads policy))%nat)))
              None).
Proof.
  induction texts as [|t texts IH]; intros tick i j text Hj.
  - destruct j; discriminate.
  - destruct j as [|j]; cbn [prepare_loop nth_error] in *.
    + injection Hj as <-. now rewrite Nat.mul_0_l, !Nat.add_0_r.
    + rewrite (IH _ _ _ _ Hj).
      set (r := expiry_reads policy).
      replace (S i + j)%nat with (i + S j)%nat by lia.
      replace (S (tick + r) + j * S r + r)%nat
        with (tick + S j * S r + r)%nat by lia.
      replace (S (tick + r) + j * S r)%nat with (tick + S j * S r)%nat by lia.
      reflexivity.
Qed.

Lemma prepare_loop_length (clock : Clock) (texts : list string) :
  forall tick i agent_id source_type source_id policy,
    List.length (prepare_loop clock tick i texts agent_id source_type source_id
                              policy)
    = List.length texts.
Proof.
  induction texts as [|t texts IH]; intros; simpl; [reflexivity|].
  now rewrite IH.
Qed.

(** X9.  [prepare_chunks] returns one chunk per window of the content, in
    order.  The [j]-th chunk (from 0) has the identity
    [agent_source_j_hash] with the hash of its own text, the request's
    agent, source and policy, and no embedding.  With a finite policy its
    expiry is the clock reading number [2j] plus the policy's days and its
    timestamp the next reading, [2j+1]; with [INFINITE] it has no expiry
    and its timestamp is reading number [j]. *)
Theorem prepare_chunks_spec (clock : Clock)
    (content agent_id source_type source_id : string) (policy : RetentionPolicy) :
  exists texts chunks,
    chunk_text_default content = Some texts
    /\ prepare_chunks clock content agent_id source_type source_id policy
       = Some chunks
    /\ List.length chunks = List.length texts
    /\ forall j text,
        nth_error texts j = Some text ->
        nth_error chunks j
        = Some (DocumentChunk.mk text
                  (ChunkMetadata.mk
                     (agent_id ++ "_" ++ source_id ++ "_" ++ Py.str_of_nat j
                      ++ "_" ++ compute_hash text)
                     (compute_hash text) agent_id source_type source_id
                     (match RETENTION_DAYS policy with
                      | Some _ => clock (2 * j + 1)%nat
                      | None => clock j
                      end)
                     policy
                     (match RETENTION_DAYS policy with
                      | Some days => Some (clock (2 * j)%nat + timedelta_days days)
                      | None => None
                      end))
                  None).
Proof.
  destruct (chunk_text_default_total content) as [texts Htexts].
  exists texts. eexists. split; [exact Htexts|].
  unfold prepare_chunks. rewrite Htexts. split; [reflexivity|].
  split; [apply prepare_loop_length|].
  intros j text Hj. rewrite (prepare_loop_nth _ _ _ _ _ _ _ _ _ _ Hj).
  rewrite expiry_of_days. unfold make_chunk_id.
  rewrite !Nat.add_0_l.
  destruct policy; unfold expiry_reads;
    cbn [RETENTION_DAYS RetentionPolicy_eqb negb];
    rewrite ?Nat.mul_1_r, ?Nat.add_0_r;
    replace (j * 2)%nat with (2 * j)%nat by lia; reflexivity.
Qed.

(* ================================================================== *)
(** * The states the service reaches *)
(* ================================================================== *)

Lemma length_append (a b : string) :
  String.length (a ++ b) = (String.length a + String.length b)%nat.
Proof. induction a as [|c a IH]; simpl; congruence. Qed.

Lemma append_suffix_eq (p : string) :
  forall p' h h',
    p ++ h = p' ++ h' -> String.length h = String.length h' -> h = h'.
Proof.
  induction p as [|c p IH]; intros p' h h' Heq Hlen; simpl in Heq.
  - subst h. rewrite length_append in Hlen.
    destruct p'; [reflexivity | simpl in Hlen; lia].
  - destruct p' as [|c' p']; simpl in Heq.
    + subst h'. simpl in Hlen. rewrite length_append in Hlen. lia.
    + injection Heq as _ Heq. now apply (IH p').
Qed.

Lemma make_chunk_id_suffix (agent_id source_id : string) (i : nat) (h : string) :
  make_chunk_id agent_id source_id i h
  = (agent_id ++ "_" ++ source_id ++ "_" ++ Py.str_of_nat i ++ "_") ++ h.
Proof. unfold make_chunk_id. now rewrite !append_assoc. Qed.

(** Two identities that are equal carry the same fingerprint. *)
Lemma make_chunk_id_hash (a s a' s' : string) (i i' : nat) (text text' : string) :
  make_chunk_id a s i (compute_hash text)
  = make_chunk_id a' s' i' (compute_hash text') ->
  compute_hash text = compute_hash text'.
Proof.
  rewrite !make_chunk_id_suffix. intros H.
  apply append_suffix_eq in H; [assumption|].
  now rewrite !compute_hash_length.
Qed.

Lemma dict_set_fresh {V} (k : string) (v : V) (d : Dict V) :
  ~ In k (keys d) -> dict_set k v d = (d ++ [(k, v)])%list.
Proof.
  induction d as [|[k' v'] d IH]; simpl; intros Hk; [reflexivity|].
  destruct (String.eqb_spec k k') as [->|Hne]; [tauto|].
  rewrite IH; [reflexivity | tauto].
Qed.

Lemma stored_item_incl (hashes hashes' : HashSet) kc :
  incl hashes hashes' -> stored_item hashes kc -> stored_item hashes' kc.
Proof.
  intros Hincl (Hk & Hc & Hh).
  split; [assumption|]. split; [assumption | now apply Hincl].
Qed.

(** A chunk whose fingerprint is not marked is filed under a key the store
    does not hold. *)
Lemma unmarked_key_fresh (hashes : HashSet) (store : Dict DocumentChunk.t)
    (chunk : DocumentChunk.t) :
  Forall (stored_item hashes) store ->
  well_formed_chunk chunk ->
  ~ In (hash_of chunk) hashes ->
  ~ In (ChunkMetadata.chunk_id (DocumentChunk.metadata chunk)) (keys store).
Proof.
  intros Hstore ([i Hid] & Hhash & _) Hfresh Hin.
  unfold keys in Hin. apply in_map_iff in Hin as ([k c] & Hk & Hin).
  rewrite Forall_forall in Hstore.
  destruct (Hstore _ Hin) as (Hkey & ([i' Hid'] & Hhash' & _) & Hmarked).
  simpl in Hk, Hkey, Hid', Hhash', Hmarked.
  assert (Heq : ChunkMetadata.chunk_id (DocumentChunk.metadata c)
                = ChunkMetadata.chunk_id (DocumentChunk.metadata chunk))
    by congruence.
  rewrite Hid, Hid', Hhash, Hhash' in Heq.
  apply make_chunk_id_hash in Heq.
  apply Hfresh. unfold hash_of in *. congruence.
Qed.

(** The loop of [index_content] on a consistent state: the store only
    grows at its end, by one item per chunk counted as indexed; the set
    grows by the same number of fingerprints. *)
Lemma index_loop_appends (chunks : list DocumentChunk.t) :
  forall store hashes indexed skipped,
    Forall (fun c => well_formed_chunk c) chunks ->
    dict_wf store -> NoDup hashes ->
    Forall (stored_item hashes) store ->
    NoDup (map hash_of (values store)) ->
    exists added hashes' indexed' skipped',
      index_loop chunks store hashes indexed skipped
      = ((store ++ map (fun c => (ChunkMetadata.chunk_id (DocumentChunk.metadata c), c))
                       added)%list,
         hashes', indexed', skipped')
      /\ indexed' = (indexed + List.length added)%nat
      /\ (indexed' + skipped' = indexed + skipped + List.length chunks)%nat
      /\ incl added chunks
      /\ List.length hashes' = (List.length hashes + List.length added)%nat
      /\ (forall h, In h hashes' <-> In h hashes \/ In h (map hash_of chunks))
      /\ consistent (mkWorld
                       (store ++ map (fun c => (ChunkMetadata.chunk_id
                                                  (DocumentChunk.metadata c), c))
                                     added)%list
                       hashes' []).
Proof.
  induction chunks as [|c chunks IH];
    intros store hashes indexed skipped Hchunks Hwf Hnd Hstore Hsh.
  - exists [], hashes, indexed, skipped. simpl. rewrite app_nil_r.
    split; [reflexivity|]. split; [lia|]. split; [lia|].
    split; [apply incl_refl|]. split; [lia|]. split; [tauto|].
    repeat split; assumption.
  - inversion Hchunks as [|? ? Hc Hrest]; subst.
    cbn [index_loop].
    change (ChunkMetadata.content_hash (DocumentChunk.metadata c))
      with (hash_of c).
    destruct (is_duplicate (hash_of c) hashes) eqn:Hdup.
    + destruct (IH store hashes indexed (S skipped) Hrest Hwf Hnd Hstore Hsh)
        as (added & hashes' & indexed' & skipped' & Hrun & Hi & Hsum & Hincl
            & Hlen & Hmem & Hcons).
      exists added, hashes', indexed', skipped'. rewrite Hrun.
      split; [reflexivity|]. split; [assumption|].
      split; [simpl; lia|]. split; [now apply incl_tl|].
      split; [assumption|]. split; [|assumption].
      intros h. rewrite Hmem. simpl. split; [tauto|].
      intros [H|[<-|H]]; auto. left. now apply is_duplicate_In.
    + assert (Hfresh : ~ In (hash_of c) hashes).
      { intros H. apply is_duplicate_In in H. congruence. }
      pose proof (unmarked_key_fresh hashes store c Hstore Hc Hfresh) as Hkey.
      rewrite (dict_set_fresh _ _ _ Hkey).
      assert (Hmark : mark_indexed (hash_of c) hashes = hash_of c :: hashes)
        by (unfold mark_indexed; now rewrite Hdup).
      rewrite Hmark.
      destruct (IH (store ++ [(ChunkMetadata.chunk_id (DocumentChunk.metadata c), c)])%list
                   (hash_of c :: hashes) (S indexed) skipped Hrest)
        as (added & hashes' & indexed' & skipped' & Hrun & Hi & Hsum & Hincl
            & Hlen & Hmem & Hcons).
      * unfold dict_wf, keys. rewrite map_app. simpl.
        apply NoDup_app; [exact Hwf | repeat constructor; intros [] |].
        intros x Hx [<-|[]]. exact (Hkey Hx).
      * now constructor.
      * apply Forall_app. split.
        -- eapply Forall_impl; [|exact Hstore].
           intros kc. apply stored_item_incl. now apply incl_tl.
        -- constructor; [|constructor].
           split; [reflexivity|]. split; [assumption | now left].
      * unfold values. rewrite map_app, map_app. simpl.
        apply NoDup_app; [exact Hsh | repeat constructor; intros [] |].
        intros x Hx [<-|[]]. apply Hfresh.
        rewrite in_map_iff in Hx. destruct Hx as (c' & Hc' & Hin).
        rewrite in_map_iff in Hin. destruct Hin as (kc & <- & Hin).
        rewrite Forall_forall in Hstore.
        destruct (Hstore _ Hin) as (_ & _ & Hm). now rewrite <- Hc'.
      * exists (c :: added), hashes', indexed', skipped'.
        rewrite Hrun. simpl. rewrite <- app_assoc. simpl.
        split; [reflexivity|]. split; [lia|].
        split; [lia|]. split.
        { intros x [<-|Hx]; [now left | right; now apply Hincl]. }
        split; [simpl in Hlen; lia|]. split.
        { intros h. rewrite Hmem. simpl. tauto. }
        now rewrite <- app_assoc in Hcons.
Qed.

(** The texts of the default chunking: 1 to 500 words each, single
    spaces between them. *)
Lemma chunk_text_default_texts (content : string) (texts : list string) :
  chunk_text_default content = Some texts ->
  Forall (fun t => Py.join " " (Py.split t) = t
                   /\ (1 <= List.length (Py.split t) <= 500)%nat) texts.
Proof.
  unfold chunk_text_default. intros H.
  rewrite chunk_text_enough_fuel in H by lia.
  set (step := (Z.to_nat 500 - Z.to_nat 50)%nat) in *.
  set (size := Z.to_nat 500) in *.
  set (count := window_count _ step) in *.
  injection H as <-.
  apply Forall_forall. intros t Ht.
  apply in_map_iff in Ht as (k & <- & Hk). apply in_seq in Hk.
  assert (Hlt : (k * step < List.length (Py.split content))%nat).
  { apply window_count_lt; [unfold step; lia | fold count; lia]. }
  rewrite split_join
    by (apply window_tokens, (Runs_tokens _ content), split_Runs).
  split; [reflexivity|].
  unfold window. rewrite length_firstn, length_skipn. unfold size. lia.
Qed.

Lemma expiry_of_infinite (policy : RetentionPolicy) (now : Z) :
  expiry_of policy now = None <-> policy = INFINITE.
Proof. destruct policy; unfold expiry_of; simpl; split; congruence. Qed.

Lemma prepare_loop_chunks (clock : Clock) (agent_id source_type source_id : string)
    (policy : RetentionPolicy) (texts : list string) :
  Forall (fun t => Py.join " " (Py.split t) = t
                   /\ (1 <= List.length (Py.split t) <= 500)%nat) texts ->
  forall tick i,
    Forall (fun c =>
              well_formed_chunk c
              /\ ChunkMetadata.agent_id (DocumentChunk.metadata c) = agent_id
              /\ ChunkMetadata.source_type (DocumentChunk.metadata c) = source_type
              /\ ChunkMetadata.source_id (DocumentChunk.metadata c) = source_id
              /\ ChunkMetadata.retention_policy (DocumentChunk.metadata c) = policy)
           (prepare_loop clock tick i texts agent_id source_type source_id policy).
Proof.
  induction 1 as [|t texts [Hjoin Hlen] _ IH]; intros tick i; simpl;
    constructor; [|apply IH].
  unfold well_formed_chunk. simpl. repeat split; try assumption; try lia.
  - now exists i.
  - now eexists.
Qed.

Lemma consistent_settings (store : Dict DocumentChunk.t) (hashes : HashSet)
    (settings settings' : Dict RetentionPolicy) :
  consistent (mkWorld store hashes settings) ->
  consistent (mkWorld store hashes settings').
Proof. exact (fun H => H). Qed.

(** [index_content] on a consistent state. *)
Lemma index_content_consistent (clock : Clock) (request : IndexRequest.t) (w : World) :
  consistent w ->
  should_index_to_rag (IndexRequest.content request)
                      (IndexRequest.source_type request) = true ->
  exists texts added w' indexed skipped,
    chunk_text_default (IndexRequest.content request) = Some texts
    /\ index_content clock request w
       = Some (w', Success indexed skipped (List.length texts),
               scheduled_tasks request)
    /\ indexed_chunks w'
       = (indexed_chunks w
          ++ map (fun c => (ChunkMetadata.chunk_id (DocumentChunk.metadata c), c))
                 added)%list
    /\ List.length added = indexed
    /\ (indexed + skipped = List.length texts)%nat
    /\ Forall (fun c =>
                 ChunkMetadata.agent_id (DocumentChunk.metadata c)
                 = IndexRequest.agent_id request
                 /\ ChunkMetadata.source_type (DocumentChunk.metadata c)
                    = IndexRequest.source_type request
                 /\ ChunkMetadata.source_id (DocumentChunk.metadata c)
                    = IndexRequest.source_id request
                 /\ ChunkMetadata.retention_policy (DocumentChunk.metadata c)
                    = IndexRequest.retention_policy request) added
    /\ List.length (indexed_hashes w')
       = (List.length (indexed_hashes w) + indexed)%nat
    /\ (forall h, In h (indexed_hashes w')
                  <-> In h (indexed_hashes w) \/ In h (map compute_hash texts))
    /\ retention_settings w' = retention_settings w
    /\ consistent w'.
Proof.
  intros (Hwf & Hnd & Hstore & Hsh) Hgate.
  destruct (chunk_text_default_total (IndexRequest.content request))
    as [texts Htexts].
  pose proof (prepare_loop_chunks clock (IndexRequest.agent_id request)
                (IndexRequest.source_type request)
                (IndexRequest.source_id request)
                (IndexRequest.retention_policy request) texts
                (chunk_text_default_texts _ _ Htexts) 0%nat 0%nat) as Hprep.
  unfold index_content, prepare_chunks. rewrite Hgate, Htexts. simpl.
  set (prepared := prepare_loop _ _ _ _ _ _ _ _) in *.
  assert (Hlen : List.length prepared = List.length texts)
    by apply prepare_loop_length.
  assert (Hhashes : map hash_of prepared = map compute_hash texts)
    by apply prepare_loop_hashes.
  destruct (index_loop_appends prepared (indexed_chunks w) (indexed_hashes w)
              0 0) as (added & hashes' & indexed' & skipped' & Hrun & Hi & Hsum
                       & Hincl & Hlenh & Hmem & Hcons); try assumption.
  { eapply Forall_impl; [|exact Hprep]. now intros c [Hc _]. }
  rewrite Hrun. simpl in Hi, Hsum. subst indexed'.
  exists texts, added. eexists _, _, _.
  rewrite Hlen. split; [reflexivity|]. split; [reflexivity|]. simpl.
  split; [reflexivity|]. split; [reflexivity|]. split; [lia|].
  split.
  { apply Forall_forall. intros c Hc. rewrite Forall_forall in Hprep.
    now destruct (Hprep c (Hincl c Hc)) as [_ H]. }
  split; [assumption|]. split; [now rewrite <- Hhashes|].
  split; [reflexivity | exact Hcons].
Qed.

Lemma retargeted_stored (clock : Clock) (agent_id : string)
    (policy : RetentionPolicy) (lo hi : nat) (hashes : HashSet) old new :
  retargeted clock agent_id policy lo hi old new ->
  stored_item hashes old ->
  stored_item hashes new /\ hash_of (snd new) = hash_of (snd old).
Proof.
  intros [Hk Hc] Hold. destruct new as [k c], old as [k' c'].
  simpl in Hk, Hc. subst k.
  destruct (owned_by agent_id c').
  - destruct Hc as (t & _ & ->).
    destruct Hold as (Hkey & (Hid & Hhash & _ & Hjoin & Hlen & Hemb) & Hin).
    unfold stored_item, well_formed_chunk, hash_of in *.
    simpl in *. repeat split; try assumption; try lia. now eexists.
  - now subst.
Qed.

Lemma Forall2_retargeted_stored (clock : Clock) (agent_id : string)
    (policy : RetentionPolicy) (lo hi : nat) (hashes : HashSet)
    (olds news : Dict DocumentChunk.t) :
  Forall2 (retargeted clock agent_id policy lo hi) olds news ->
  Forall (stored_item hashes) olds ->
  Forall (stored_item hashes) news
  /\ map hash_of (values news) = map hash_of (values olds).
Proof.
  induction 1 as [|old new olds news Hr _ IH]; intros Hstore.
  - split; [constructor | reflexivity].
  - inversion Hstore as [|? ? Hold Holds]; subst.
    destruct (IH Holds) as [IH1 IH2].
    destruct (retargeted_stored _ _ _ _ _ _ _ _ Hr Hold) as [H1 H2].
    split; [now constructor|]. unfold values in *. simpl. congruence.
Qed.

Lemma NoDup_map_filter {A B} (f : A -> B) (g : A -> bool) (l : list A) :
  NoDup (map f l) -> NoDup (map f (filter g l)).
Proof.
  induction l as [|x l IH]; simpl; intros H; [constructor|].
  inversion H as [|? ? Hx Hl]; subst.
  destruct (g x); simpl; [|now apply IH].
  constructor; [|now apply IH].
  intros Hin. apply Hx. apply in_map_iff in Hin as (y & Hy & Hin).
  apply filter_In in Hin as [Hin _]. apply in_map_iff. now exists y.
Qed.

Lemma Step_consistent (w w' : World) : Step w w' -> consistent w -> consistent w'.
Proof.
  intros [clock request w0 w1 response tasks Hrun
         | clock agent_id policy w0
         | now w0 w1 removed Hrun] Hcons.
  - destruct (should_index_to_rag (IndexRequest.content request)
                                  (IndexRequest.source_type request)) eqn:Hgate.
    + destruct (index_content_consistent clock request w0 Hcons Hgate)
        as (texts & added & w2 & i & s & _ & Hrun' & _ & _ & _ & _ & _ & _ & _ & H).
      rewrite Hrun' in Hrun. now injection Hrun as <- _ _.
    + unfold index_content in Hrun. rewrite Hgate in Hrun.
      now injection Hrun as <- _ _.
  - destruct Hcons as (Hwf & Hnd & Hstore & Hsh).
    pose proof (set_retention_policy_wf clock agent_id policy w0 Hwf) as Hwf'.
    unfold set_retention_policy in *.
    pose proof (retention_loop_spec clock agent_id policy (indexed_chunks w0) 0 0)
      as [_ Hall].
    destruct (retention_loop clock 0 agent_id policy (indexed_chunks w0) 0)
      as [store n].
    cbn [fst snd indexed_chunks indexed_hashes] in *.
    destruct (Forall2_retargeted_stored _ _ _ _ _ _ _ _ Hall Hstore)
      as [Hstore' Hsh'].
    unfold consistent. cbn [indexed_chunks indexed_hashes].
    split; [exact Hwf'|]. split; [exact Hnd|]. split; [exact Hstore'|].
    rewrite Hsh'. exact Hsh.
  - destruct Hcons as (Hwf & Hnd & Hstore & Hsh).
    rewrite cleanup_expired_filter in Hrun by assumption.
    injection Hrun as <- _. unfold consistent. simpl.
    split; [|split; [assumption|split]].
    + unfold dict_wf, keys. now apply NoDup_map_filter.
    + apply Forall_forall. intros kc Hin. apply filter_In in Hin as [Hin _].
      rewrite Forall_forall in Hstore. now apply Hstore.
    + unfold values in *. rewrite map_map in *.
      now apply NoDup_map_filter.
Qed.

Lemma Reachable_consistent (w : World) : Reachable w -> consistent w.
Proof.
  induction 1 as [|w w' _ IH Hstep].
  - repeat split; constructor.
  - now apply (Step_consistent w).
Qed.

(** X10.  In every state the service reaches from empty stores, each
    stored chunk is filed under its own [chunk_id], which is
    [agent_source_ordinal_hash] for its own agent, source and hash; its
    hash is the fingerprint of its text and is marked in
    [indexed_hashes]; it has no expiry exactly when its policy is
    [INFINITE]; its text is 1 to 500 words separated by single spaces; it
    has no embedding.  No two stored chunks share a fingerprint, whatever
    their agents. *)
Theorem reachable_store_invariant (w : World) :
  Reachable w ->
  NoDup (keys (indexed_chunks w))
  /\ NoDup (map hash_of (values (indexed_chunks w)))
  /\ NoDup (indexed_hashes w)
  /\ Forall (fun kc =>
               let m := DocumentChunk.metadata (snd kc) in
               let text := DocumentChunk.content (snd kc) in
               fst kc = ChunkMetadata.chunk_id m
               /\ (exists i,
                      ChunkMetadata.chunk_id m
                      = ChunkMetadata.agent_id m ++ "_"
                        ++ ChunkMetadata.source_id m ++ "_"
                        ++ Py.str_of_nat i ++ "_"
                        ++ ChunkMetadata.content_hash m)
               /\ ChunkMetadata.content_hash m = compute_hash text
               /\ In (ChunkMetadata.content_hash m) (indexed_hashes w)
               /\ (ChunkMetadata.expires_at m = None
                   <-> ChunkMetadata.retention_policy m = INFINITE)
               /\ Py.join " " (Py.split text) = text
               /\ (1 <= List.length (Py.split text) <= 500)%nat
               /\ DocumentChunk.embedding (snd kc) = None)
            (indexed_chunks w).
Proof.
  intros Hr. destruct (Reachable_consistent w Hr) as (Hwf & Hnd & Hstore & Hsh).
  split; [exact Hwf|]. split; [exact Hsh|]. split; [exact Hnd|].
  eapply Forall_impl; [|exact Hstore].
  intros [k c] (Hk & (Hid & Hhash & [now Hexp] & Hjoin & Hlen & Hemb) & Hin).
  cbn [fst snd] in *. repeat split; try assumption; try lia.
  - intros H. rewrite Hexp in H. now apply expiry_of_infinite in H.
  - intros H. rewrite Hexp. now apply expiry_of_infinite.
Qed.

Lemma hello_world_reachable : Reachable hello_world.
Proof.
  apply (Reachable_step empty_world); [apply Reachable_start|].
  apply (Step_index demo_clock hello_request empty_world hello_world
                    (Success 1 0 1) (scheduled_tasks hello_request)).
  vm_compute. reflexivity.
Defined.

Lemma reachable_store_invariant_witness :
  NoDup (keys (indexed_chunks hello_world))
  /\ NoDup (map hash_of (values (indexed_chunks hello_world))).
Proof.
  destruct (reachable_store_invariant hello_world hello_world_reachable)
    as (H1 & H2 & _).
  split; [exact H1 | exact H2].
Defined.

(** X11.  The counters of [index_content] in a reachable state:
    [indexed + skipped = total_chunks], and [indexed] is exactly the number
    of fingerprints the call adds to [indexed_hashes], which afterwards
    holds the fingerprints it held before and those of the request's
    chunks, each once. *)
Theorem index_content_counts (clock : Clock) (request : IndexRequest.t) (w : World) :
  Reachable w ->
  should_index_to_rag (IndexRequest.content request)
                      (IndexRequest.source_type request) = true ->
  exists texts w' indexed skipped,
    chunk_text_default (IndexRequest.content request) = Some texts
    /\ index_content clock request w
       = Some (w', Success indexed skipped (List.length texts),
               scheduled_tasks request)
    /\ (indexed + skipped = List.length texts)%nat
    /\ List.length (indexed_hashes w')
       = (List.length (indexed_hashes w) + indexed)%nat
    /\ NoDup (indexed_hashes w')
    /\ (forall h, In h (indexed_hashes w')
                  <-> In h (indexed_hashes w) \/ In h (map compute_hash texts)).
Proof.
  intros Hr Hgate.
  destruct (index_content_consistent clock request w
              (Reachable_consistent w Hr) Hgate)
    as (texts & added & w' & i & s & Htexts & Hrun & _ & _ & Hsum & _ & Hlen
        & Hmem & _ & (_ & Hnd & _)).
  now exists texts, w', i, s.
Qed.

Lemma index_content_counts_witness :
  exists texts w' indexed skipped,
    chunk_text_default (IndexRequest.content hello_request_other) = Some texts
    /\ index_content demo_clock hello_request_other hello_world
       = Some (w', Success indexed skipped (List.length texts),
               scheduled_tasks hello_request_other)
    /\ (indexed + skipped = List.length texts)%nat
    /\ List.length (indexed_hashes w')
       = (List.length (indexed_hashes hello_world) + indexed)%nat
    /\ NoDup (indexed_hashes w')
    /\ (forall h, In h (indexed_hashes w')
                  <-> In h (indexed_hashes hello_world)
                      \/ In h (map compute_hash texts)).
Proof.
  exact (index_content_counts demo_clock hello_request_other hello_world
           hello_world_reachable eq_refl).
Defined.

(** X12.  [index_content] never overwrites or changes a stored chunk: in a
    reachable state the store afterwards is the store before followed by
    the newly indexed chunks, exactly [indexed] of them, each filed under
    its [chunk_id] and carrying the agent, source, source type and policy
    of the request. *)
Theorem index_content_appends (clock : Clock) (request : IndexRequest.t) (w : World) :
  Reachable w ->
  should_index_to_rag (IndexRequest.content request)
                      (IndexRequest.source_type request) = true ->
  exists added w' indexed skipped total,
    index_content clock request w
    = Some (w', Success indexed skipped total, scheduled_tasks request)
    /\ indexed_chunks w' = (indexed_chunks w ++ added)%list
    /\ List.length added = indexed
    /\ Forall (fun kc =>
                 let m := DocumentChunk.metadata (snd kc) in
                 fst kc = ChunkMetadata.chunk_id m
                 /\ ChunkMetadata.agent_id m = IndexRequest.agent_id request
                 /\ ChunkMetadata.source_type m = IndexRequest.source_type request
                 /\ ChunkMetadata.source_id m = IndexRequest.source_id request
                 /\ ChunkMetadata.retention_policy m
                    = IndexRequest.retention_policy request)
              added.
Proof.
  intros Hr Hgate.
  destruct (index_content_consistent clock request w
              (Reachable_consistent w Hr) Hgate)
    as (texts & added & w' & i & s & _ & Hrun & Hstore & Hlen & _ & Hadded & _).
  eexists _, w', i, s, _. split; [exact Hrun|]. split; [exact Hstore|].
  split; [now rewrite length_map|].
  apply Forall_map. eapply Forall_impl; [|exact Hadded].
  intros c H. cbn [fst snd]. now split.
Qed.

Lemma index_content_appends_witness :
  exists added w' indexed skipped total,
    index_content demo_clock tie_first hello_world
    = Some (w', Success indexed skipped total, scheduled_tasks tie_first)
    /\ indexed_chunks w' = (indexed_chunks hello_world ++ added)%list
    /\ List.length added = indexed
    /\ Forall (fun kc =>
                 let m := DocumentChunk.metadata (snd kc) in
                 fst kc = ChunkMetadata.chunk_id m
                 /\ ChunkMetadata.agent_id m = IndexRequest.agent_id tie_first
                 /\ ChunkMetadata.source_type m = IndexRequest.source_type tie_first
                 /\ ChunkMetadata.source_id m = IndexRequest.source_id tie_first
                 /\ ChunkMetadata.retention_policy m
                    = IndexRequest.retention_policy tie_first)
              added.
Proof.
  exact (index_content_appends demo_clock tie_first hello_world
           hello_world_reachable eq_refl).
Defined.

(** X13.  A request that passes the gate is cut into
    [ceil(words / 450)] chunks; a content without any word (a blank
    document) passes as well, is answered with three zero counts and
    changes nothing. *)
Theorem index_content_chunk_count (clock : Clock) (request : IndexRequest.t)
    (w : World) :
  should_index_to_rag (IndexRequest.content request)
                      (IndexRequest.source_type request) = true ->
  let words := List.length (Py.split (IndexRequest.content request)) in
  exists w' indexed skipped,
    index_content clock request w
    = Some (w', Success indexed skipped ((words + 449) / 450),
            scheduled_tasks request)
    /\ (words = 0%nat -> w' = w /\ indexed = 0%nat /\ skipped = 0%nat).
Proof.
  intros Hgate words.
  destruct (index_content_marks clock request w Hgate)
    as (texts & w' & i & s & Htexts & Hrun & _ & _ & Hsum & _).
  assert (Hlen : List.length texts = ((words + 449) / 450)%nat).
  { transitivity (window_count words 450).
    - pose proof Htexts as Hcut. unfold chunk_text_default in Hcut.
      rewrite chunk_text_enough_fuel in Hcut by lia.
      set (count := window_count _ _) in Hcut.
      injection Hcut as Hcut. rewrite <- Hcut, length_map, length_seq.
      reflexivity.
    - unfold window_count. f_equal. lia. }
  exists w', i, s. rewrite <- Hlen. split; [exact Hrun|].
  intros H0.
  assert (Hnil : texts = []).
  { destruct texts; [reflexivity|]. rewrite H0 in Hlen. discriminate. }
  subst texts. simpl in Hsum.
  unfold index_content, prepare_chunks in Hrun.
  rewrite Hgate, Htexts in Hrun. simpl in Hrun.
  injection Hrun as <- <- <-. now destruct w.
Qed.

Lemma index_content_chunk_count_witness :
  exists w' indexed skipped,
    index_content demo_clock
      (IndexRequest.mk "   " "a" "document" "s" false INFINITE) hello_world
    = Some (w', Success indexed skipped 0, [])
    /\ (0%nat = 0%nat -> w' = hello_world /\ indexed = 0%nat /\ skipped = 0%nat).
Proof.
  exact (index_content_chunk_count demo_clock
           (IndexRequest.mk "   " "a" "document" "s" false INFINITE)
           hello_world eq_refl).
Defined.

(* ================================================================== *)
(** * Grouping loops *)
(* ================================================================== *)

Lemma dict_set_set {V} (k : string) (v1 v2 : V) (d : Dict V) :
  dict_set k v2 (dict_set k v1 d) = dict_set k v2 d.
Proof.
  induction d as [|[k' v'] d IH]; simpl.
  - now rewrite String.eqb_refl.
  - destruct (String.eqb k k') eqn:E; simpl.
    + now rewrite String.eqb_refl.
    + now rewrite E, IH.
Qed.

Lemma dict_mem_get {V} (k : string) (d : Dict V) :
  dict_mem k d = match dict_get k d with Some _ => true | None => false end.
Proof.
  unfold dict_mem. induction d as [|[k' v'] d IH]; simpl; [reflexivity|].
  destruct (String.eqb k k'); [reflexivity | exact IH].
Qed.

Lemma dict_get_not_in {V} (k : string) (d : Dict V) :
  ~ In k (keys d) -> dict_get k d = None.
Proof.
  induction d as [|[k' v'] d IH]; simpl; intros H; [reflexivity|].
  destruct (String.eqb_spec k k') as [->|Hne]; [tauto|]. apply IH. tauto.
Qed.

(** The values of a dictionary are what its keys look up, in order. *)
Lemma values_by_keys {V} (d : Dict V) :
  dict_wf d -> map Some (values d) = map (fun k => dict_get k d) (keys d).
Proof.
  unfold dict_wf. induction d as [|[k v] d IH]; simpl; intros Hwf;
    [reflexivity|].
  inversion Hwf as [|? ? Hk Hd]; subst.
  rewrite String.eqb_refl, (IH Hd). f_equal.
  apply map_ext_in. intros k' Hk'.
  destruct (String.eqb_spec k' k) as [->|_]; [tauto | reflexivity].
Qed.

Lemma dict_set_sum {V} (f : V -> nat) (k : string) (v : V) (d : Dict V) :
  (list_sum (map f (values (dict_set k v d)))
   + match dict_get k d with Some s => f s | None => 0 end
   = list_sum (map f (values d)) + f v)%nat.
Proof.
  induction d as [|[k' v'] d IH]; simpl; [lia|].
  destruct (String.eqb k k'); simpl; [lia|].
  lia.
Qed.

Lemma filter_filter_and {A} (f g : A -> bool) (l : list A) :
  filter f (filter g l) = filter (fun x => g x && f x) l.
Proof.
  induction l as [|x l IH]; simpl; [reflexivity|].
  destruct (g x); simpl; [destruct (f x)|]; now rewrite IH.
Qed.

Lemma first_occurrences_In (x : string) (l : list string) :
  In x (first_occurrences l) <-> In x l.
Proof.
  induction l as [|y l IH]; simpl; [tauto|].
  rewrite filter_In, IH, negb_true_iff.
  destruct (String.eqb_spec y x) as [->|Hne]; [tauto|].
  split; [tauto | intros [H|H]; [congruence | tauto]].
Qed.

Lemma first_occurrences_NoDup (l : list string) : NoDup (first_occurrences l).
Proof.
  induction l as [|y l IH]; simpl; constructor.
  - rewrite filter_In, String.eqb_refl. simpl. intros [_ H]. discriminate.
  - now apply NoDup_filter.
Qed.

Section GroupBy.

Context {V S : Type}.
Variable key : V -> string.
Variable init : V -> S.
Variable bump : S -> V -> S.

Lemma group_step_get (k : string) (acc : Dict S) (x : V) :
  dict_get k (group_step key init bump acc x) = track key init bump k (dict_get k acc) x.
Proof.
  unfold group_step, track.
  destruct (String.eqb_spec (key x) k) as [<-|Hne].
  - now rewrite dict_get_set.
  - now rewrite dict_get_set_other.
Qed.

Lemma group_fold_get (k : string) (items : list V) :
  forall acc,
    dict_get k (fold_left (group_step key init bump) items acc)
    = fold_left (track key init bump k) items (dict_get k acc).
Proof.
  induction items as [|x items IH]; intros acc; simpl; [reflexivity|].
  now rewrite IH, group_step_get.
Qed.

Lemma track_some (k : string) (items : list V) :
  forall s,
    fold_left (track key init bump k) items (Some s)
    = Some (fold_left bump (filter (fun x => String.eqb (key x) k) items) s).
Proof.
  induction items as [|x items IH]; intros s; simpl; [reflexivity|].
  unfold track at 2. destruct (String.eqb (key x) k); simpl; apply IH.
Qed.

Lemma track_none (k : string) (items : list V) :
  fold_left (track key init bump k) items None
  = group_state init bump (filter (fun x => String.eqb (key x) k) items).
Proof.
  induction items as [|x items IH]; simpl; [reflexivity|].
  unfold track at 2. destruct (String.eqb (key x) k); simpl; [|exact IH].
  apply track_some.
Qed.

Lemma group_fold_keys (items : list V) :
  forall acc,
    keys (fold_left (group_step key init bump) items acc)
    = (keys acc
       ++ filter (fun k => negb (existsb (String.eqb k) (keys acc)))
                 (first_occurrences (map key items)))%list.
Proof.
  induction items as [|x items IH]; intros acc; simpl.
  - now rewrite app_nil_r.
  - rewrite IH. unfold group_step. rewrite dict_set_keys.
    destruct (existsb (String.eqb (key x)) (keys acc)) eqn:E; simpl.
    + f_equal. rewrite filter_filter_and. apply filter_ext.
      intros k. destruct (String.eqb_spec (key x) k) as [<-|Hne]; simpl.
      * now rewrite E.
      * reflexivity.
    + rewrite <- app_assoc. simpl. do 2 f_equal.
      rewrite filter_filter_and. apply filter_ext. intros k.
      rewrite existsb_app. simpl. rewrite orb_false_r, negb_orb.
      rewrite (String.eqb_sym k (key x)). apply andb_comm.
Qed.

Lemma group_fold_wf (items : list V) :
  forall acc, dict_wf acc ->
              dict_wf (fold_left (group_step key init bump) items acc).
Proof.
  induction items as [|x items IH]; intros acc Hwf; simpl; [assumption|].
  apply IH. now apply dict_set_wf.
Qed.

(** The groups, from empty: one entry per distinct key, in the order of
    first occurrence, each the state of the items of its key. *)
Lemma group_fold_values (items : list V) :
  map Some (values (fold_left (group_step key init bump) items []))
  = map (fun k => group_state init bump
                    (filter (fun x => String.eqb (key x) k) items))
        (first_occurrences (map key items)).
Proof.
  rewrite values_by_keys by (apply group_fold_wf; constructor).
  rewrite group_fold_keys. simpl.
  rewrite filter_true. apply map_ext. intros k.
  rewrite group_fold_get. simpl. apply track_none.
Qed.

(** A count kept per group adds up to the number of items. *)
Lemma group_fold_total (f : S -> nat) (items : list V) :
  (forall x, f (bump (init x) x) = 1%nat) ->
  (forall s x, f (bump s x) = (f s + 1)%nat) ->
  forall acc,
    list_sum (map f (values (fold_left (group_step key init bump) items acc)))
    = (list_sum (map f (values acc)) + List.length items)%nat.
Proof.
  intros Hinit Hbump.
  induction items as [|x items IH]; intros acc; simpl; [lia|].
  rewrite IH. unfold group_step.
  pose proof (dict_set_sum f (key x)
                (bump (match dict_get (key x) acc with
                       | Some s => s
                       | None => init x
                       end) x) acc) as H.
  destruct (dict_get (key x) acc) as [s|].
  - rewrite Hbump in H. lia.
  - rewrite Hinit in H. lia.
Qed.

End GroupBy.

(** ** The greatest element kept by a loop *)

Section KeepMax.

Context {T : Type}.
Variable ltb : T -> T -> bool.
Hypothesis ltb_irrefl : forall x, ltb x x = false.
Hypothesis ltb_trans :
  forall x y z, ltb x y = true -> ltb y z = true -> ltb x z = true.
Hypothesis ltb_total :
  forall x y, ltb x y = false -> ltb y x = false -> x = y.

Lemma keep_max_from (l : list T) :
  forall b,
    exists m, fold_left (keep_max ltb) l (Some b) = Some m
              /\ (m = b \/ In m l)
              /\ ltb m b = false
              /\ Forall (fun x => ltb m x = false) l.
Proof.
  induction l as [|x l IH]; intros b; simpl.
  - exists b. split; [reflexivity|]. split; [now left|].
    split; [apply ltb_irrefl | constructor].
  - destruct (ltb b x) eqn:E.
    + destruct (IH x) as (m & Hm & Hin & Hx & Hall).
      exists m. split; [exact Hm|]. split; [destruct Hin; auto|].
      assert (Hb : ltb m b = false).
      { destruct (ltb m b) eqn:Emb; [|reflexivity].
        rewrite (ltb_trans _ _ _ Emb E) in Hx. discriminate. }
      split; [exact Hb | now constructor].
    + destruct (IH b) as (m & Hm & Hin & Hb & Hall).
      exists m. split; [exact Hm|]. split; [destruct Hin; auto|].
      split; [exact Hb|]. constructor; [|exact Hall].
      destruct (ltb m x) eqn:Emx; [|reflexivity].
      destruct (ltb b m) eqn:Ebm.
      * rewrite (ltb_trans _ _ _ Ebm Emx) in E. discriminate.
      * rewrite (ltb_total _ _ Hb Ebm) in Emx. congruence.
Qed.

End KeepMax.

(* ================================================================== *)
(** * The statistics endpoints *)
(* ================================================================== *)

Lemma weaviate_step_group (stats : Dict RAGStats.t) (chunk : DocumentChunk.t) :
  weaviate_step stats chunk
  = Some (group_step collection_of weaviate_init weaviate_bump stats chunk).
Proof.
  unfold weaviate_step, group_step.
  fold (collection_of chunk). rewrite dict_mem_get.
  set (k := collection_of chunk).
  unfold weaviate_bump, weaviate_init, keep_max, chunk_size_mb.
  fold k.
  destruct (dict_get k stats) as [s|] eqn:Hget; cbn [negb bind].
  - rewrite Hget. cbn [bind]. rewrite !dict_get_set. cbn [bind].
    rewrite !dict_get_set. cbn [bind]. rewrite !dict_set_set.
    cbn [RAGStats.collection_name RAGStats.object_count RAGStats.last_indexed
         RAGStats.size_mb RAGStats.retention_policy].
    destruct (RAGStats.last_indexed s) as [last|];
      [destruct (last <? _)|]; reflexivity.
  - rewrite !dict_get_set. cbn [bind]. rewrite !dict_get_set. cbn [bind].
    rewrite !dict_get_set. cbn [bind]. rewrite !dict_set_set.
    reflexivity.
Qed.

Lemma weaviate_loop_group (chunks : list DocumentChunk.t) :
  forall stats,
    weaviate_loop chunks stats
    = Some (fold_left (group_step collection_of weaviate_init weaviate_bump)
                      chunks stats).
Proof.
  induction chunks as [|c chunks IH]; intros stats; simpl; [reflexivity|].
  rewrite weaviate_step_group. cbn [bind]. apply IH.
Qed.

Lemma collections_step_group (collections : Dict Collection.t)
    (chunk : DocumentChunk.t) :
  collections_step collections chunk
  = Some (group_step agent_of collection_init collection_bump collections chunk).
Proof.
  unfold collections_step, group_step.
  fold (agent_of chunk). rewrite dict_mem_get.
  set (k := agent_of chunk).
  unfold collection_bump, collection_init, keep_max, collection_of.
  fold (agent_of chunk). fold k.
  destruct (dict_get k collections) as [c|] eqn:Hget; cbn [negb bind].
  - rewrite Hget. cbn [bind]. repeat (rewrite dict_get_set; cbn [bind]).
    cbn [Collection.name Collection.chunks Collection.last_indexed
         Collection.retention].
    destruct (Collection.last_indexed c) as [last|];
      [destruct (String.ltb last _)|];
      repeat (rewrite dict_get_set; cbn [bind]);
      rewrite ?dict_set_set; reflexivity.
  - repeat (rewrite dict_get_set; cbn [bind]).
    cbn [Collection.name Collection.chunks Collection.last_indexed
         Collection.retention].
    repeat (rewrite dict_get_set; cbn [bind]).
    rewrite !dict_set_set. reflexivity.
Qed.

Lemma collections_loop_group (chunks : list DocumentChunk.t) :
  forall collections,
    collections_loop chunks collections
    = Some (fold_left (group_step agent_of collection_init collection_bump)
                      chunks collections).
Proof.
  induction chunks as [|c chunks IH]; intros collections; simpl;
    [reflexivity|].
  rewrite collections_step_group. cbn [bind]. apply IH.
Qed.

Lemma map_Some_Forall2 {A B} (g : A -> option B) (l : list A) :
  forall l', map Some l' = map g l -> Forall2 (fun a b => g a = Some b) l l'.
Proof.
  induction l as [|a l IH]; intros [|b l'] H; try discriminate;
    [constructor|].
  simpl in H. inversion H as [[Hb Hl]]. constructor; [now rewrite <- Hb|].
  now apply IH.
Qed.

Lemma first_occurrences_map (f : string -> string) (l : list string) :
  (forall x y, String.eqb (f x) (f y) = String.eqb x y) ->
  first_occurrences (map f l) = map f (first_occurrences l).
Proof.
  intros Hf. induction l as [|x l IH]; simpl; [reflexivity|].
  rewrite IH. f_equal. clear IH.
  induction (first_occurrences l) as [|y ys IHy]; simpl; [reflexivity|].
  rewrite Hf. destruct (String.eqb x y); simpl; now rewrite IHy.
Qed.

Lemma collection_prefix_eqb (x y : string) :
  String.eqb ("OpenClaw_Agent_" ++ x) ("OpenClaw_Agent_" ++ y) = String.eqb x y.
Proof. reflexivity. Qed.

(** The entries of [get_weaviate_stats]: one per agent that owns a chunk,
    in the order the agents first occur in the store, each the state of the
    agent's chunks. *)
Lemma weaviate_groups (w : World) :
  exists stats,
    get_weaviate_stats w = Some stats
    /\ Forall2 (fun a s =>
                  group_state weaviate_init weaviate_bump (chunks_of a w)
                  = Some s)
               (agents_of w) stats
    /\ list_sum (map RAGStats.object_count stats)
       = List.length (indexed_chunks w).
Proof.
  unfold get_weaviate_stats. rewrite weaviate_loop_group. cbn [bind].
  eexists. split; [reflexivity|]. split.
  - apply map_Some_Forall2. rewrite group_fold_values.
    unfold agents_of, chunks_of.
    replace (map collection_of (values (indexed_chunks w)))
      with (map (append "OpenClaw_Agent_")
                (map agent_of (values (indexed_chunks w))))
      by (rewrite map_map; reflexivity).
    rewrite first_occurrences_map by apply collection_prefix_eqb.
    rewrite map_map. apply map_ext. intros a. f_equal.
  - rewrite group_fold_total.
    + simpl. unfold values. now rewrite length_map.
    + reflexivity.
    + reflexivity.
Qed.

(** ** One group of [get_weaviate_stats] *)

Lemma Z_keep_max_from (l : list Z) (b : Z) :
  exists m, fold_left (keep_max Z.ltb) l (Some b) = Some m
            /\ (m = b \/ In m l)
            /\ b <= m
            /\ Forall (fun x => x <= m) l.
Proof.
  destruct (keep_max_from Z.ltb Z.ltb_irrefl) with (l := l) (b := b)
    as (m & Hm & Hin & Hb & Hall).
  - intros x y z. rewrite !Z.ltb_lt. lia.
  - intros x y. rewrite !Z.ltb_ge. lia.
  - exists m. split; [exact Hm|]. split; [exact Hin|].
    split; [now apply Z.ltb_ge|].
    eapply Forall_impl; [|exact Hall]. intros x. now rewrite Z.ltb_ge.
Qed.

Lemma weaviate_fold (chunks : list DocumentChunk.t) :
  forall s,
    let s' := fold_left weaviate_bump chunks s in
    RAGStats.collection_name s' = RAGStats.collection_name s
    /\ RAGStats.retention_policy s' = RAGStats.retention_policy s
    /\ RAGStats.object_count s'
       = (RAGStats.object_count s + List.length chunks)%nat
    /\ RAGStats.last_indexed s'
       = fold_left (keep_max Z.ltb) (map timestamp_of chunks)
                   (RAGStats.last_indexed s)
    /\ (RAGStats.size_mb s'
        == RAGStats.size_mb s
           + inject_Z (Z.of_nat (list_sum (map (fun c => String.length
                                                  (DocumentChunk.content c))
                                               chunks)))
             / 1048576)%Q.
Proof.
  induction chunks as [|c chunks IH]; intros s; cbn zeta.
  - simpl. repeat split; try lia. unfold Qdiv. ring.
  - cbn [fold_left map]. destruct (IH (weaviate_bump s c))
      as (Hn & Hp & Hc & Hl & Hs).
    rewrite Hn, Hp, Hc, Hl. cbn [weaviate_bump RAGStats.collection_name
      RAGStats.retention_policy RAGStats.object_count RAGStats.last_indexed
      RAGStats.size_mb] in *.
    repeat split; [simpl; lia|].
    rewrite Hs. unfold chunk_size_mb. cbn [list_sum fold_right].
    fold (list_sum (map (fun c => String.length (DocumentChunk.content c))
                        chunks)).
    rewrite Nat2Z.inj_add, inject_Z_plus. field.
Qed.

(** X14.  [get_weaviate_stats] returns one entry per agent that owns a
    stored chunk, in the order in which the agents first occur in the
    store.  The entry of an agent is named [OpenClaw_Agent_<agent>], counts
    the agent's chunks, reports the policy of the agent's first chunk (not
    the policy set for the agent, and not that of later chunks), and as
    [last_indexed] the greatest timestamp among the agent's chunks. *)
Theorem get_weaviate_stats_groups (w : World) :
  exists stats,
    get_weaviate_stats w = Some stats
    /\ Forall2 (fun a s =>
                  RAGStats.collection_name s = "OpenClaw_Agent_" ++ a
                  /\ RAGStats.object_count s = List.length (chunks_of a w)
                  /\ hd_error (map policy_of (chunks_of a w))
                     = Some (RAGStats.retention_policy s)
                  /\ exists t,
                      RAGStats.last_indexed s = Some t
                      /\ In t (map timestamp_of (chunks_of a w))
                      /\ Forall (fun t' => t' <= t)
                                (map timestamp_of (chunks_of a w)))
               (agents_of w) stats.
Proof.
  destruct (weaviate_groups w) as (stats & Hrun & Hall & _).
  exists stats. split; [exact Hrun|].
  eapply Forall2_impl; [|exact Hall]. intros a s Hs.
  assert (Hown : Forall (fun c => agent_of c = a) (chunks_of a w)).
  { apply Forall_forall. intros c Hc. apply filter_In in Hc as [_ Hc].
    unfold owned_by in Hc. now apply String.eqb_eq in Hc. }
  cbv beta in Hs.
  destruct (chunks_of a w) as [|x rest]; cbn [group_state] in Hs;
    [discriminate|].
  injection Hs as <-.
  destruct (weaviate_fold rest (weaviate_bump (weaviate_init x) x))
    as (Hn & Hp & Hc & Hl & _).
  rewrite Hn, Hp, Hc, Hl. inversion Hown as [|? ? Hx _]; subst.
  cbn [weaviate_bump weaviate_init RAGStats.collection_name
       RAGStats.retention_policy RAGStats.object_count RAGStats.last_indexed
       keep_max].
  split; [reflexivity|]. split; [simpl; lia|]. split; [reflexivity|].
  destruct (Z_keep_max_from (map timestamp_of rest)
              (ChunkMetadata.timestamp (DocumentChunk.metadata x)))
    as (m & Hm & Hin & Hb & Hle).
  exists m. split; [exact Hm|]. split.
  - simpl. destruct Hin as [->|Hin]; [now left | now right].
  - simpl. now constructor.
Qed.

(** X15.  The counts and sizes of [get_weaviate_stats] add up: the
    [object_count]s of all entries sum to the number of stored chunks, and
    the [size_mb] of an agent's entry is the number of characters of the
    agent's chunks divided by [1024 * 1024]. *)
Theorem get_weaviate_stats_totals (w : World) :
  exists stats,
    get_weaviate_stats w = Some stats
    /\ list_sum (map RAGStats.object_count stats)
       = List.length (indexed_chunks w)
    /\ Forall2 (fun a s =>
                  (RAGStats.size_mb s
                   == inject_Z (Z.of_nat
                        (list_sum (map (fun c => String.length
                                                   (DocumentChunk.content c))
                                       (chunks_of a w))))
                      / 1048576)%Q)
               (agents_of w) stats.
Proof.
  destruct (weaviate_groups w) as (stats & Hrun & Hall & Hsum).
  exists stats. split; [exact Hrun|]. split; [exact Hsum|].
  eapply Forall2_impl; [|exact Hall]. intros a s Hs. cbv beta in Hs.
  destruct (chunks_of a w) as [|x rest]; cbn [group_state] in Hs;
    [discriminate|].
  injection Hs as <-.
  destruct (weaviate_fold rest (weaviate_bump (weaviate_init x) x))
    as (_ & _ & _ & _ & Hsize).
  rewrite Hsize.
  cbn [weaviate_bump weaviate_init RAGStats.size_mb map list_sum fold_right].
  fold (list_sum (map (fun c => String.length (DocumentChunk.content c)) rest)).
  unfold chunk_size_mb. rewrite Nat2Z.inj_add, inject_Z_plus. field.
Qed.

(** ** The order of strings *)

Lemma string_ltb_irrefl (s : string) : String.ltb s s = false.
Proof.
  unfold String.ltb. pose proof (String.compare_antisym s s) as H.
  destruct (String.compare s s); simpl in H; congruence.
Qed.

Lemma string_ltb_total (x y : string) :
  String.ltb x y = false -> String.ltb y x = false -> x = y.
Proof.
  unfold String.ltb. rewrite (String.compare_antisym y x).
  destruct (String.compare x y) eqn:E; simpl; try discriminate.
  intros _ _. now apply String.compare_eq_iff.
Qed.

Lemma ascii_compare_lt_trans (a b c : ascii) :
  Ascii.compare a b = Lt -> Ascii.compare b c = Lt -> Ascii.compare a c = Lt.
Proof.
  unfold Ascii.compare. rewrite !N.compare_lt_iff. apply N.lt_trans.
Qed.

Lemma string_compare_lt_trans (x : string) :
  forall y z,
    String.compare x y = Lt -> String.compare y z = Lt ->
    String.compare x z = Lt.
Proof.
  induction x as [|a x IH]; intros [|b y] [|c z]; simpl;
    try discriminate; try reflexivity.
  destruct (Ascii.compare a b) eqn:Eab; try discriminate;
    destruct (Ascii.compare b c) eqn:Ebc; try discriminate; intros Hxy Hyz.
  - apply Ascii.compare_eq_iff in Eab, Ebc. subst.
    pose proof (Ascii.compare_antisym c c) as H.
    destruct (Ascii.compare c c); simpl in H; try congruence.
    now apply (IH y).
  - apply Ascii.compare_eq_iff in Eab. subst. now rewrite Ebc.
  - apply Ascii.compare_eq_iff in Ebc. subst. now rewrite Eab.
  - now rewrite (ascii_compare_lt_trans _ _ _ Eab Ebc).
Qed.

Lemma string_ltb_trans (x y z : string) :
  String.ltb x y = true -> String.ltb y z = true -> String.ltb x z = true.
Proof.
  unfold String.ltb.
  destruct (String.compare x y) eqn:Exy; try discriminate.
  destruct (String.compare y z) eqn:Eyz; try discriminate.
  now rewrite (string_compare_lt_trans _ _ _ Exy Eyz).
Qed.

Lemma collection_fold (chunks : list DocumentChunk.t) :
  forall c,
    let c' := fold_left collection_bump chunks c in
    Collection.name c' = Collection.name c
    /\ Collection.retention c' = Collection.retention c
    /\ Collection.chunks c' = (Collection.chunks c + List.length chunks)%nat
    /\ Collection.last_indexed c'
       = fold_left (keep_max String.ltb)
                   (map (fun x => isoformat (timestamp_of x)) chunks)
                   (Collection.last_indexed c).
Proof.
  induction chunks as [|x chunks IH]; intros c; cbn zeta.
  - simpl. repeat split. lia.
  - cbn [fold_left map]. destruct (IH (collection_bump c x))
      as (Hn & Hp & Hc & Hl).
    rewrite Hn, Hp, Hc, Hl. simpl. repeat split. lia.
Qed.

(** X16.  [list_collections] returns one dictionary per agent that owns a
    stored chunk, in the order in which the agents first occur in the
    store: its name is [OpenClaw_Agent_<agent>], [chunks] counts the
    agent's chunks, [retention] is the policy of the agent's first chunk,
    and [last_indexed] is, among the ISO strings of the timestamps of the
    agent's chunks, the greatest one in string order.  The counts sum to
    the number of stored chunks. *)
Theorem list_collections_groups (w : World) :
  exists collections,
    list_collections w = Some collections
    /\ Forall2 (fun a c =>
                  Collection.name c = "OpenClaw_Agent_" ++ a
                  /\ Collection.chunks c = List.length (chunks_of a w)
                  /\ hd_error (map policy_of (chunks_of a w))
                     = Some (Collection.retention c)
                  /\ exists ts,
                      Collection.last_indexed c = Some ts
                      /\ In ts (map (fun x => isoformat (timestamp_of x))
                                    (chunks_of a w))
                      /\ Forall (fun ts' => String.ltb ts ts' = false)
                                (map (fun x => isoformat (timestamp_of x))
                                     (chunks_of a w)))
               (agents_of w) collections
    /\ list_sum (map Collection.chunks collections)
       = List.length (indexed_chunks w).
Proof.
  unfold list_collections. rewrite collections_loop_group. cbn [bind].
  eexists. split; [reflexivity|]. split.
  - assert (Hall : Forall2 (fun a c =>
                      group_state collection_init collection_bump
                                  (chunks_of a w) = Some c)
                     (agents_of w)
                     (values (fold_left
                                (group_step agent_of collection_init
                                            collection_bump)
                                (values (indexed_chunks w)) []))).
    { apply map_Some_Forall2. rewrite group_fold_values. reflexivity. }
    eapply Forall2_impl; [|exact Hall]. intros a c Hc. cbv beta in Hc.
    assert (Hown : Forall (fun x => agent_of x = a) (chunks_of a w)).
    { apply Forall_forall. intros x Hx. apply filter_In in Hx as [_ Hx].
      unfold owned_by in Hx. now apply String.eqb_eq in Hx. }
    destruct (chunks_of a w) as [|x rest]; cbn [group_state] in Hc;
      [discriminate|].
    injection Hc as <-.
    destruct (collection_fold rest (collection_bump (collection_init x) x))
      as (Hn & Hp & Hcount & Hl).
    rewrite Hn, Hp, Hcount, Hl. inversion Hown as [|? ? Hx _]; subst.
    cbn [collection_bump collection_init Collection.name Collection.retention
         Collection.chunks Collection.last_indexed keep_max].
    split; [reflexivity|]. split; [simpl; lia|]. split; [reflexivity|].
    destruct (keep_max_from String.ltb string_ltb_irrefl string_ltb_trans
                string_ltb_total
                (map (fun x => isoformat (timestamp_of x)) rest)
                (isoformat (ChunkMetadata.timestamp (DocumentChunk.metadata x))))
      as (m & Hm & Hin & Hb & Hle).
    exists m. split; [exact Hm|]. split.
    + simpl. destruct Hin as [->|Hin]; [now left | now right].
    + simpl. now constructor.
  - rewrite group_fold_total.
    + simpl. unfold values. now rewrite length_map.
    + reflexivity.
    + reflexivity.
Qed.

(* ================================================================== *)
(** * The entity graph *)
(* ================================================================== *)

Lemma count_fold {V} (items : list V) (n : nat) :
  fold_left (fun (m : nat) (_ : V) => (m + 1)%nat) items n
  = (n + List.length items)%nat.
Proof.
  revert n. induction items as [|x items IH]; intros n; simpl; [lia|].
  rewrite IH. lia.
Qed.

Lemma py_max_keep_max (l : list Z) (x : Z) :
  fold_left (keep_max Z.ltb) l (Some x)
  = Some (fold_left (fun best y => if best <? y then y else best) l x).
Proof.
  revert x. induction l as [|y l IH]; intros x; simpl; [reflexivity|].
  destruct (x <? y); apply IH.
Qed.

(** X17.  [get_neo4j_stats] never fails.  It reports the number of nodes
    and of relations; [nodes_by_label] holds one entry per label that
    occurs, in the order of first occurrence, with the number of nodes of
    that label, and no entry for a label that does not occur, so its
    values sum to [total_nodes]; [last_updated] is null exactly when there
    is no node and otherwise the greatest timestamp of a node. *)
Theorem get_neo4j_stats_spec (Any : Type) (g : Graph Any) :
  let nodes := values (graph_nodes g) in
  exists stats,
    get_neo4j_stats g = Some stats
    /\ GraphStats.total_nodes stats = List.length (graph_nodes g)
    /\ GraphStats.total_relationships stats = List.length (graph_relations g)
    /\ keys (GraphStats.nodes_by_label stats)
       = first_occurrences (map GraphNode.label nodes)
    /\ (forall label,
          dict_get label (GraphStats.nodes_by_label stats)
          = let n := List.length
                       (filter (fun x => String.eqb (GraphNode.label x) label)
                               nodes) in
            if (n =? 0)%nat then None else Some n)
    /\ list_sum (values (GraphStats.nodes_by_label stats))
       = GraphStats.total_nodes stats
    /\ (GraphStats.last_updated stats = None <-> graph_nodes g = [])
    /\ (forall t, GraphStats.last_updated stats = Some t ->
                  In t (map GraphNode.timestamp nodes)
                  /\ Forall (fun t' => t' <= t)
                            (map GraphNode.timestamp nodes)).
Proof.
  intros nodes. unfold get_neo4j_stats. fold nodes.
  change (fold_left count_label nodes [])
    with (fold_left (group_step (@GraphNode.label Any) (fun _ => 0%nat)
                                (fun n _ => (n + 1)%nat)) nodes []).
  set (by_label := fold_left (group_step (@GraphNode.label Any)
                                         (fun _ => 0%nat)
                                         (fun n _ => (n + 1)%nat)) nodes []).
  assert (Hkeys : keys by_label = first_occurrences (map GraphNode.label nodes)).
  { unfold by_label. rewrite group_fold_keys. simpl. apply filter_true. }
  assert (Hget : forall label,
             dict_get label by_label
             = let n := List.length
                          (filter (fun x => String.eqb (GraphNode.label x) label)
                                  nodes) in
               if (n =? 0)%nat then None else Some n).
  { intros label. unfold by_label. rewrite group_fold_get. simpl dict_get.
    rewrite track_none.
    destruct (filter _ nodes) as [|x rest]; [reflexivity|].
    cbn [group_state]. rewrite count_fold. reflexivity. }
  assert (Hsum : list_sum (values by_label) = List.length (graph_nodes g)).
  { rewrite <- (map_id (values by_label)). unfold by_label.
    rewrite (group_fold_total _ _ _ (fun n => n)); try reflexivity.
    simpl. unfold nodes, values. now rewrite length_map. }
  destruct (graph_nodes g) as [|[k node] rest] eqn:Hnodes.
  - cbn [bind]. eexists. split; [reflexivity|]. cbn.
    repeat split; try assumption; try reflexivity; discriminate.
  - assert (Hts : map GraphNode.timestamp nodes
                  = GraphNode.timestamp node
                    :: map GraphNode.timestamp (values rest)).
    { unfold nodes. reflexivity. }
    rewrite Hts. cbn [py_max bind].
    destruct (Z_keep_max_from (map GraphNode.timestamp (values rest))
                (GraphNode.timestamp node)) as (m & Hm & Hin & Hb & Hle).
    rewrite py_max_keep_max in Hm. injection Hm as Hm. rewrite Hm.
    eexists. split; [reflexivity|]. cbn.
    split; [reflexivity|]. split; [reflexivity|]. split; [exact Hkeys|].
    split; [exact Hget|]. split; [exact Hsum|]. split.
    + split; discriminate.
    + intros t [= <-]. split.
      * destruct Hin as [->|Hin]; [now left | now right].
      * now constructor.
Qed.

(** X18.  Entity extraction is a placeholder: the background task that
    [index_content] schedules leaves the graph as it is for every content,
    so whatever is indexed, the graph stays empty and [get_neo4j_stats]
    reports no node, no relation, no label and no update. *)
Theorem background_tasks_leave_graph (Any : Type) (tasks : list Task)
    (g : Graph Any) :
  fold_left (fun g task => extract_and_store_entities task g) tasks g = g
  /\ get_neo4j_stats
       (fold_left (fun g task => extract_and_store_entities task g) tasks
                  (@empty_graph Any))
     = Some (GraphStats.mk 0 0 [] None).
Proof.
  assert (Hrun : forall g : Graph Any,
             fold_left (fun g task => extract_and_store_entities task g)
                       tasks g = g).
  { induction tasks as [|[[content agent_id] source_id] tasks IH];
      intros g0; simpl; [reflexivity|].
    rewrite app_nil_r. destruct g0 as [nodes relations]. simpl. apply IH. }
  split; [apply Hrun|]. now rewrite Hrun.
Qed.

(* ================================================================== *)
(** * Matching and identities *)
(* ================================================================== *)

Lemma lower_char_idempotent (c : ascii) :
  Py.lower_char (Py.lower_char c) = Py.lower_char c.
Proof. destruct c as [[] [] [] [] [] [] [] []]; reflexivity. Qed.

Lemma lower_idempotent (s : string) : Py.lower (Py.lower s) = Py.lower s.
Proof.
  induction s as [|c s IH]; simpl; [reflexivity|].
  now rewrite lower_char_idempotent, IH.
Qed.

Lemma search_loop_query (request : SearchRequest.t) (query q : string)
    (items : Dict DocumentChunk.t) :
  forall results,
    search_loop (with_query query request) q items results
    = search_loop request q items results.
Proof.
  induction items as [|[k c] items IH]; intros results; simpl; [reflexivity|].
  change (search_item (with_query query request) q c)
    with (search_item request q c).
  destruct (search_item request q c); apply IH.
Qed.

(** X19.  The search does not distinguish upper and lower case in the
    query: two queries with the same lowercase form give the same results,
    in particular a query and its lowercase form. *)
Theorem hybrid_search_case_insensitive (request : SearchRequest.t)
    (query : string) (w : World) :
  (Py.lower query = Py.lower (SearchRequest.query request) ->
   hybrid_search (with_query query request) w = hybrid_search request w)
  /\ hybrid_search (with_query (Py.lower (SearchRequest.query request)) request) w
     = hybrid_search request w.
Proof.
  assert (H : forall q, Py.lower q = Py.lower (SearchRequest.query request) ->
                        hybrid_search (with_query q request) w
                        = hybrid_search request w).
  { intros q Hq. unfold hybrid_search. cbn [with_query SearchRequest.query
      SearchRequest.limit]. now rewrite Hq, search_loop_query. }
  split; [apply H | apply H, lower_idempotent].
Qed.

Lemma prefix_iff (w s : string) :
  prefix w s = true <-> exists post, s = w ++ post.
Proof.
  revert s. induction w as [|a w IH]; intros s.
  - split; [intros _; now exists s | intros _; now destruct s].
  - destruct s as [|b s]; simpl.
    + split; [discriminate | intros [post H]; discriminate].
    + destruct (ascii_dec a b) as [->|Hne].
      * rewrite IH. split; intros [post H]; exists post; congruence.
      * split; [discriminate | intros [post H]; congruence].
Qed.

(** [w in s]: [w] occurs somewhere in [s]. *)
Lemma contains_iff (s w : string) :
  Py.contains s w = true <-> exists pre post, s = pre ++ w ++ post.
Proof.
  induction s as [|c s IH]; cbn [Py.contains].
  - rewrite orb_false_r, prefix_iff. split.
    + intros [post H]. now exists EmptyString, post.
    + intros (pre & post & H). destruct pre; [now exists post|discriminate].
  - rewrite orb_true_iff, prefix_iff, IH. split.
    + intros [[post H]|(pre & post & H)].
      * now exists EmptyString, post.
      * exists (String c pre), post. simpl. congruence.
    + intros (pre & post & H). destruct pre as [|c' pre].
      * left. now exists post.
      * right. exists pre, post. simpl in H. congruence.
Qed.

Lemma count_matches_pos (query_words : list string) (content_lower : string) :
  (0 < count_matches query_words content_lower)%nat
  <-> exists word, In word query_words
                   /\ Py.contains content_lower word = true.
Proof.
  unfold count_matches. split.
  - destruct (filter _ query_words) as [|word rest] eqn:E; simpl; [lia|].
    intros _. exists word. apply filter_In. rewrite E. now left.
  - intros (word & Hin & Hc).
    assert (H : In word (filter (Py.contains content_lower) query_words))
      by now apply filter_In.
    destruct (filter _ query_words); [destruct H | simpl; lia].
Qed.

(** A chunk is a candidate exactly when its agent is visible, a query word
    occurs in its lowered content and the fraction of such words reaches
    [min_score]. *)
Lemma qualifies_iff (request : SearchRequest.t) (chunk : DocumentChunk.t) :
  let words := Py.split (Py.lower (SearchRequest.query request)) in
  let text := Py.lower (DocumentChunk.content chunk) in
  qualifies request chunk = true
  <-> (agent_of chunk = SearchRequest.agent_id request
       \/ (SearchRequest.include_shared request = true
           /\ agent_of chunk = "shared"))
      /\ (exists word pre post, In word words /\ text = pre ++ word ++ post)
      /\ Py.float_ge (ratio (List.length (filter (Py.contains text) words))
                            (List.length words))
                     (SearchRequest.min_score request) = true.
Proof.
  intros words text. unfold qualifies. fold words text.
  rewrite !andb_true_iff, existsb_eqb_In, Nat.ltb_lt, count_matches_pos.
  unfold agent_filter, agent_of, count_matches.
  assert (Hvis : In (ChunkMetadata.agent_id (DocumentChunk.metadata chunk))
                    (SearchRequest.agent_id request
                     :: (if SearchRequest.include_shared request
                         then ["shared"] else []))
                 <-> ChunkMetadata.agent_id (DocumentChunk.metadata chunk)
                     = SearchRequest.agent_id request
                     \/ (SearchRequest.include_shared request = true
                         /\ ChunkMetadata.agent_id (DocumentChunk.metadata chunk)
                            = "shared")).
  { destruct (SearchRequest.include_shared request); simpl; split.
    - intros [H|[H|[]]]; [now left | right; now split].
    - intros [H|[_ H]]; [now left | right; now left].
    - intros [H|[]]; now left.
    - intros [H|[H _]]; [now left | discriminate]. }
  assert (Hword : (exists word, In word words /\ Py.contains text word = true)
                  <-> exists word pre post,
                        In word words /\ text = pre ++ word ++ post).
  { split.
    - intros (word & Hin & Hc). apply contains_iff in Hc.
      destruct Hc as (pre & post & Hc). now exists word, pre, post.
    - intros (word & pre & post & Hin & Hc). exists word. split; [exact Hin|].
      apply contains_iff. now exists pre, post. }
  rewrite Hvis, Hword. tauto.
Qed.

Lemma slice_all {A} (l : list A) (hi : Z) :
  Py.len l <= hi -> Py.slice l 0 hi = l.
Proof.
  intros H. unfold Py.slice, Py.clip, Py.len in *. simpl (0 <? 0).
  rewrite (Z.min_l 0) by lia. simpl skipn. rewrite Z.sub_0_r.
  destruct (hi <? 0) eqn:E; [apply Z.ltb_lt in E; lia|].
  rewrite Z.min_r by lia. rewrite Nat2Z.id. apply firstn_all.
Qed.

(** Whether a chunk qualifies is decided by what its result shows. *)
Lemma result_of_qualifies (request : SearchRequest.t) (c c' : DocumentChunk.t) :
  result_of request c = result_of request c' ->
  qualifies request c = qualifies request c'.
Proof.
  unfold result_of, qualifies. intros H.
  injection H as Hcontent _ _ _ Hagent _. now rewrite Hcontent, Hagent.
Qed.

(** X20.  With a [limit] that does not cut the ranking, a search finds a
    stored chunk exactly when the chunk's agent is the requesting one (or
    [shared], if shared content is included), some word of the lowercased
    query occurs in its lowercased content as a substring (not necessarily
    as a whole word), and the fraction of the query's words that occur so,
    computed as a [float], reaches [min_score]. *)
Theorem hybrid_search_finds (request : SearchRequest.t) (w : World)
    (chunk_id : string) (chunk : DocumentChunk.t) :
  In (chunk_id, chunk) (indexed_chunks w) ->
  Py.len (indexed_chunks w) <= SearchRequest.limit request ->
  let words := Py.split (Py.lower (SearchRequest.query request)) in
  let text := Py.lower (DocumentChunk.content chunk) in
  In (result_of request chunk) (hybrid_search request w)
  <-> (agent_of chunk = SearchRequest.agent_id request
       \/ (SearchRequest.include_shared request = true
           /\ agent_of chunk = "shared"))
      /\ (exists word pre post, In word words /\ text = pre ++ word ++ post)
      /\ Py.float_ge (ratio (List.length (filter (Py.contains text) words))
                            (List.length words))
                     (SearchRequest.min_score request) = true.
Proof.
  intros Hin Hlimit words text.
  transitivity (qualifies request chunk = true);
    [|exact (qualifies_iff request chunk)].
  split.
  - intros Hr. apply hybrid_search_from_store in Hr as (k & c & _ & Hq & Hr).
    now rewrite (result_of_qualifies _ _ _ Hr).
  - intros Hq. rewrite hybrid_search_sorted_candidates, slice_all.
    + apply (Permutation_in _ (Permutation_sym (sort_by_score_perm _))).
      rewrite lexical_candidates_qualifying. apply in_map, filter_In.
      split; [|exact Hq]. unfold values.
      now apply (in_map snd) in Hin.
    + rewrite <- Hlimit. unfold Py.len. apply inj_le.
      rewrite (Permutation_length (sort_by_score_perm _)).
      rewrite lexical_candidates_qualifying, length_map.
      unfold values. rewrite <- (length_map snd (indexed_chunks w)).
      apply filter_length_le.
Qed.

Lemma hybrid_search_finds_witness :
  In (result_of fifth_search hello_chunk) (hybrid_search fifth_search hello_world).
Proof.
  apply (hybrid_search_finds fifth_search hello_world
           "a_b_c_0_b94d27b9934d3e08" hello_chunk).
  - vm_compute. left. reflexivity.
  - vm_compute. discriminate.
  - split; [left; reflexivity|]. split.
    + exists "hello", "", " world". split; [vm_compute; left|]; reflexivity.
    + vm_compute. reflexivity.
Defined.

Lemma append_prefix_eq (p : string) :
  forall p' h h',
    p ++ h = p' ++ h' -> String.length h = String.length h' -> p = p'.
Proof.
  induction p as [|c p IH]; intros p' h h' Heq Hlen; simpl in Heq.
  - subst h. rewrite length_append in Hlen.
    destruct p'; [reflexivity | simpl in Hlen; lia].
  - destruct p' as [|c' p']; simpl in Heq.
    + subst h'. simpl in Hlen. rewrite length_append in Hlen. lia.
    + injection Heq as -> Heq. f_equal. now apply (IH p' h h').
Qed.

Lemma append_cancel_l (p a b : string) : p ++ a = p ++ b -> a = b.
Proof.
  induction p as [|c p IH]; simpl; intros H; [exact H|].
  injection H as H. now apply IH.
Qed.

(** [str(i)] determines [i]. *)
Lemma str_of_nat_inj (i i' : nat) : Py.str_of_nat i = Py.str_of_nat i' -> i = i'.
Proof.
  assert (Hnil : forall n, Nat.to_uint n <> Decimal.Nil).
  { intros n. rewrite <- (DecimalNat.Unsigned.of_to n) at 1.
    rewrite DecimalNat.Unsigned.to_of. apply DecimalFacts.unorm_nonnil. }
  unfold Py.str_of_nat. intros H.
  apply (f_equal NilZero.uint_of_string) in H.
  rewrite !NilZero.usu in H by apply Hnil.
  injection H as H. now apply DecimalNat.Unsigned.to_uint_inj.
Qed.

(** X21.  For one agent and one source, the identity of a chunk determines
    its ordinal and its fingerprint: two chunks of the same agent and
    source get the same [chunk_id] exactly when they have the same ordinal
    and the same fingerprint. *)
Theorem make_chunk_id_injective (agent_id source_id : string) (i i' : nat)
    (text text' : string) :
  make_chunk_id agent_id source_id i (compute_hash text)
  = make_chunk_id agent_id source_id i' (compute_hash text')
  <-> i = i' /\ compute_hash text = compute_hash text'.
Proof.
  split; [|now intros [-> ->]].
  intros H. assert (Hh := make_chunk_id_hash _ _ _ _ _ _ _ _ H).
  split; [|exact Hh].
  unfold make_chunk_id in H.
  do 4 apply append_cancel_l in H.
  apply append_prefix_eq in H; [now apply str_of_nat_inj|].
  rewrite !length_append. now rewrite !compute_hash_length.
Qed.
